(** * reddit_subreddit_scraper.py: a shallow embedding and its properties

    The scraper's pure parts (score and relative-age parsers, permalink
    resolution, post-id derivation, the staleness check, the batch
    selection) and its one persistence statement are transcribed below,
    together with the parts of the Python runtime they call: [str]
    methods, [float()], float arithmetic, [int()], [timedelta] and
    [datetime] subtraction.

    Conventions.
    - A Python [str] is the list of its characters.  The runtime functions
      are given exactly on ASCII text (code points below 128); the single
      non-ASCII literal of the source, the bullet U+2022, is spelled as its
      three UTF-8 bytes.
    - A Python [float] is an IEEE binary64 value, rounding to nearest, ties
      to even.
    - A naive [datetime] is the number of microseconds since
      0001-01-01T00:00:00, a [timedelta] a number of microseconds.
    - A call that may raise returns a [result]. *)

From Stdlib Require Import ZArith NArith List Ascii String Bool Lia.
From Stdlib Require Import Permutation QArith Lqa.
Import ListNotations.
Open Scope Z_scope.

(** ** Exceptions *)

Inductive exn : Type :=
| ValueError
| OverflowError
| IndexError
| ZeroDivisionError.

Inductive result (A : Type) : Type :=
| Ok (a : A)
| Raise (e : exn).
Arguments Ok {A} a.
Arguments Raise {A} e.

Definition bind {A B : Type} (r : result A) (k : A -> result B) : result B :=
  match r with
  | Ok a => k a
  | Raise e => Raise e
  end.

Notation "x <- r ;; k" := (bind r (fun x => k))
  (at level 61, r at next level, right associativity).

(** ** Python strings *)

Module Str.

Definition str : Type := list ascii.

Definition lit (s : string) : str := list_ascii_of_string s.

Definition code (c : ascii) : Z := Z.of_N (N_of_ascii c).

Definition eqb (a b : str) : bool :=
  if list_eq_dec ascii_dec a b then true else false.

(** [str.isspace] for one character: TAB..CR, FS..US and the space. *)
Definition isspace (c : ascii) : bool :=
  let n := code c in
  ((9 <=? n) && (n <=? 13)) || ((28 <=? n) && (n <=? 32)).

Definition lower_char (c : ascii) : ascii :=
  let n := code c in
  if (65 <=? n) && (n <=? 90) then ascii_of_N (Z.to_N (n + 32)) else c.

(** [s.lower()] *)
Definition lower (s : str) : str := map lower_char s.

Fixpoint lstrip_by (sp : ascii -> bool) (s : str) : str :=
  match s with
  | [] => []
  | c :: t => if sp c then lstrip_by sp t else s
  end.

Definition strip_by (sp : ascii -> bool) (s : str) : str :=
  rev (lstrip_by sp (rev (lstrip_by sp s))).

(** [s.strip()] *)
Definition strip (s : str) : str := strip_by isspace s.

(** [s.startswith(p)] *)
Fixpoint startswith (p s : str) : bool :=
  match p, s with
  | [], _ => true
  | _ :: _, [] => false
  | a :: p', b :: s' => if ascii_dec a b then startswith p' s' else false
  end.

(** [s.endswith(p)] *)
Definition endswith (p s : str) : bool := startswith (rev p) (rev s).

(** [p in s] *)
Fixpoint contains (p s : str) : bool :=
  startswith p s ||
  match s with
  | [] => false
  | _ :: t => contains p t
  end.

(** Left-to-right scan of [s.replace(old, new)] for a non-empty [old];
    [skip] counts the characters of a match still to be dropped. *)
Fixpoint replace_from (old new : str) (skip : nat) (s : str) : str :=
  match s with
  | [] => []
  | c :: t =>
      match skip with
      | S k => replace_from old new k t
      | O =>
          if startswith old s
          then new ++ replace_from old new (Nat.pred (List.length old)) t
          else c :: replace_from old new O t
      end
  end.

(** [s.replace(old, new)] *)
Definition replace (old new s : str) : str :=
  match old with
  | [] => new ++ flat_map (fun c => c :: new) s
  | _ :: _ => replace_from old new O s
  end.

(** [s[:-1]] *)
Definition drop_last (s : str) : str := removelast s.

Definition cons_head (c : ascii) (l : list str) : list str :=
  match l with
  | h :: r => (c :: h) :: r
  | [] => [[c]]
  end.

(** Left-to-right scan of [s.split(sep)] for a non-empty [sep]. *)
Fixpoint split_from (sep : str) (skip : nat) (s : str) : list str :=
  match s with
  | [] => [[]]
  | c :: t =>
      match skip with
      | S k => split_from sep k t
      | O =>
          if startswith sep s
          then [] :: split_from sep (Nat.pred (List.length sep)) t
          else cons_head c (split_from sep O t)
      end
  end.

(** [s.split(sep)]; an empty separator raises [ValueError]. *)
Definition split (sep s : str) : result (list str) :=
  match sep with
  | [] => Raise ValueError
  | _ :: _ => Ok (split_from sep O s)
  end.

(** [s.split()]: the maximal runs of non-whitespace characters.
    [cur] is the run being read, in reverse. *)
Fixpoint split_ws_from (cur : str) (s : str) : list str :=
  match s with
  | [] => match cur with [] => [] | _ :: _ => [rev cur] end
  | c :: t =>
      if isspace c
      then match cur with
           | [] => split_ws_from [] t
           | _ :: _ => rev cur :: split_ws_from [] t
           end
      else split_ws_from (c :: cur) t
  end.

Definition split_ws (s : str) : list str := split_ws_from [] s.

(** [l[i]] for a non-negative index. *)
Definition index {A : Type} (l : list A) (i : nat) : result A :=
  match nth_error l i with
  | Some a => Ok a
  | None => Raise IndexError
  end.

Definition mem (s : str) (l : list str) : bool := existsb (eqb s) l.

End Str.

(** ** Python floats *)

Module Float.

(** [Fin neg m e] is the number [±m·2^e]; several pairs [(m, e)] may denote
    one binary64 value, and every function below depends on the number
    only. *)
Inductive float : Type :=
| NaN
| Inf (neg : bool)
| Fin (neg : bool) (m : N) (e : Z).

Definition emin : Z := -1074.

(** [2^k] for [k >= 0], 1 otherwise. *)
Definition pow2 (k : Z) : Z := 2 ^ Z.max 0 k.

(** [x · 2^k] for [k >= 0], [x] otherwise. *)
Definition shl (x k : Z) : Z := x * pow2 k.

(** Rounding of the positive rational [n/d] to 53 significant bits (fewer
    below [2^-1022]): the pair [(q, k)] stands for [q·2^k]. *)
Definition round_pos (n d : Z) : Z * Z :=
  let ex := Z.log2 n - Z.log2 d in
  let k0 := if shl d ex <=? shl n (- ex) then ex - 52 else ex - 53 in
  let k := Z.max k0 emin in
  let ns := shl n (- k) in
  let ds := shl d k in
  let q := ns / ds in
  let r := ns mod ds in
  let q' := match 2 * r ?= ds with
            | Lt => q
            | Gt => q + 1
            | Eq => if Z.even q then q else q + 1
            end in
  (q', k).

(** The binary64 value nearest to [±n/d] ([0 <= n], [0 < d]); values that
    round to [2^1024] or more become infinite. *)
Definition RN (neg : bool) (n d : Z) : float :=
  if n =? 0 then Fin neg 0 0
  else
    let '(q, k) := round_pos n d in
    if (0 <=? k) && (2 ^ 1024 <=? q * 2 ^ k) then Inf neg
    else Fin neg (Z.to_N q) k.

(** The binary64 value nearest to [±m·2^e]. *)
Definition RN2 (neg : bool) (m e : Z) : float :=
  RN neg (shl m e) (shl 1 (- e)).

(** The binary64 value nearest to [±m·10^e]: what [float()] makes of a
    decimal literal. *)
Definition RN10 (neg : bool) (m e : Z) : float :=
  RN neg (m * 10 ^ Z.max 0 e) (10 ^ Z.max 0 (- e)).

(** [float(z)] for an int; too large an int raises [OverflowError]. *)
Definition of_int (z : Z) : result float :=
  match RN (z <? 0) (Z.abs z) 1 with
  | Inf _ => Raise OverflowError
  | f => Ok f
  end.

(** [a / b] for ints. *)
Definition int_truediv (a b : Z) : result float :=
  if b =? 0 then Raise ZeroDivisionError
  else
    match RN (xorb (a <? 0) (b <? 0)) (Z.abs a) (Z.abs b) with
    | Inf _ => Raise OverflowError
    | f => Ok f
    end.

Definition is_zero (x : float) : bool :=
  match x with
  | Fin _ m _ => (m =? 0)%N
  | _ => false
  end.

(** [x * y] *)
Definition mul (x y : float) : float :=
  match x, y with
  | NaN, _ | _, NaN => NaN
  | Inf s, Inf t => Inf (xorb s t)
  | Inf s, Fin t m _ | Fin t m _, Inf s =>
      if (m =? 0)%N then NaN else Inf (xorb s t)
  | Fin s m1 e1, Fin t m2 e2 =>
      RN2 (xorb s t) (Z.of_N m1 * Z.of_N m2) (e1 + e2)
  end.

(** [x / y]; a zero divisor raises [ZeroDivisionError]. *)
Definition div (x y : float) : result float :=
  match x, y with
  | _, Fin _ 0%N _ => Raise ZeroDivisionError
  | NaN, _ | _, NaN => Ok NaN
  | Inf _, Inf _ => Ok NaN
  | Inf s, Fin t _ _ => Ok (Inf (xorb s t))
  | Fin s _ _, Inf t => Ok (Fin (xorb s t) 0 0)
  | Fin s m1 e1, Fin t m2 e2 =>
      Ok (RN (xorb s t)
             (shl (shl (Z.of_N m1) e1) (- e2))
             (shl (shl (Z.of_N m2) e2) (- e1)))
  end.

(** The signed numerator of a finite value over [2^-e]. *)
Definition signed (neg : bool) (m : N) : Z :=
  if neg then - Z.of_N m else Z.of_N m.

(** [x + y] *)
Definition add (x y : float) : float :=
  match x, y with
  | NaN, _ | _, NaN => NaN
  | Inf s, Inf t => if Bool.eqb s t then Inf s else NaN
  | Inf s, Fin _ _ _ | Fin _ _ _, Inf s => Inf s
  | Fin s m1 e1, Fin t m2 e2 =>
      let e := Z.min e1 e2 in
      let a := signed s m1 * 2 ^ (e1 - e) + signed t m2 * 2 ^ (e2 - e) in
      if a =? 0 then Fin (s && t) 0 0 else RN2 (a <? 0) (Z.abs a) e
  end.

Definition opp (x : float) : float :=
  match x with
  | NaN => NaN
  | Inf s => Inf (negb s)
  | Fin s m e => Fin (negb s) m e
  end.

(** [x - y] *)
Definition sub (x y : float) : float := add x (opp y).

(** [fabs(x)] *)
Definition abs (x : float) : float :=
  match x with
  | NaN => NaN
  | Inf _ => Inf false
  | Fin _ m e => Fin false m e
  end.

(** Comparison of two floats as numbers; [None] when one is a NaN. *)
Definition compare (x y : float) : option comparison :=
  match x, y with
  | NaN, _ | _, NaN => None
  | Inf s, Inf t =>
      Some (if Bool.eqb s t then Eq else if s then Lt else Gt)
  | Inf s, Fin _ _ _ => Some (if s then Lt else Gt)
  | Fin _ _ _, Inf s => Some (if s then Gt else Lt)
  | Fin s m1 e1, Fin t m2 e2 =>
      let e := Z.min e1 e2 in
      Some (signed s m1 * 2 ^ (e1 - e) ?= signed t m2 * 2 ^ (e2 - e))
  end.

(** [x == y] *)
Definition eqb (x y : float) : bool :=
  match compare x y with
  | Some Eq => true
  | _ => false
  end.

(** [x > y] *)
Definition gtb (x y : float) : bool :=
  match compare x y with
  | Some Gt => true
  | _ => false
  end.

(** [x > z] for an int [z]: Python compares the two numbers exactly. *)
Definition gtb_int (x : float) (z : Z) : bool :=
  gtb x (Fin (z <? 0) (Z.to_N (Z.abs z)) 0).

(** The integer part of a finite value, towards zero. *)
Definition trunc_fin (neg : bool) (m : N) (e : Z) : Z :=
  let a := if 0 <=? e then Z.of_N m * 2 ^ e else Z.of_N m / 2 ^ (- e) in
  if neg then - a else a.

(** [int(x)] *)
Definition to_int (x : float) : result Z :=
  match x with
  | NaN => Raise ValueError
  | Inf _ => Raise OverflowError
  | Fin s m e => Ok (trunc_fin s m e)
  end.

(** C's [modf]: the pair (fractional part, integral part). *)
Definition modf (x : float) : float * float :=
  match x with
  | NaN => (NaN, NaN)
  | Inf s => (Fin s 0 0, Inf s)
  | Fin s m e =>
      if 0 <=? e then (Fin s 0 0, x)
      else (Fin s (Z.to_N (Z.of_N m mod 2 ^ (- e))) e,
            Fin s (Z.to_N (Z.of_N m / 2 ^ (- e))) 0)
  end.

(** C's [round]: to the nearest integer, halves away from zero. *)
Definition round (x : float) : float :=
  match x with
  | Fin s m e =>
      if 0 <=? e then x
      else
        let q := Z.of_N m / 2 ^ (- e) in
        let r := Z.of_N m mod 2 ^ (- e) in
        Fin s (Z.to_N (if 2 ^ (- e) <=? 2 * r then q + 1 else q)) 0
  | _ => x
  end.

End Float.

(** ** [float(s)] for a string *)

Module FloatOfStr.
Import Str Float.

(** C's [Py_ISSPACE], used by [float()] on ASCII text. *)
Definition c_isspace (c : ascii) : bool :=
  let n := code c in
  ((9 <=? n) && (n <=? 13)) || (n =? 32).

Definition isdigit (c : ascii) : bool :=
  let n := code c in
  (48 <=? n) && (n <=? 57).

Definition is_underscore (c : ascii) : bool := code c =? 95.

(** An underscore is accepted only between two digits. *)
Fixpoint underscores_ok (prev : ascii) (s : str) : bool :=
  match s with
  | [] => negb (is_underscore prev)
  | c :: t =>
      (if is_underscore c then isdigit prev
       else negb (is_underscore prev) || isdigit c)
      && underscores_ok c t
  end.

Definition drop_underscores (s : str) : str :=
  filter (fun c => negb (is_underscore c)) s.

Fixpoint span_digits (s : str) : str * str :=
  match s with
  | [] => ([], [])
  | c :: t =>
      if isdigit c
      then let '(d, r) := span_digits t in (c :: d, r)
      else ([], s)
  end.

Definition digits_value (ds : str) : Z :=
  fold_left (fun acc c => 10 * acc + (code c - 48)) ds 0.

Definition take_sign (s : str) : bool * str :=
  match s with
  | c :: t =>
      if code c =? 45 then (true, t)
      else if code c =? 43 then (false, t)
      else (false, s)
  | [] => (false, [])
  end.

Definition is_e (c : ascii) : bool := (code c =? 101) || (code c =? 69).

(** A decimal literal, read whole: sign, digits with an optional point,
    optional exponent.  The result [(neg, m, e)] stands for [±m·10^e]. *)
Definition parse_decimal (s : str) : option (bool * Z * Z) :=
  let '(neg, s1) := take_sign s in
  let '(ip, s2) := span_digits s1 in
  let '(fp, s3) := match s2 with
                   | c :: t => if code c =? 46 then span_digits t else ([], s2)
                   | [] => ([], [])
                   end in
  match ip ++ fp with
  | [] => None
  | _ :: _ =>
      let m := digits_value (ip ++ fp) in
      let scale := - Z.of_nat (List.length fp) in
      match s3 with
      | [] => Some (neg, m, scale)
      | c :: s4 =>
          if is_e c then
            let '(eneg, s5) := take_sign s4 in
            match span_digits s5 with
            | ((_ :: _) as ed, []) =>
                let ev := digits_value ed in
                Some (neg, m, (if eneg then - ev else ev) + scale)
            | _ => None
            end
          else None
      end
  end.

(** [inf], [infinity] and [nan], signed, in any letter case. *)
Definition parse_inf_nan (s : str) : option float :=
  let '(neg, t) := take_sign s in
  let t := lower t in
  if Str.eqb t (lit "inf") || Str.eqb t (lit "infinity") then Some (Inf neg)
  else if Str.eqb t (lit "nan") then Some NaN
  else None.

(** [float(s)] *)
Definition float_of_str (s : str) : result float :=
  let t := strip_by c_isspace s in
  match t with
  | [] => Raise ValueError
  | _ :: _ =>
      if underscores_ok zero t then
        let u := drop_underscores t in
        match parse_decimal u with
        | Some (neg, m, e) => Ok (RN10 neg m e)
        | None =>
            match parse_inf_nan u with
            | Some f => Ok f
            | None => Raise ValueError
            end
        end
      else Raise ValueError
  end.

End FloatOfStr.

(** ** [datetime] and [timedelta] *)

Module Time.
Import Float.

Definition US_PER_SECOND : Z := 1000000.
Definition US_PER_MINUTE : Z := 60000000.
Definition US_PER_HOUR : Z := 3600000000.
Definition US_PER_DAY : Z := 86400000000.

(** One past [datetime.max], 9999-12-31T23:59:59.999999. *)
Definition DATETIME_END : Z := 3652059 * US_PER_DAY.

Definition MAX_DELTA_DAYS : Z := 999999999.

(** An int or a float, as [amount] is in [parse_age_text]. *)
Inductive number : Type :=
| PyInt (z : Z)
| PyFloat (x : float).

(** The range check every new [timedelta] goes through. *)
Definition new_delta (us : Z) : result Z :=
  let days := us / US_PER_DAY in
  if (days <? - MAX_DELTA_DAYS) || (MAX_DELTA_DAYS <? days)
  then Raise OverflowError
  else Ok us.

Definition half : float := Fin false 1 (-1).
Definition two : float := Fin false 2 0.

(** The last step of the [timedelta] constructor: the fraction of a
    microsecond left over is rounded, ties to the even total. *)
Definition round_leftover (sum : Z) (leftover : float) : result Z :=
  if is_zero leftover then new_delta sum
  else
    let whole := round leftover in
    let whole :=
      if eqb (abs (sub whole leftover)) half then
        let x_is_odd := Fin false (if Z.odd sum then 1 else 0) 0 in
        sub (mul two (round (mul (add leftover x_is_odd) half))) x_is_odd
      else whole in
    t <- to_int whole ;;
    new_delta (sum + t).

(** [timedelta(unit=amount)] in microseconds, where one unit is [factor]
    microseconds. *)
Definition timedelta (factor : Z) (amount : number) : result Z :=
  match amount with
  | PyInt z => new_delta (z * factor)
  | PyFloat x =>
      let '(fracpart, intpart) := modf x in
      xi <- to_int intpart ;;
      let sum := xi * factor in
      if is_zero fracpart then round_leftover sum (Fin false 0 0)
      else
        f <- of_int factor ;;
        let '(fracpart2, intpart2) := modf (mul f fracpart) in
        x2 <- to_int intpart2 ;;
        round_leftover (sum + x2) (add (Fin false 0 0) fracpart2)
  end.

(** [dt - delta] for a naive datetime. *)
Definition datetime_sub (dt delta : Z) : result Z :=
  let r := dt - delta in
  if (r <? 0) || (DATETIME_END <=? r) then Raise OverflowError else Ok r.

(** [delta.total_seconds()] *)
Definition total_seconds (delta : Z) : result float :=
  int_truediv delta US_PER_SECOND.

End Time.

(** ** The scraper *)

Module Scraper.
Import Str Float FloatOfStr Time.

(** *** Configuration *)

Definition BATCH_MIN : Z := 13.
Definition BATCH_MAX : Z := 31.
Definition POST_MAX_AGE_HOURS : Z := 4.

Definition SUBREDDITS : list str :=
  [ lit "GirlsWithGuns"; lit "CountryGirls"; lit "CamoGirls";
    lit "TacticalGirls"; lit "Outdoors"; lit "Bushcraft" ].

(** The bullet U+2022 in UTF-8. *)
Definition BULLET : str :=
  [ascii_of_nat 226; ascii_of_nat 128; ascii_of_nat 162].

(** *** Field parsers *)

(** [except ValueError: return dflt] around a computation. *)
Definition except_ValueError {A : Type} (r : result A) (dflt : A) : result A :=
  match r with
  | Raise ValueError => Ok dflt
  | _ => r
  end.

Definition parse_score_text (score_text : str) : result Z :=
  let cleaned :=
    replace (lit "point") [] (replace (lit "points") [] (lower (strip score_text))) in
  let cleaned :=
    strip (replace (lit "vote") [] (replace (lit "votes") [] cleaned)) in
  if Str.eqb cleaned [] || mem cleaned [BULLET] then Ok 0
  else
    let '(multiplier, cleaned) :=
      if endswith (lit "k") cleaned then (1000, drop_last cleaned)
      else (1, cleaned) in
    except_ValueError
      (value <- float_of_str cleaned ;;
       m <- of_int multiplier ;;
       to_int (mul value m))
      0.

(** The [try] block of [parse_age_text]: [None] stands for the
    [return None] of its handler. *)
Definition parse_amount (amount_str : str) : result (option number) :=
  if mem amount_str [lit "a"; lit "an"] then Ok (Some (PyInt 1))
  else
    match float_of_str amount_str with
    | Ok x => Ok (Some (PyFloat x))
    | Raise ValueError => Ok None
    | Raise e => Raise e
    end.

(** The [if]/[elif] chain on [unit]: microseconds per unit. *)
Definition unit_factor (unit : str) : option Z :=
  if contains (lit "min") unit then Some US_PER_MINUTE
  else if contains (lit "hour") unit || Str.eqb unit (lit "h") then Some US_PER_HOUR
  else if contains (lit "sec") unit || Str.eqb unit (lit "s") then Some US_PER_SECOND
  else None.

(** [now] is the value [datetime.utcnow()] returns on line 90. *)
Definition parse_age_text (now : Z) (age_text : str) : result (option Z) :=
  let text := lower (strip age_text) in
  if Str.eqb text [] then Ok None
  else if mem text [lit "just now"; lit "moments ago"] then Ok (Some now)
  else
    match split_ws text with
    | [] => Ok None
    | amount_str :: rest =>
        a <- parse_amount amount_str ;;
        match a with
        | None => Ok None
        | Some amount =>
            let unit := match rest with u :: _ => u | [] => [] end in
            match unit_factor unit with
            | None => Ok None
            | Some factor =>
                delta <- timedelta factor amount ;;
                t <- datetime_sub now delta ;;
                Ok (Some t)
            end
        end
    end.

(** *** Permalink and post id *)

Definition ORIGIN : str := lit "https://www.reddit.com".
Definition COMMENTS : str := lit "/comments/".

(** Lines 180-183. *)
Definition resolve_post_url (href : str) : str :=
  if startswith (lit "/") href then ORIGIN ++ href else href.

(** Lines 185-190; any exception but [IndexError] would propagate. *)
Definition derive_post_id (post_url : str) : result str :=
  if contains COMMENTS post_url then
    match (parts <- split COMMENTS post_url ;;
           tail <- index parts 1 ;;
           segs <- split (lit "/") tail ;;
           index segs 0) with
    | Raise IndexError => Ok post_url
    | r => r
    end
  else Ok (lit "unknown").

(** *** Persistence *)

Record Row : Type := {
  subreddit : str;
  post_id : str;
  post_url : str;
  score : Z;
  created_at : Z;
  seen_at : Z;
  commented : bool
}.

(** The table [reddit_posts], rows in insertion order; [post_id] is its
    conflict target. *)
Definition Table : Type := list Row.

Definition has_post_id (id : str) (t : Table) : bool :=
  existsb (fun r => Str.eqb (post_id r) id) t.

(** [INSERT ... ON CONFLICT (post_id) DO NOTHING] *)
Definition insert_do_nothing (r : Row) (t : Table) : Table :=
  if has_post_id (post_id r) t then t else t ++ [r].

(** What the outside supplies: the successive clock readings and
    [datetime.fromisoformat] followed by [.replace(tzinfo=None)], [None]
    when it raises [ValueError]. *)
Record Env : Type := {
  clock : nat -> Z;
  fromisoformat : str -> option Z
}.

Record State : Type := {
  rows : Table;
  tick : nat
}.

Definition M (A : Type) : Type := State -> result A * State.

Definition ret {A : Type} (a : A) : M A := fun st => (Ok a, st).

Definition lift {A : Type} (r : result A) : M A := fun st => (r, st).

Definition mbind {A B : Type} (m : M A) (k : A -> M B) : M B :=
  fun st =>
    match m st with
    | (Ok a, st') => k a st'
    | (Raise e, st') => (Raise e, st')
    end.

Notation "x <~ m ;; k" := (mbind m (fun x => k))
  (at level 61, m at next level, right associativity).

(** The state after one clock reading. *)
Definition ticked (st : State) : State :=
  {| rows := rows st; tick := S (tick st) |}.

(** A clock reading: [datetime.utcnow()] or the database's [NOW()]. *)
Definition read_clock (env : Env) : M Z :=
  fun st => (Ok (clock env (tick st)), ticked st).

Definition insert_reddit_post (env : Env)
    (subreddit post_id post_url : str) (score created_at : Z) : M unit :=
  now <~ read_clock env ;;
  fun st =>
    (Ok tt,
     {| rows := insert_do_nothing
                  {| subreddit := subreddit; post_id := post_id;
                     post_url := post_url; score := score;
                     created_at := created_at; seen_at := now;
                     commented := false |}
                  (rows st);
        tick := tick st |}).

(** *** One post element *)

(** What the selectors of the loop body find in one post container. *)
Record Anchor : Type := {
  time_datetime : option (option str);
  anchor_text : str
}.

Record PostEl : Type := {
  title_text : option str;
  timestamp_anchor : option Anchor;
  permalink_href : option (option str);
  score_text : option str
}.

Inductive skip_reason : Type :=
| NoTitle
| NoTimestamp
| TooOld
| NoPermalink
| EmptyPermalink.

(** The arguments of one call of [insert_reddit_post]. *)
Record Saved : Type := {
  s_subreddit : str;
  s_post_id : str;
  s_post_url : str;
  s_score : Z;
  s_created_at : Z
}.

Inductive outcome : Type :=
| Skip (why : skip_reason)
| Save (args : Saved).

(** Lines 144-159: the timestamp attribute first, the age text second. *)
Definition datetime_of_attribute (env : Env) (a : option Anchor) : option Z :=
  match a with
  | Some {| time_datetime := Some (Some ((_ :: _) as datetime_str)) |} =>
      fromisoformat env (replace (lit "Z") (lit "+00:00") datetime_str)
  | _ => None
  end.

Definition find_datetime (env : Env) (a : option Anchor) : M (option Z) :=
  match datetime_of_attribute env a, a with
  | None, Some anchor =>
      now <~ read_clock env ;;
      lift (parse_age_text now (strip (anchor_text anchor)))
  | v, _ => ret v
  end.

(** Lines 165-166. *)
Definition age_hours (now created : Z) : result float :=
  secs <- total_seconds (now - created) ;;
  h <- of_int 3600 ;;
  div secs h.

Definition too_old (now created : Z) : result bool :=
  a <- age_hours now created ;;
  Ok (gtb_int a POST_MAX_AGE_HOURS).

(** Lines 170-199, once the post is fresh. *)
Definition extract_fresh (env : Env) (sub : str) (p : PostEl) (created : Z)
  : M outcome :=
  match permalink_href p with
  | None => ret (Skip NoPermalink)
  | Some None | Some (Some []) => ret (Skip EmptyPermalink)
  | Some (Some href) =>
      let url := resolve_post_url href in
      id <~ lift (derive_post_id url) ;;
      sc <~ lift (match score_text p with
                  | Some t => parse_score_text (strip t)
                  | None => Ok 0
                  end) ;;
      _ <~ insert_reddit_post env sub id url sc created ;;
      ret (Save {| s_subreddit := sub; s_post_id := id; s_post_url := url;
                   s_score := sc; s_created_at := created |})
  end.

(** The body of the [for post in posts] loop. *)
Definition process_post (env : Env) (sub : str) (p : PostEl) : M outcome :=
  match title_text p with
  | None => ret (Skip NoTitle)
  | Some t =>
      match strip t with
      | [] => ret (Skip NoTitle)
      | _ :: _ =>
          dv <~ find_datetime env (timestamp_anchor p) ;;
          match dv with
          | None => ret (Skip NoTimestamp)
          | Some created =>
              now <~ read_clock env ;;
              old <~ lift (too_old now created) ;;
              if old : bool then ret (Skip TooOld)
              else extract_fresh env sub p created
          end
      end
  end.

(** [scrape_subreddit] from the [for] loop on, given the post containers
    that [query_selector_all] found; the [except Exception] around the
    loop ends it at the first exception.  The result lists the outcome of
    every post handled. *)
Fixpoint scrape_subreddit (env : Env) (sub : str) (posts : list PostEl)
  : State -> list outcome * State :=
  fun st =>
    match posts with
    | [] => ([], st)
    | p :: rest =>
        match process_post env sub p st with
        | (Ok o, st') =>
            let '(os, st'') := scrape_subreddit env sub rest st' in
            (o :: os, st'')
        | (Raise _, st') => ([], st')
        end
    end.

(** *** Batch selection *)

(** [picks] are the positions a random draw selects: [k] distinct
    positions of a population of [n] elements. *)
Definition valid_picks (n k : nat) (picks : list nat) : Prop :=
  List.length picks = k /\ NoDup picks /\ Forall (fun i => (i < n)%nat) picks.

(** The element at a drawn position. *)
Definition pick {A : Type} (population : list A) (i : nat) : list A :=
  match nth_error population i with
  | Some a => [a]
  | None => []
  end.

(** [random.sample(population, k)], given the order [picks] in which the
    generator draws distinct positions of the population: the elements at
    the first [k] positions drawn. *)
Definition sample {A : Type} (population : list A) (k : Z) (picks : list nat)
  : result (list A) :=
  if (k <? 0) || (Z.of_nat (List.length population) <? k) then Raise ValueError
  else Ok (flat_map (pick population) (firstn (Z.to_nat k) picks)).

(** [r] is the value [random.randint(BATCH_MIN, BATCH_MAX)] returns. *)
Definition get_subreddits_for_this_loop (subreddits : list str)
    (r : Z) (picks : list nat) : result (list str) :=
  match subreddits with
  | [] => Ok []
  | _ :: _ =>
      let batch_size := Z.min (Z.of_nat (List.length subreddits)) r in
      sample subreddits batch_size picks
  end.

End Scraper.

(** ** Vocabulary of the specification *)

Module Spec.
Import Str Float FloatOfStr Time.

(** The characters of [s] before its first [c]; all of [s] when [c] does
    not occur. *)
Fixpoint before (c : ascii) (s : str) : str :=
  match s with
  | [] => []
  | a :: t => if ascii_dec c a then [] else a :: before c t
  end.

Definition SLASH : ascii := ascii_of_nat 47.
Definition MINUS : ascii := ascii_of_nat 45.

(** The staleness window in microseconds. *)
Definition WINDOW_US : Z := Scraper.POST_MAX_AGE_HOURS * US_PER_HOUR.

(** The float 3600.0. *)
Definition F3600 : float := Fin false 7916483719987200 (-41).

(** [x] is not a NaN, has a clear sign bit and is at least [cm·2^ce]. *)
Definition at_least (cm ce : Z) (x : float) : Prop :=
  match x with
  | NaN => False
  | Inf s => s = false
  | Fin s q k =>
      s = false
      /\ cm * pow2 ce * pow2 (- k) <= Z.of_N q * pow2 k * pow2 (- ce)
  end.


(** The units of the relative-age rules, and the rules in the order the
    specification lists them. *)
Inductive time_unit : Type :=
| Minutes
| Hours
| Seconds.

Definition us_per (u : time_unit) : Z :=
  match u with
  | Minutes => US_PER_MINUTE
  | Hours => US_PER_HOUR
  | Seconds => US_PER_SECOND
  end.

Definition unit_of_token (tok : str) : option time_unit :=
  if contains (lit "min") tok then Some Minutes
  else if contains (lit "hour") tok then Some Hours
  else if Str.eqb tok (lit "h") then Some Hours
  else if contains (lit "sec") tok then Some Seconds
  else if Str.eqb tok (lit "s") then Some Seconds
  else None.

(** "a"/"an" means 1; any other magnitude is read as a number. *)
Definition magnitude_of_token (tok : str) : option number :=
  if Str.eqb tok (lit "a") || Str.eqb tok (lit "an") then Some (PyInt 1)
  else
    match float_of_str tok with
    | Ok x => Some (PyFloat x)
    | Raise _ => None
    end.

(** Reference time minus the elapsed duration, or the absence signal when
    the magnitude is not a number, the unit is missing or the unit is not
    recognised. *)
Definition age_of_tokens (now : Z) (magnitude : str) (unit : option str)
  : result (option Z) :=
  match magnitude_of_token magnitude, unit with
  | Some x, Some u =>
      match unit_of_token u with
      | Some k =>
          delta <- timedelta (us_per k) x ;;
          t <- datetime_sub now delta ;;
          Ok (Some t)
      | None => Ok None
      end
  | _, _ => Ok None
  end.

End Spec.

(** ** A sample page *)

(** The scenario of the specification: a post without a title, a post six
    hours old and a post ten minutes old with the score text "2.3k". *)
Module Sample.
Import Str Scraper.

Definition NOW0 : Z := 63900000000000000.

Definition env : Env :=
  {| clock := fun n => NOW0 + Z.of_nat n;
     fromisoformat := fun s =>
       if Str.eqb s (lit "2025-11-25T18:00:00+00:00")
       then Some (NOW0 - 6 * Time.US_PER_HOUR)
       else None |}.

Definition no_title : PostEl :=
  {| title_text := None;
     timestamp_anchor := Some {| time_datetime := None;
                                 anchor_text := lit "5 minutes ago" |};
     permalink_href := Some (Some (lit "/r/x/comments/aaa111/none/"));
     score_text := Some (lit "7") |}.

Definition six_hours_old : PostEl :=
  {| title_text := Some (lit "Old news");
     timestamp_anchor :=
       Some {| time_datetime := Some (Some (lit "2025-11-25T18:00:00Z"));
               anchor_text := lit "6 hours ago" |};
     permalink_href := Some (Some (lit "/r/x/comments/bbb222/old/"));
     score_text := Some (lit "15") |}.

Definition ten_minutes_old : PostEl :=
  {| title_text := Some (lit "Fresh  ");
     timestamp_anchor := Some {| time_datetime := None;
                                 anchor_text := lit " 10 minutes ago" |};
     permalink_href := Some (Some (lit "/r/x/comments/abc123/title/"));
     score_text := Some (lit "2.3k") |}.

Definition page : list PostEl := [no_title; six_hours_old; ten_minutes_old].

Definition start : State := {| rows := []; tick := O |}.

Definition saved : Saved :=
  {| s_subreddit := lit "x";
     s_post_id := lit "abc123";
     s_post_url := lit "https://www.reddit.com/r/x/comments/abc123/title/";
     s_score := 2300;
     s_created_at := NOW0 + 1 - 10 * Time.US_PER_MINUTE |}.

End Sample.

(** ** Parts of the field parsers *)

Module Parts.
Import Str FloatOfStr Scraper.

(** A non-empty run of the digits 0 to 9, as [int] prints a natural
    number. *)
Definition digits (ds : str) : bool :=
  match ds with
  | [] => false
  | _ :: _ => forallb isdigit ds
  end.

(** [s.rstrip()] *)
Definition rstrip (s : str) : str := rev (lstrip_by isspace (rev s)).

(** The text [parse_score_text] goes on with after lines 73-74. *)
Definition cleaned_score (score_text : str) : str :=
  let cleaned :=
    replace (lit "point") [] (replace (lit "points") [] (lower (strip score_text))) in
  strip (replace (lit "vote") [] (replace (lit "votes") [] cleaned)).

(** The unit words a score text may carry after the number. *)
Definition SCORE_WORDS : list str :=
  [ []; lit " point"; lit " points"; lit " vote"; lit " votes" ].

End Parts.

(** ** The database configuration *)

Module Config.
Import Str.

(** The values a configuration entry holds. *)
Inductive value : Type :=
| PyNone
| PyStr (s : str)
| PyNum (z : Z).

(** A dict in insertion order. *)
Definition config : Type := list (str * value).

Inductive checked : Type :=
| Valid (c : config)
| RuntimeError (message : str).

(** [value in (None, "")] *)
Definition is_missing (v : value) : bool :=
  match v with
  | PyNone => true
  | PyStr [] => true
  | _ => false
  end.

(** [sep.join(items)] *)
Fixpoint join (sep : str) (items : list str) : str :=
  match items with
  | [] => []
  | [a] => a
  | a :: rest => a ++ sep ++ join sep rest
  end.

Definition MISSING : str := lit "Missing DB config environment variables: ".

Definition _validated_db_config (DB_CONFIG : config) : checked :=
  let missing :=
    map fst (filter (fun kv => is_missing (snd kv)) DB_CONFIG) in
  match missing with
  | _ :: _ => RuntimeError (MISSING ++ join (lit ", ") missing)
  | [] => Valid DB_CONFIG
  end.

End Config.

(** ** The main loop *)

Module Run.
Import Str Float FloatOfStr Time Scraper.

Definition LOOP_DELAY_MIN_SEC : Z := 6 * 60.
Definition LOOP_DELAY_MAX_SEC : Z := 18 * 60.
Definition SUBREDDIT_COOLDOWN_MIN_SEC : Z := 13.
Definition SUBREDDIT_COOLDOWN_MAX_SEC : Z := 31.
Definition BACKOFF_MIN_SEC : Z := 120.
Definition BACKOFF_MAX_SEC : Z := 240.

(** [valid_count] when the loop of [scrape_subreddit] ends: the number of
    calls of [insert_reddit_post]. *)
Definition is_save (o : outcome) : bool :=
  match o with
  | Save _ => true
  | Skip _ => false
  end.

Definition valid_count (os : list outcome) : nat :=
  List.length (filter is_save os).

(** The row an insert writes for the arguments [a] when the database
    clock reads [seen]. *)
Definition row_of (a : Saved) (seen : Z) : Row :=
  {| subreddit := s_subreddit a; post_id := s_post_id a;
     post_url := s_post_url a; score := s_score a;
     created_at := s_created_at a; seen_at := seen; commented := false |}.

(** The rows the saved posts of one page ask for, whatever the clock. *)
Definition asks_for (a : Saved) (r : Row) : Prop :=
  exists seen, r = row_of a seen.

(** *** The generator *)

(** [random.random()]: the float [k / 2^53] for the 53 bits [k] drawn. *)
Definition random (k : N) : float := Fin false k (-53).

(** [random.uniform(a, b)], for the value [r] of [random()]. *)
Definition uniform (a b r : float) : float := add a (mul (sub b a) r).

(** The float literals [0.8] and [1.4]. *)
Definition F_0_8 : float := RN10 false 8 (-1).
Definition F_1_4 : float := RN10 false 14 (-1).

(** [x[i] = v] for a position of the list. *)
Definition set_item {A : Type} (x : list A) (i : nat) (v : A) : list A :=
  firstn i x ++ v :: skipn (S i) x.

(** [x[i], x[j] = x[j], x[i]] *)
Definition swap {A : Type} (x : list A) (i j : nat) : result (list A) :=
  match nth_error x j, nth_error x i with
  | Some xj, Some xi => Ok (set_item (set_item x i xj) j xi)
  | _, _ => Raise IndexError
  end.

(** The loop of [random.shuffle(x)], from position [i] down to 1:
    [randbelow n] is what the generator returns for [_randbelow(n)]. *)
Fixpoint shuffle_from {A : Type} (randbelow : nat -> nat) (i : nat)
    (x : list A) : result (list A) :=
  match i with
  | O => Ok x
  | S i' =>
      x' <- swap x i (randbelow (S i)) ;;
      shuffle_from randbelow i' x'
  end.

(** [random.shuffle(x)] *)
Definition shuffle {A : Type} (x : list A) (randbelow : nat -> nat)
  : result (list A) :=
  shuffle_from randbelow (Nat.pred (List.length x)) x.

(** What one pass of the [while True] loop draws from [random]:
    the batch size, the order in which [sample] draws positions, the
    values of [_randbelow] in [shuffle], the bits of the [j]-th
    [random()] of the [i]-th visit, the cooldown after the [i]-th visit,
    the loop delay and the back-off. *)
Record Draws : Type := {
  batch : Z;
  sampled : list nat;
  randbelow : nat -> nat;
  scroll_bits : nat -> nat -> N;
  cooldown : nat -> Z;
  loop_wait : Z;
  backoff : Z
}.

(** *** The browser *)

(** What the outside does during one call of [scrape_subreddit]: whether
    [goto] and [wait_for_selector] return, whether the [j]-th
    [mouse.wheel] returns, and the post containers
    [query_selector_all] finds, [None] when it raises. *)
Record Page : Type := {
  goto_ok : bool;
  wheel_ok : nat -> bool;
  found : option (list PostEl)
}.

(** The page of the [i]-th visit of a pass. *)
Definition Browser : Type := nat -> str -> Page.

(** Whether the calls of lines 235-241 return ([async_playwright],
    [launch], [new_context], [new_page]), and those of lines 253-254
    (the two [close]). *)
Record Session : Type := {
  opens : bool;
  closes : bool
}.

Inductive event : Type :=
| Visit (sub : str) (outcomes : list outcome)
| Sleep (seconds : number).

(** [load_additional_posts] from its [j]-th round on, [remaining] rounds
    to go: the pauses slept, and whether it returns rather than
    raises. *)
Fixpoint load_additional_posts_from (p : Page) (bits : nat -> N)
    (j remaining : nat) : list event * bool :=
  match remaining with
  | O => ([], true)
  | S n =>
      if wheel_ok p j then
        let '(evs, returned) := load_additional_posts_from p bits (S j) n in
        (Sleep (PyFloat (uniform F_0_8 F_1_4 (random (bits j)))) :: evs,
         returned)
      else ([], false)
  end.

Definition load_additional_posts (p : Page) (bits : nat -> N)
    (scroll_times : nat) : list event * bool :=
  load_additional_posts_from p bits O scroll_times.

(** One call of [scrape_subreddit] as [run_scraper] makes it (lines
    124-207 inside lines 244-247).  An exception raised on the way ends
    the work on the page; the handler of line 205 takes it, and what the
    handler itself may raise is taken by the one of line 246.  The call
    is recorded as a [Visit], with no outcomes when the page gave
    none. *)
Definition visit (env : Env) (p : Page) (bits : nat -> N) (sub : str)
  : State -> list event * State :=
  fun st =>
    if goto_ok p then
      let '(pauses, returned) := load_additional_posts p bits 3 in
      match returned, found p with
      | true, Some posts =>
          let '(os, st') := scrape_subreddit env sub posts st in
          (pauses ++ [Visit sub os], st')
      | _, _ => (pauses ++ [Visit sub []], st)
      end
    else ([Visit sub []], st).

(** Lines 243-251: every forum is scraped, then a cooldown is slept. *)
Fixpoint visit_all (env : Env) (browse : Browser) (d : Draws) (i : nat)
    (subreddits : list str) : State -> list event * State :=
  fun st =>
    match subreddits with
    | [] => ([], st)
    | s :: rest =>
        let '(evs1, st1) := visit env (browse i s) (scroll_bits d i) s st in
        let '(evs, st2) := visit_all env browse d (S i) rest st1 in
        (evs1 ++ Sleep (PyInt (cooldown d i)) :: evs, st2)
    end.

(** How one pass ends: it returns to the top of the loop, or an exception
    leaves [run_scraper]. *)
Inductive ending : Type :=
| Returns
| Raises (e : exn)
| BrowserRaises.

(** One pass of the [while True] loop of [run_scraper]. *)
Definition loop_pass (env : Env) (browse : Browser) (session : Session)
    (subreddits : list str) (d : Draws) (st : State)
  : ending * list event * State :=
  match get_subreddits_for_this_loop subreddits (batch d) (sampled d) with
  | Raise e => (Raises e, [], st)
  | Ok [] => (Returns, [Sleep (PyInt (backoff d))], st)
  | Ok ((_ :: _) as selected) =>
      match shuffle selected (randbelow d) with
      | Raise e => (Raises e, [], st)
      | Ok order =>
          if opens session then
            let '(evs, st') := visit_all env browse d 0 order st in
            if closes session
            then (Returns, evs ++ [Sleep (PyInt (loop_wait d))], st')
            else (BrowserRaises, evs, st')
          else (BrowserRaises, [], st)
      end
  end.

(** The contract of [random] for the draws of one pass over a list of
    [n] forums. *)
Definition drawn_for (n : nat) (d : Draws) : Prop :=
  BATCH_MIN <= batch d <= BATCH_MAX
  /\ valid_picks n n (sampled d)
  /\ (forall m, (0 < m)%nat -> (randbelow d m < m)%nat)
  /\ (forall i j, (scroll_bits d i j < 2 ^ 53)%N)
  /\ (forall i, SUBREDDIT_COOLDOWN_MIN_SEC <= cooldown d i
                <= SUBREDDIT_COOLDOWN_MAX_SEC)
  /\ LOOP_DELAY_MIN_SEC <= loop_wait d <= LOOP_DELAY_MAX_SEC
  /\ BACKOFF_MIN_SEC <= backoff d <= BACKOFF_MAX_SEC.

(** *** Time slept *)

(** The number a finite float is. *)
Definition float_Q (x : float) : Q :=
  match x with
  | Fin s m e => Qmake (signed s m * pow2 e) (Z.to_pos (pow2 (- e)))
  | _ => 0%Q
  end.

(** The seconds of one [asyncio.sleep]. *)
Definition seconds_Q (x : number) : Q :=
  match x with
  | PyInt z => inject_Z z
  | PyFloat f => float_Q f
  end.

Definition slept (e : event) : Q :=
  match e with
  | Sleep s => seconds_Q s
  | Visit _ _ => 0%Q
  end.

Definition visited (e : event) : list str :=
  match e with
  | Visit s _ => [s]
  | Sleep _ => []
  end.

(** The seconds of all [asyncio.sleep] calls. *)
Definition total_sleep (evs : list event) : Q :=
  fold_right Qplus 0%Q (map slept evs).

Definition forums_visited (evs : list event) : list str :=
  flat_map visited evs.

End Run.

(** ** A sample pass *)

Module SamplePass.
Import Str Scraper Run.

Definition draws : Draws :=
  {| batch := 20;
     sampled := [3; 1; 0; 5; 4; 2]%nat;
     randbelow := fun m => Nat.div m 2;
     scroll_bits := fun i j => (N.of_nat (Nat.modulo (i + j) 8) * 2 ^ 50)%N;
     cooldown := fun i => 13 + Z.of_nat (Nat.modulo i 19);
     loop_wait := 400;
     backoff := 150 |}.

(** Every other page fails to load; on the others the third scroll of
    every third visit raises. *)
Definition browse : Browser :=
  fun i _ =>
    {| goto_ok := Nat.even i;
       wheel_ok := fun j => negb (Nat.eqb (Nat.modulo i 3) 1 && Nat.eqb j 2);
       found := Some Sample.page |}.

Definition session : Session := {| opens := true; closes := true |}.

(** A post whose score text is "inf". *)
Definition infinite_score : PostEl :=
  {| title_text := Some (lit "Big");
     timestamp_anchor := Some {| time_datetime := None;
                                 anchor_text := lit "1 minute ago" |};
     permalink_href := Some (Some (lit "/r/x/comments/ccc333/big/"));
     score_text := Some (lit "inf") |}.

End SamplePass.

Import Str Float FloatOfStr Time Scraper Spec.

(** * Properties *)

(** ** Strings *)

Lemma eqb_spec (a b : str) : Str.eqb a b = true <-> a = b.
Proof.
  unfold Str.eqb. destruct (list_eq_dec ascii_dec a b); split; congruence.
Qed.

Lemma startswith_app (p s : str) :
  startswith p s = true <-> exists r, s = p ++ r.
Proof.
  revert s. induction p as [|a p IH]; intros s; simpl.
  - split; [intros _; now exists s | reflexivity].
  - destruct s as [|b s].
    + split; [discriminate | intros [r Hr]; discriminate].
    + destruct (ascii_dec a b) as [->|Hab].
      * rewrite IH. split; intros [r Hr]; exists r; simpl in *; congruence.
      * split; [discriminate | intros [r Hr]; simpl in Hr; congruence].
Qed.

Lemma split_from_not_nil (sep : str) (skip : nat) (s : str) :
  split_from sep skip s <> [].
Proof.
  revert skip. induction s as [|c t IH]; intros skip; simpl.
  - discriminate.
  - destruct skip as [|k]; [|apply IH].
    destruct (startswith sep (c :: t)); [discriminate|].
    specialize (IH O). destruct (split_from sep O t); [congruence | discriminate].
Qed.

Lemma split_from_skip (sep : str) (k : nat) (s : str) :
  (k <= List.length s)%nat ->
  split_from sep k s = split_from sep O (skipn k s).
Proof.
  revert s. induction k as [|k IH]; intros s Hk; [reflexivity|].
  destruct s as [|c t]; simpl in *; [lia|]. apply IH. lia.
Qed.

(** Where the separator occurs, [split] cuts at its first occurrence. *)
Lemma split_from_first (sep : str) (s : str) :
  sep <> [] -> contains sep s = true ->
  exists pre post,
    s = pre ++ sep ++ post
    /\ split_from sep O s = pre :: split_from sep O post
    /\ forall pre' post', s = pre' ++ sep ++ post' ->
                          (List.length pre <= List.length pre')%nat.
Proof.
  intros Hsep. induction s as [|c t IH]; intros Hc.
  - destruct sep; [congruence | discriminate].
  - simpl in Hc. simpl split_from.
    destruct (startswith sep (c :: t)) eqn:Hp.
    + apply startswith_app in Hp. destruct Hp as [post Hpost].
      exists [], post. repeat split.
      * exact Hpost.
      * f_equal. destruct sep as [|a sep']; [congruence|].
        simpl in Hpost. injection Hpost as _ ->.
        rewrite split_from_skip by (rewrite length_app; simpl; lia).
        simpl. now rewrite skipn_app, skipn_all, Nat.sub_diag.
      * intros; simpl; lia.
    + simpl in Hc. destruct (IH Hc) as (pre & post & Hs & Hsplit & Hfirst).
      exists (c :: pre), post. repeat split.
      * simpl. now rewrite Hs.
      * now rewrite Hsplit.
      * intros pre' post' Hs'. destruct pre' as [|c' pre'].
        -- assert (startswith sep (c :: t) = true)
             by (apply startswith_app; now exists post').
           congruence.
        -- simpl in Hs'. injection Hs' as _ Ht.
           specialize (Hfirst _ _ Ht). simpl. lia.
Qed.

Lemma split_from_cons (sep : str) (c : ascii) (t : str) :
  split_from sep O (c :: t) =
  if startswith sep (c :: t)
  then [] :: split_from sep (Nat.pred (List.length sep)) t
  else cons_head c (split_from sep O t).
Proof. reflexivity. Qed.

Lemma before_cons (c a : ascii) (t : str) :
  before c (a :: t) = if ascii_dec c a then [] else a :: before c t.
Proof. reflexivity. Qed.

Lemma startswith_head (a : ascii) (p : str) (c : ascii) (t : str) :
  startswith (a :: p) (c :: t) = true -> a = c.
Proof. simpl. destruct (ascii_dec a c); [trivial | discriminate]. Qed.

Lemma startswith_single (a c : ascii) (t : str) :
  startswith [a] (c :: t) = if ascii_dec a c then true else false.
Proof. simpl. now destruct (ascii_dec a c). Qed.

Lemma split_slash_head (s : str) :
  exists r, split_from (lit "/") O s = before SLASH s :: r.
Proof.
  induction s as [|c t [r IH]].
  - now exists [].
  - rewrite split_from_cons, before_cons.
    change (lit "/") with [SLASH] in *. rewrite startswith_single.
    destruct (ascii_dec SLASH c).
    + eexists; reflexivity.
    + rewrite IH. eexists; reflexivity.
Qed.

Lemma before_slash_split_comments (s : str) :
  before SLASH (hd [] (split_from COMMENTS O s)) = before SLASH s.
Proof.
  induction s as [|c t IH]; [reflexivity|].
  rewrite split_from_cons, before_cons.
  destruct (startswith COMMENTS (c :: t)) eqn:Hp.
  - apply startswith_head in Hp. change (SLASH = c) in Hp.
    destruct (ascii_dec SLASH c); [reflexivity | contradiction].
  - pose proof (split_from_not_nil COMMENTS O t) as Hne.
    destruct (split_from COMMENTS O t) as [|h l]; [congruence|].
    simpl hd in *. rewrite before_cons.
    destruct (ascii_dec SLASH c); [reflexivity | now rewrite IH].
Qed.

(** ** Permalink and post id *)

Lemma index_zero {A : Type} (a : A) (l : list A) : index (a :: l) 0 = Ok a.
Proof. reflexivity. Qed.

(** With the marker in the URL, the id is the text between the first
    marker and the next slash, and the [IndexError] handler is not
    entered. *)
Lemma derive_post_id_present (url : str) :
  contains COMMENTS url = true ->
  exists pre post,
    url = pre ++ COMMENTS ++ post
    /\ (forall pre' post', url = pre' ++ COMMENTS ++ post' ->
                           (List.length pre <= List.length pre')%nat)
    /\ derive_post_id url = Ok (before SLASH post).
Proof.
  intros Hc.
  destruct (split_from_first COMMENTS url) as (pre & post & Hu & Hs & Hf);
    [discriminate | exact Hc |].
  exists pre, post. repeat split; [exact Hu | exact Hf |].
  unfold derive_post_id. rewrite Hc.
  change (split COMMENTS url) with (Ok (split_from COMMENTS O url)).
  rewrite Hs. cbn [bind].
  pose proof (before_slash_split_comments post) as Hb.
  pose proof (split_from_not_nil COMMENTS O post) as Hne.
  destruct (split_from COMMENTS O post) as [|tail l]; [congruence|].
  change (index (pre :: tail :: l) 1) with (Ok tail). cbn [bind].
  change (split (lit "/") tail) with (Ok (split_from (lit "/") O tail)).
  destruct (split_slash_head tail) as [r Hr]. rewrite Hr. cbn [bind].
  rewrite index_zero. simpl hd in Hb. now rewrite Hb.
Qed.

Lemma derive_post_id_absent (url : str) :
  contains COMMENTS url = false -> derive_post_id url = Ok (lit "unknown").
Proof. intros Hc. unfold derive_post_id. now rewrite Hc. Qed.

Lemma derive_post_id_total (url : str) : exists id, derive_post_id url = Ok id.
Proof.
  destruct (contains COMMENTS url) eqn:Hc.
  - destruct (derive_post_id_present url Hc) as (pre & post & _ & _ & H).
    eauto.
  - eauto using derive_post_id_absent.
Qed.

(** C7. A root-relative href (one that starts with a slash) is resolved by
    prefixing the fixed origin, any other href is used as it is; the href
    "/r/x/comments/abc123/title/" resolves to
    "https://www.reddit.com/r/x/comments/abc123/title/" and its post id is
    "abc123". *)
Theorem permalink_resolution :
  (forall href, startswith (lit "/") href = true ->
                resolve_post_url href = ORIGIN ++ href)
  /\ (forall href, startswith (lit "/") href = false ->
                   resolve_post_url href = href)
  /\ resolve_post_url (lit "/r/x/comments/abc123/title/")
     = lit "https://www.reddit.com/r/x/comments/abc123/title/"
  /\ derive_post_id (resolve_post_url (lit "/r/x/comments/abc123/title/"))
     = Ok (lit "abc123").
Proof.
  repeat split.
  - intros href H. unfold resolve_post_url. now rewrite H.
  - intros href H. unfold resolve_post_url. now rewrite H.
Qed.

Lemma permalink_resolution_witness :
  resolve_post_url (lit "/r/x/") = ORIGIN ++ lit "/r/x/"
  /\ resolve_post_url (lit "https://redd.it/abc") = lit "https://redd.it/abc".
Proof.
  split.
  - apply (proj1 permalink_resolution). reflexivity.
  - apply (proj1 (proj2 permalink_resolution)). reflexivity.
Defined.

(** The steps after a non-empty href never skip the post. *)
Lemma extract_fresh_never_skips (env : Env) (sub : str) (p : PostEl)
    (created : Z) (st : State) (c : ascii) (href : str) :
  permalink_href p = Some (Some (c :: href)) ->
  match fst (extract_fresh env sub p created st) with
  | Ok (Save a) =>
      derive_post_id (resolve_post_url (c :: href)) = Ok (s_post_id a)
      /\ s_post_url a = resolve_post_url (c :: href)
  | Ok (Skip _) => False
  | Raise e =>
      exists t, score_text p = Some t /\ parse_score_text (strip t) = Raise e
  end.
Proof.
  intros Hp. unfold extract_fresh. rewrite Hp.
  destruct (derive_post_id_total (resolve_post_url (c :: href))) as [id Hid].
  unfold mbind, lift, insert_reddit_post, read_clock, ret. rewrite Hid.
  destruct (score_text p) as [t|].
  - destruct (parse_score_text (strip t)) as [sc|e] eqn:Hsc; cbn.
    + now split.
    + now exists t.
  - cbn. now split.
Qed.

(** C2, as the code has it.  Without the marker "/comments/" the post id is
    the literal "unknown", not the URL.  With the marker, the id is the
    text that follows the first marker up to the next slash, so the
    fall-back to the full URL is never taken.  Deriving the id never fails,
    and past a non-empty href no post is skipped: the record is saved with
    the derived id unless the score parser raises. *)
Theorem post_id_derivation :
  (forall url, contains COMMENTS url = false ->
               derive_post_id url = Ok (lit "unknown"))
  /\ (forall url, contains COMMENTS url = true ->
        exists pre post,
          url = pre ++ COMMENTS ++ post
          /\ (forall pre' post', url = pre' ++ COMMENTS ++ post' ->
                                 (List.length pre <= List.length pre')%nat)
          /\ derive_post_id url = Ok (before SLASH post))
  /\ (forall url, exists id, derive_post_id url = Ok id)
  /\ (forall env sub p created st c href,
        permalink_href p = Some (Some (c :: href)) ->
        match fst (extract_fresh env sub p created st) with
        | Ok (Save a) =>
            derive_post_id (resolve_post_url (c :: href)) = Ok (s_post_id a)
            /\ s_post_url a = resolve_post_url (c :: href)
        | Ok (Skip _) => False
        | Raise e =>
            exists t, score_text p = Some t
                      /\ parse_score_text (strip t) = Raise e
        end).
Proof.
  split; [exact derive_post_id_absent|].
  split; [exact derive_post_id_present|].
  split; [exact derive_post_id_total|].
  exact extract_fresh_never_skips.
Qed.

Lemma post_id_derivation_witness :
  derive_post_id (lit "https://www.reddit.com/r/x/") = Ok (lit "unknown")
  /\ exists pre post,
       lit "https://www.reddit.com/r/x/comments/abc123/title/"
       = pre ++ COMMENTS ++ post
       /\ derive_post_id (lit "https://www.reddit.com/r/x/comments/abc123/title/")
          = Ok (before SLASH post).
Proof.
  split.
  - apply (proj1 post_id_derivation). reflexivity.
  - destruct (proj1 (proj2 post_id_derivation)
                (lit "https://www.reddit.com/r/x/comments/abc123/title/")
                eq_refl) as (pre & post & H1 & _ & H2).
    exists pre, post. now split.
Defined.

(** C2 as stated fails: for a URL without the marker the post id is
    "unknown", not the URL. *)
Lemma post_id_not_url_counterexample :
  contains COMMENTS (lit "https://www.reddit.com/r/x/") = false
  /\ derive_post_id (lit "https://www.reddit.com/r/x/") = Ok (lit "unknown")
  /\ derive_post_id (lit "https://www.reddit.com/r/x/")
     <> Ok (lit "https://www.reddit.com/r/x/").
Proof. repeat split. discriminate. Qed.

(** ** Persistence *)

Lemma has_post_id_filter (id : str) (t : Table) :
  has_post_id id t = false ->
  filter (fun r => Str.eqb (post_id r) id) t = [].
Proof.
  unfold has_post_id. induction t as [|r t IH]; simpl; [reflexivity|].
  destruct (Str.eqb (post_id r) id); simpl; [discriminate | exact IH].
Qed.

Lemma insert_do_nothing_present (r : Row) (t : Table) :
  has_post_id (post_id r) t = true -> insert_do_nothing r t = t.
Proof. intros H. unfold insert_do_nothing. now rewrite H. Qed.

Lemma insert_do_nothing_fresh (r : Row) (t : Table) :
  has_post_id (post_id r) t = false ->
  insert_do_nothing r t = t ++ [r]
  /\ has_post_id (post_id r) (t ++ [r]) = true
  /\ filter (fun x => Str.eqb (post_id x) (post_id r)) (t ++ [r]) = [r].
Proof.
  intros H. unfold insert_do_nothing. rewrite H.
  assert (Hr : Str.eqb (post_id r) (post_id r) = true) by now apply eqb_spec.
  repeat split.
  - unfold has_post_id. rewrite existsb_app. simpl. rewrite Hr.
    now rewrite orb_true_r.
  - rewrite filter_app, (has_post_id_filter _ _ H). simpl. now rewrite Hr.
Qed.

(** C8. An insert whose [post_id] is already in the table returns without
    an error and leaves the table as it was.  So after two inserts of one
    new [post_id] the table holds exactly one row with that id, and the row
    carries the [created_at] and the [seen_at] of the first insert. *)
Theorem duplicate_insert_is_noop :
  (forall env sub id url sc created st,
      has_post_id id (rows st) = true ->
      fst (insert_reddit_post env sub id url sc created st) = Ok tt
      /\ rows (snd (insert_reddit_post env sub id url sc created st)) = rows st)
  /\ (forall env id sub1 url1 sc1 created1 sub2 url2 sc2 created2 st,
        has_post_id id (rows st) = false ->
        let st1 := snd (insert_reddit_post env sub1 id url1 sc1 created1 st) in
        let st2 := snd (insert_reddit_post env sub2 id url2 sc2 created2 st1) in
        fst (insert_reddit_post env sub1 id url1 sc1 created1 st) = Ok tt
        /\ fst (insert_reddit_post env sub2 id url2 sc2 created2 st1) = Ok tt
        /\ rows st2 = rows st1
        /\ filter (fun r => Str.eqb (post_id r) id) (rows st2)
           = [ {| subreddit := sub1; post_id := id; post_url := url1;
                  score := sc1; created_at := created1;
                  seen_at := clock env (tick st); commented := false |} ]).
Proof.
  split.
  - intros env sub id url sc created st H. cbn.
    split; [reflexivity|]. now apply insert_do_nothing_present.
  - intros env id sub1 url1 sc1 created1 sub2 url2 sc2 created2 st H. cbn.
    set (r1 := {| subreddit := sub1; post_id := id; post_url := url1;
                  score := sc1; created_at := created1;
                  seen_at := clock env (tick st); commented := false |}).
    destruct (insert_do_nothing_fresh r1 (rows st) H) as (H1 & H2 & H3).
    rewrite H1. repeat split.
    + now apply insert_do_nothing_present.
    + rewrite insert_do_nothing_present by exact H2. exact H3.
Qed.

Lemma duplicate_insert_is_noop_witness :
  let env := {| clock := fun n => 1000 + Z.of_nat n;
                fromisoformat := fun _ => None |} in
  let st := {| rows := []; tick := O |} in
  let st1 := snd (insert_reddit_post env (lit "x") (lit "abc") (lit "u") 4 7 st) in
  let st2 := snd (insert_reddit_post env (lit "y") (lit "abc") (lit "v") 5 8 st1) in
  rows st2 = rows st1
  /\ fst (insert_reddit_post env (lit "y") (lit "abc") (lit "v") 5 8 st1) = Ok tt.
Proof.
  intros env st st1 st2. split.
  - apply (proj2 duplicate_insert_is_noop env (lit "abc")
             (lit "x") (lit "u") 4 7 (lit "y") (lit "v") 5 8 st).
    reflexivity.
  - apply (proj1 duplicate_insert_is_noop env (lit "y") (lit "abc")
             (lit "v") 5 8 st1).
    reflexivity.
Defined.

(** ** Batch selection *)

Lemma in_flat_map_pick {A : Type} (population : list A) (picks : list nat) (a : A) :
  In a (flat_map (pick population) picks) ->
  exists i, In i picks /\ nth_error population i = Some a.
Proof.
  rewrite in_flat_map. intros (i & Hi & Ha). exists i. split; [exact Hi|].
  unfold pick in Ha. destruct (nth_error population i) as [b|]; simpl in Ha.
  - destruct Ha as [->|[]]. reflexivity.
  - contradiction.
Qed.

Lemma picked_length {A : Type} (population : list A) (picks : list nat) :
  Forall (fun i => (i < List.length population)%nat) picks ->
  List.length (flat_map (pick population) picks) = List.length picks.
Proof.
  induction 1 as [|i picks Hi _ IH]; [reflexivity|].
  simpl. rewrite length_app, IH. unfold pick.
  apply nth_error_Some in Hi.
  destruct (nth_error population i); [reflexivity | congruence].
Qed.

Lemma picked_nodup {A : Type} (population : list A) (picks : list nat) :
  NoDup population -> NoDup picks ->
  NoDup (flat_map (pick population) picks).
Proof.
  intros Hpop. induction 1 as [|i picks Hi _ IH]; simpl; [constructor|].
  unfold pick at 1. destruct (nth_error population i) as [a|] eqn:Ha;
    simpl; [|exact IH].
  constructor; [|exact IH].
  intros Hin. apply in_flat_map_pick in Hin. destruct Hin as (j & Hj & Hja).
  assert (i = j).
  { apply (proj1 (NoDup_nth_error population) Hpop).
    - apply nth_error_Some. congruence.
    - congruence. }
  subst j. contradiction.
Qed.

Lemma picked_incl {A : Type} (population : list A) (picks : list nat) :
  incl (flat_map (pick population) picks) population.
Proof.
  intros a Ha. apply in_flat_map_pick in Ha. destruct Ha as (i & _ & Hi).
  eapply nth_error_In; eauto.
Qed.

Lemma subreddits_nodup : NoDup SUBREDDITS.
Proof.
  unfold SUBREDDITS.
  repeat (constructor;
          [ simpl; intros H;
            repeat (destruct H as [H|H]; [discriminate H|]); exact H | ]).
  constructor.
Qed.

Lemma firstn_valid (n k : nat) (picks : list nat) :
  valid_picks n n picks -> (k <= n)%nat ->
  valid_picks n k (firstn k picks).
Proof.
  intros (Hlen & Hnd & Hlt) Hk. repeat split.
  - rewrite length_firstn. lia.
  - rewrite <- (firstn_skipn k picks) in Hnd.
    exact (NoDup_app_remove_r _ _ Hnd).
  - rewrite <- (firstn_skipn k picks) in Hlt.
    exact (proj1 (proj1 (Forall_app _ _ _) Hlt)).
Qed.

(** C9. For the empty forum list the selection is empty.  For a non-empty
    list, whatever value [r] within the batch bounds [randint] returns and
    in whatever order [sample] draws the positions of the list, the
    selection has [min(len, r)] names: the size the code computes and
    hands to [sample], between the batch bounds clamped to the length of
    the list.  The names are those at pairwise distinct positions of the
    list, so the selection repeats no name when the list repeats none, as
    is the case for the configured [SUBREDDITS]. *)
Theorem batch_selection :
  (forall r picks, get_subreddits_for_this_loop [] r picks = Ok [])
  /\ (forall subs r picks,
        subs <> [] ->
        BATCH_MIN <= r <= BATCH_MAX ->
        valid_picks (List.length subs) (List.length subs) picks ->
        exists sel,
          get_subreddits_for_this_loop subs r picks = Ok sel
          /\ Z.of_nat (List.length sel) = Z.min (Z.of_nat (List.length subs)) r
          /\ Z.min (Z.of_nat (List.length subs)) BATCH_MIN
             <= Z.of_nat (List.length sel)
             <= Z.min (Z.of_nat (List.length subs)) BATCH_MAX
          /\ (exists positions,
                 NoDup positions /\ sel = flat_map (pick subs) positions)
          /\ incl sel subs
          /\ (NoDup subs -> NoDup sel))
  /\ NoDup SUBREDDITS.
Proof.
  split; [reflexivity|]. split; [|exact subreddits_nodup].
  intros subs r picks Hne Hr Hpicks.
  unfold BATCH_MIN, BATCH_MAX in *.
  destruct subs as [|s0 subs']; [congruence|].
  set (subs := s0 :: subs') in *.
  unfold get_subreddits_for_this_loop. fold subs.
  unfold sample.
  set (k := Z.min (Z.of_nat (List.length subs)) r).
  assert (Hk0 : 0 <= k <= Z.of_nat (List.length subs)) by (subst k; lia).
  assert (Hk : (k <? 0) || (Z.of_nat (List.length subs) <? k) = false).
  { apply orb_false_intro; apply Z.ltb_ge; lia. }
  rewrite Hk.
  destruct (firstn_valid (List.length subs) (Z.to_nat k) picks Hpicks)
    as (Hlen & Hnd & Hlt); [lia|].
  eexists. split; [reflexivity|].
  rewrite picked_length by exact Hlt. rewrite Hlen.
  repeat split; try lia.
  - exists (firstn (Z.to_nat k) picks). split; [exact Hnd | reflexivity].
  - apply picked_incl.
  - intros Hs. now apply picked_nodup.
Qed.

Lemma batch_selection_witness :
  (exists sel,
     get_subreddits_for_this_loop SUBREDDITS 20 [3; 1; 0; 5; 4; 2]%nat = Ok sel
     /\ Z.of_nat (List.length sel) = 6
     /\ NoDup sel)
  /\ (exists sel,
        get_subreddits_for_this_loop
          (SUBREDDITS ++ SUBREDDITS ++ SUBREDDITS) 13
          [17; 3; 1; 0; 5; 4; 2; 9; 11; 16; 7; 13; 6; 8; 10; 12; 14; 15]%nat
        = Ok sel
        /\ Z.of_nat (List.length sel) = 13).
Proof.
  split.
  - destruct (proj1 (proj2 batch_selection) SUBREDDITS 20
                [3; 1; 0; 5; 4; 2]%nat)
      as (sel & H1 & H2 & _ & _ & _ & H3).
    + discriminate.
    + unfold BATCH_MIN, BATCH_MAX. lia.
    + repeat split.
      * repeat (constructor;
                [ simpl; intros H;
                  repeat (destruct H as [H|H]; [discriminate H|]); exact H | ]).
        constructor.
      * repeat constructor.
    + exists sel. repeat split.
      * exact H1.
      * exact H2.
      * apply H3. exact (proj2 (proj2 batch_selection)).
  - destruct (proj1 (proj2 batch_selection)
                (SUBREDDITS ++ SUBREDDITS ++ SUBREDDITS) 13
                [17; 3; 1; 0; 5; 4; 2; 9; 11; 16; 7; 13; 6; 8; 10; 12; 14; 15]%nat)
      as (sel & H1 & H2 & _).
    + discriminate.
    + unfold BATCH_MIN, BATCH_MAX. lia.
    + repeat split.
      * repeat (constructor;
                [ simpl; intros H;
                  repeat (destruct H as [H|H]; [discriminate H|]); exact H | ]).
        constructor.
      * repeat constructor.
    + exists sel. split; [exact H1 | exact H2].
Defined.

(** ** Rounding *)

Lemma pow2_pos (k : Z) : 0 < pow2 k.
Proof. apply Z.pow_pos_nonneg; lia. Qed.

Lemma pow2_nonneg (k : Z) : 0 <= k -> pow2 k = 2 ^ k.
Proof. intros. unfold pow2. now rewrite Z.max_r. Qed.

Lemma pow2_nonpos (k : Z) : k <= 0 -> pow2 k = 1.
Proof. intros. unfold pow2. now rewrite Z.max_l. Qed.

(** [pow2 a / pow2 (-a)] is [2^a]: the quotients multiply as powers do. *)
Lemma pow2_add (a b : Z) :
  pow2 (a + b) * pow2 (- a) * pow2 (- b)
  = pow2 (- (a + b)) * pow2 a * pow2 b.
Proof.
  destruct (Z.le_ge_cases 0 a) as [Ha|Ha], (Z.le_ge_cases 0 b) as [Hb|Hb],
    (Z.le_ge_cases 0 (a + b)) as [Hab|Hab];
  repeat match goal with
    | |- context [pow2 ?x] =>
        first [ rewrite (pow2_nonpos x) by lia | rewrite (pow2_nonneg x) by lia ]
    end;
  rewrite ?Z.mul_1_r, ?Z.mul_1_l, <- ?Z.pow_add_r by lia;
  try (f_equal; lia).
Qed.

(** For [a <= b]: [2^b = 2^a · 2^(b-a)], in quotient form. *)
Lemma pow2_split (a b : Z) :
  a <= b ->
  pow2 b * pow2 (- a) = pow2 (- b) * pow2 a * 2 ^ (b - a).
Proof.
  intros Hab. pose proof (pow2_add a (b - a)) as H.
  replace (a + (b - a)) with b in H by lia.
  rewrite (pow2_nonpos (- (b - a))) in H by lia.
  rewrite (pow2_nonneg (b - a)) in H by lia. lia.
Qed.

(** [n/d >= 2^j] gives [n/d >= 2^t · 2^(j-t)]. *)
Lemma ge_pow2_scale (n d j t : Z) :
  0 < n -> 0 < d -> 0 <= t ->
  d * pow2 j <= n * pow2 (- j) ->
  2 ^ t * (d * pow2 (j - t)) <= n * pow2 (- (j - t)).
Proof.
  intros Hn Hd Ht H.
  pose proof (pow2_split (j - t) j ltac:(lia)) as E.
  replace (j - (j - t)) with t in E by lia.
  pose proof (pow2_pos j). pose proof (pow2_pos (- j)).
  pose proof (pow2_pos (j - t)). pose proof (pow2_pos (- (j - t))).
  assert (0 < 2 ^ t) by (apply Z.pow_pos_nonneg; lia).
  apply (Z.mul_le_mono_pos_r _ _ (pow2 (- j))); [lia|].
  apply Z.le_trans with (d * (pow2 j * pow2 (- (j - t)))).
  - rewrite E. apply Z.eq_le_incl. ring.
  - replace (n * pow2 (- (j - t)) * pow2 (- j))
      with (n * pow2 (- j) * pow2 (- (j - t))) by ring.
    rewrite Z.mul_assoc. apply Z.mul_le_mono_nonneg_r; lia.
Qed.

(** [n/d >= 2^(log2 n - log2 d - 1)]. *)
Lemma ge_pow2_log2 (n d : Z) :
  0 < n -> 0 < d ->
  d * pow2 (Z.log2 n - Z.log2 d - 1) <= n * pow2 (- (Z.log2 n - Z.log2 d - 1)).
Proof.
  intros Hn Hd.
  destruct (Z.log2_spec n Hn) as [Hn1 _].
  destruct (Z.log2_spec d Hd) as [_ Hd2].
  pose proof (Z.log2_nonneg n). pose proof (Z.log2_nonneg d).
  set (ln := Z.log2 n) in *. set (ld := Z.log2 d) in *.
  destruct (Z.le_ge_cases 0 (ln - ld - 1)) as [He|He].
  - rewrite (pow2_nonneg _ He), pow2_nonpos by lia.
    assert (2 ^ ln = 2 ^ Z.succ ld * 2 ^ (ln - ld - 1))
      by (rewrite <- Z.pow_add_r by lia; f_equal; lia).
    assert (0 < 2 ^ (ln - ld - 1)) by (apply Z.pow_pos_nonneg; lia).
    nia.
  - rewrite (pow2_nonpos _ He), pow2_nonneg by lia.
    assert (2 ^ Z.succ ld = 2 ^ ln * 2 ^ (- (ln - ld - 1)))
      by (rewrite <- Z.pow_add_r by lia; f_equal; lia).
    assert (0 < 2 ^ (- (ln - ld - 1))) by (apply Z.pow_pos_nonneg; lia).
    nia.
Qed.

Lemma shl_pos (x k : Z) : 0 < x -> 0 < shl x k.
Proof. intros. unfold shl. pose proof (pow2_pos k). nia. Qed.

(** What [round_pos] returns: an exponent not below [emin], a mantissa
    between the floor and the ceiling of the scaled quotient, and 53
    significant bits above [emin]. *)
Lemma round_pos_spec (n d : Z) :
  0 < n -> 0 < d ->
  let q := fst (round_pos n d) in
  let k := snd (round_pos n d) in
  emin <= k
  /\ (emin < k -> 2 ^ 52 * shl d k <= shl n (- k))
  /\ (forall c, c * shl d k <= shl n (- k) -> c <= q)
  /\ (forall c, shl n (- k) <= c * shl d k -> q <= c).
Proof.
  intros Hn Hd. unfold round_pos. cbv zeta. cbn [fst snd].
  set (ex := Z.log2 n - Z.log2 d).
  set (k0 := if shl d ex <=? shl n (- ex) then ex - 52 else ex - 53).
  set (k := Z.max k0 emin).
  set (ns := shl n (- k)). set (ds := shl d k).
  assert (Hns : 0 < ns) by now apply shl_pos.
  assert (Hds : 0 < ds) by now apply shl_pos.
  pose proof (Z.div_mod ns ds ltac:(lia)) as Hdm.
  pose proof (Z.mod_pos_bound ns ds Hds) as Hr.
  set (q0 := ns / ds) in *. set (r := ns mod ds) in *.
  set (q := match 2 * r ?= ds with
            | Eq => if Z.even q0 then q0 else q0 + 1
            | Lt => q0
            | Gt => q0 + 1
            end).
  assert (Hq : q0 <= q <= q0 + 1 /\ (r = 0 -> q = q0)).
  { subst q. destruct (Z.compare_spec (2 * r) ds);
      [destruct (Z.even q0) | | ]; lia. }
  clearbody q. split; [lia|]. split; [|split].
  - intros Hk. assert (Hkk : k = k0) by lia.
    assert (Hge : 2 ^ 52 * (d * pow2 k0) <= n * pow2 (- k0)).
    { subst k0. destruct (shl d ex <=? shl n (- ex)) eqn:Ht.
      - apply Z.leb_le in Ht. unfold shl in Ht.
        now apply ge_pow2_scale.
      - pose proof (ge_pow2_log2 n d Hn Hd) as Hl. fold ex in Hl.
        replace (ex - 53) with (ex - 1 - 52) by lia.
        now apply ge_pow2_scale. }
    subst ns ds. unfold shl. now rewrite Hkk.
  - intros c Hc. nia.
  - intros c Hc. destruct (Z.eq_dec r 0); nia.
Qed.

(** Rounding is monotone against a binary64 number [mc·2^ec]: a lower
    bound of [n/d] of that form is a lower bound of the rounded value. *)
Lemma round_pos_lower (n d mc ec : Z) :
  0 < n -> 0 < d -> 0 < mc < 2 ^ 53 -> emin <= ec ->
  mc * pow2 ec * d <= n * pow2 (- ec) ->
  let q := fst (round_pos n d) in
  let k := snd (round_pos n d) in
  mc * pow2 ec * pow2 (- k) <= q * pow2 k * pow2 (- ec).
Proof.
  intros Hn Hd Hmc Hec Hle q k.
  destruct (round_pos_spec n d Hn Hd) as (Hk & H52 & Hlo & _).
  fold q k in Hk, H52, Hlo. unfold shl in *.
  pose proof (pow2_pos ec). pose proof (pow2_pos (- ec)).
  pose proof (pow2_pos k). pose proof (pow2_pos (- k)).
  destruct (Z.le_gt_cases k ec) as [Hc|Hc].
  - pose proof (pow2_split k ec Hc) as E.
    assert (0 < 2 ^ (ec - k)) by (apply Z.pow_pos_nonneg; lia).
    assert (Hq : mc * 2 ^ (ec - k) <= q).
    { apply Hlo.
      apply (Z.mul_le_mono_pos_r _ _ (pow2 (- ec))); [lia|].
      replace (mc * 2 ^ (ec - k) * (d * pow2 k) * pow2 (- ec))
        with (mc * d * (pow2 (- ec) * pow2 k * 2 ^ (ec - k))) by ring.
      rewrite <- E.
      replace (mc * d * (pow2 ec * pow2 (- k)))
        with (mc * pow2 ec * d * pow2 (- k)) by ring.
      replace (n * pow2 (- k) * pow2 (- ec))
        with (n * pow2 (- ec) * pow2 (- k)) by ring.
      apply Z.mul_le_mono_nonneg_r; lia. }
    replace (mc * pow2 ec * pow2 (- k)) with (mc * (pow2 ec * pow2 (- k)))
      by ring.
    rewrite E.
    replace (mc * (pow2 (- ec) * pow2 k * 2 ^ (ec - k)))
      with (mc * 2 ^ (ec - k) * (pow2 k * pow2 (- ec))) by ring.
    rewrite <- (Z.mul_assoc q). apply Z.mul_le_mono_nonneg_r; nia.
  - pose proof (pow2_split ec k ltac:(lia)) as E.
    assert (Hge2 : 2 ^ 1 <= 2 ^ (k - ec)) by (apply Z.pow_le_mono_r; lia).
    assert (Hq : 2 ^ 52 <= q) by (apply Hlo, H52; lia).
    replace (q * pow2 k * pow2 (- ec)) with (q * (pow2 k * pow2 (- ec)))
      by ring.
    rewrite E.
    replace (q * (pow2 (- k) * pow2 ec * 2 ^ (k - ec)))
      with (q * 2 ^ (k - ec) * (pow2 ec * pow2 (- k))) by ring.
    rewrite <- (Z.mul_assoc mc). apply Z.mul_le_mono_nonneg_r; [nia|].
    change (2 ^ 53) with (2 ^ 52 * 2 ^ 1) in Hmc. nia.
Qed.

(** And an upper bound of [n/d] of that form is an upper bound of the
    rounded value. *)
Lemma round_pos_upper (n d mc ec : Z) :
  0 < n -> 0 < d -> 0 < mc < 2 ^ 53 -> emin <= ec ->
  n * pow2 (- ec) <= mc * pow2 ec * d ->
  let q := fst (round_pos n d) in
  let k := snd (round_pos n d) in
  q * pow2 k * pow2 (- ec) <= mc * pow2 ec * pow2 (- k).
Proof.
  intros Hn Hd Hmc Hec Hle q k.
  destruct (round_pos_spec n d Hn Hd) as (Hk & H52 & _ & Hup).
  fold q k in Hk, H52, Hup. unfold shl in *.
  pose proof (pow2_pos ec). pose proof (pow2_pos (- ec)).
  pose proof (pow2_pos k). pose proof (pow2_pos (- k)).
  destruct (Z.le_gt_cases k ec) as [Hc|Hc].
  - pose proof (pow2_split k ec Hc) as E.
    assert (0 < 2 ^ (ec - k)) by (apply Z.pow_pos_nonneg; lia).
    assert (Hq : q <= mc * 2 ^ (ec - k)).
    { apply Hup.
      apply (Z.mul_le_mono_pos_r _ _ (pow2 (- ec))); [lia|].
      replace (mc * 2 ^ (ec - k) * (d * pow2 k) * pow2 (- ec))
        with (mc * d * (pow2 (- ec) * pow2 k * 2 ^ (ec - k))) by ring.
      rewrite <- E.
      replace (mc * d * (pow2 ec * pow2 (- k)))
        with (mc * pow2 ec * d * pow2 (- k)) by ring.
      replace (n * pow2 (- k) * pow2 (- ec))
        with (n * pow2 (- ec) * pow2 (- k)) by ring.
      apply Z.mul_le_mono_nonneg_r; lia. }
    replace (mc * pow2 ec * pow2 (- k)) with (mc * (pow2 ec * pow2 (- k)))
      by ring.
    rewrite E.
    replace (mc * (pow2 (- ec) * pow2 k * 2 ^ (ec - k)))
      with (mc * 2 ^ (ec - k) * (pow2 k * pow2 (- ec))) by ring.
    rewrite <- (Z.mul_assoc q). apply Z.mul_le_mono_nonneg_r; nia.
  - exfalso.
    pose proof (pow2_split ec k ltac:(lia)) as E.
    assert (Hge2 : 2 ^ 1 <= 2 ^ (k - ec)) by (apply Z.pow_le_mono_r; lia).
    specialize (H52 ltac:(lia)).
    assert (Hx : 2 ^ 52 * d * (pow2 k * pow2 (- ec))
                 <= mc * d * (pow2 ec * pow2 (- k))) by nia.
    rewrite E in Hx.
    assert (Hy : 2 ^ 52 * 2 ^ (k - ec) * (d * (pow2 (- k) * pow2 ec))
                 <= mc * (d * (pow2 (- k) * pow2 ec))) by lia.
    apply Z.mul_le_mono_pos_r in Hy; [|nia].
    change (2 ^ 53) with (2 ^ 52 * 2 ^ 1) in Hmc. nia.
Qed.

Lemma round_pos_nonneg (n d : Z) :
  0 < n -> 0 < d -> 0 <= fst (round_pos n d).
Proof.
  intros Hn Hd. destruct (round_pos_spec n d Hn Hd) as (_ & _ & Hlo & _).
  apply Hlo. pose proof (shl_pos n (- snd (round_pos n d)) Hn). lia.
Qed.

Lemma RN_zero (neg : bool) (d : Z) : RN neg 0 d = Fin neg 0 0.
Proof. reflexivity. Qed.

Lemma RN_pos (neg : bool) (n d : Z) :
  0 < n ->
  RN neg n d =
  let q := fst (round_pos n d) in
  let k := snd (round_pos n d) in
  if (0 <=? k) && (2 ^ 1024 <=? q * 2 ^ k) then Inf neg
  else Fin neg (Z.to_N q) k.
Proof.
  intros Hn. unfold RN. destruct (Z.eqb_spec n 0); [lia|].
  now destruct (round_pos n d).
Qed.

(** A binary64 number below [n/d] is below [RN (n/d)]. *)
Lemma RN_lower (neg : bool) (n d mc ec : Z) :
  0 < n -> 0 < d -> 0 < mc < 2 ^ 53 -> emin <= ec ->
  mc * pow2 ec * d <= n * pow2 (- ec) ->
  RN neg n d = Inf neg
  \/ exists q k,
       RN neg n d = Fin neg q k
       /\ mc * pow2 ec * pow2 (- k) <= Z.of_N q * pow2 k * pow2 (- ec).
Proof.
  intros Hn Hd Hmc Hec Hle. rewrite RN_pos by exact Hn. cbv zeta.
  destruct ((0 <=? snd (round_pos n d)) && _); [now left | right].
  eexists _, _. split; [reflexivity|].
  rewrite Z2N.id by now apply round_pos_nonneg.
  now apply round_pos_lower.
Qed.

(** A binary64 number above [n/d] is above [RN (n/d)], which is then
    finite. *)
Lemma RN_upper (neg : bool) (n d mc ec : Z) :
  0 <= n -> 0 < d -> 0 < mc < 2 ^ 53 -> emin <= ec ->
  mc * pow2 ec < 2 ^ 1024 * pow2 (- ec) ->
  n * pow2 (- ec) <= mc * pow2 ec * d ->
  exists q k,
    RN neg n d = Fin neg q k
    /\ Z.of_N q * pow2 k * pow2 (- ec) <= mc * pow2 ec * pow2 (- k).
Proof.
  intros Hn Hd Hmc Hec Hfin Hle.
  pose proof (pow2_pos ec). pose proof (pow2_pos (- ec)).
  destruct (Z.eq_dec n 0) as [->|Hn0].
  { exists 0%N, 0. rewrite RN_zero. split; [reflexivity|].
    pose proof (pow2_pos (- 0)). nia. }
  assert (Hn' : 0 < n) by lia.
  pose proof (round_pos_upper n d mc ec Hn' Hd Hmc Hec Hle) as Hu.
  pose proof (round_pos_nonneg n d Hn' Hd) as Hq.
  rewrite RN_pos by exact Hn'. cbv zeta in *.
  set (q := fst (round_pos n d)) in *. set (k := snd (round_pos n d)) in *.
  destruct ((0 <=? k) && (2 ^ 1024 <=? q * 2 ^ k)) eqn:Hov.
  - exfalso. apply andb_true_iff in Hov. destruct Hov as [Hk Hbig].
    apply Z.leb_le in Hk. apply Z.leb_le in Hbig.
    rewrite (pow2_nonneg k Hk), (pow2_nonpos (- k)) in Hu by lia. nia.
  - exists (Z.to_N q), k. split; [reflexivity|]. now rewrite Z2N.id.
Qed.

(** ** The staleness check *)

Lemma of_int_3600 : of_int 3600 = Ok F3600.
Proof. vm_compute. reflexivity. Qed.

Lemma div_3600 (s : bool) (q : N) (k : Z) :
  div (Fin s q k) F3600
  = Ok (RN s (Z.of_N q * pow2 k * 2 ^ 41) (7916483719987200 * pow2 (- k))).
Proof.
  unfold F3600, div. rewrite xorb_false_r. unfold shl.
  change (pow2 (- -41)) with (2 ^ 41). change (pow2 (-41)) with 1.
  now rewrite Z.mul_1_r.
Qed.

Lemma compare_fin_int (s : bool) (q : N) (k z : Z) :
  0 <= z ->
  compare (Fin s q k) (Fin (z <? 0) (Z.to_N (Z.abs z)) 0)
  = Some (signed s q * pow2 k ?= z * pow2 (- k)).
Proof.
  intros Hz. unfold compare. f_equal.
  destruct (Z.ltb_spec z 0); [lia|]. unfold signed at 2.
  rewrite Z2N.id, Z.abs_eq by lia. unfold pow2.
  f_equal; f_equal; f_equal; lia.
Qed.

Lemma gtb_int_fin (s : bool) (q : N) (k z : Z) :
  0 <= z ->
  gtb_int (Fin s q k) z = (z * pow2 (- k) <? signed s q * pow2 k).
Proof.
  intros Hz. unfold gtb_int, gtb. rewrite compare_fin_int by exact Hz.
  rewrite Z.ltb_antisym, Z.leb_compare.
  now destruct (signed s q * pow2 k ?= z * pow2 (- k)).
Qed.

Lemma too_old_unfold (now created : Z) :
  too_old now created =
  match int_truediv (now - created) 1000000 with
  | Ok secs =>
      match div secs F3600 with
      | Ok a => Ok (gtb_int a POST_MAX_AGE_HOURS)
      | Raise e => Raise e
      end
  | Raise e => Raise e
  end.
Proof.
  unfold too_old, age_hours, total_seconds, US_PER_SECOND.
  rewrite of_int_3600. now destruct (int_truediv (now - created) 1000000).
Qed.

Lemma int_truediv_pos (us : Z) :
  0 < us ->
  int_truediv us 1000000 =
  match RN false us 1000000 with
  | Inf _ => Raise OverflowError
  | f => Ok f
  end.
Proof.
  intros H. unfold int_truediv. cbn [Z.eqb].
  destruct (Z.ltb_spec us 0); [lia|]. now rewrite Z.abs_eq by lia.
Qed.

Ltac pow2_consts :=
  try change (pow2 (-20)) with 1 in *;
  try change (pow2 (Z.opp (-20))) with 1048576 in *;
  try change (pow2 (-40)) with 1 in *;
  try change (pow2 (Z.opp (-40))) with 1099511627776 in *;
  try change (pow2 (Z.opp 0)) with 1 in *;
  try change (pow2 0) with 1 in *;
  try change (pow2 60) with 1152921504606846976 in *;
  try change (pow2 (Z.opp 60)) with 1 in *.

(** Older than the window: the check answers [True], unless the age is
    too large for a float. *)
Lemma too_old_stale (now created : Z) :
  WINDOW_US < now - created ->
  too_old now created = Ok true \/ too_old now created = Raise OverflowError.
Proof.
  unfold WINDOW_US, POST_MAX_AGE_HOURS, US_PER_HOUR. intros Hus.
  rewrite too_old_unfold. set (us := now - created) in *.
  rewrite int_truediv_pos by lia.
  destruct (RN_lower false us 1000000 15099494401 (-20))
    as [E|(q & k & E & Hq)];
    [ lia | lia | split; reflexivity | unfold emin; lia | pow2_consts; lia | | ].
  { rewrite E. now right. }
  rewrite E. pow2_consts.
  rewrite div_3600. pose proof (pow2_pos k). pose proof (pow2_pos (- k)).
  left. f_equal.
  destruct (RN_lower false (Z.of_N q * pow2 k * 2 ^ 41)
              (7916483719987200 * pow2 (- k)) 4398046511105 (-40))
    as [E2|(q2 & k2 & E2 & Hq2)];
    [ nia | nia | split; reflexivity | unfold emin; lia | pow2_consts; lia | | ].
  { now rewrite E2. }
  rewrite E2. unfold POST_MAX_AGE_HOURS. rewrite gtb_int_fin by lia.
  pow2_consts.
  pose proof (pow2_pos k2). pose proof (pow2_pos (- k2)).
  apply Z.ltb_lt. unfold signed. lia.
Qed.

Lemma RN_sign (neg : bool) (n d : Z) :
  RN neg n d = Inf neg \/ exists q k, RN neg n d = Fin neg q k.
Proof.
  unfold RN. destruct (n =? 0); [right; eauto|].
  destruct (round_pos n d) as [q k].
  destruct ((0 <=? k) && (2 ^ 1024 <=? q * 2 ^ k)); [left | right]; eauto.
Qed.

Lemma int_truediv_unfold (us : Z) :
  int_truediv us 1000000 =
  match RN (us <? 0) (Z.abs us) 1000000 with
  | Inf _ => Raise OverflowError
  | f => Ok f
  end.
Proof. unfold int_truediv. cbn [Z.eqb Z.ltb Z.compare]. now rewrite xorb_false_r. Qed.

(** Within the window: the check answers [False], unless the age is too
    large for a float. *)
Lemma too_old_fresh (now created : Z) :
  now - created <= WINDOW_US ->
  too_old now created = Ok false \/ too_old now created = Raise OverflowError.
Proof.
  unfold WINDOW_US, POST_MAX_AGE_HOURS, US_PER_HOUR. intros Hus.
  rewrite too_old_unfold. set (us := now - created) in *.
  rewrite int_truediv_unfold.
  destruct (Z.ltb_spec us 0) as [Hneg|Hpos].
  - destruct (RN_sign true (Z.abs us) 1000000) as [E|(q & k & E)];
      rewrite E; [now right | left].
    rewrite div_3600.
    destruct (RN_sign true (Z.of_N q * pow2 k * 2 ^ 41)
                (7916483719987200 * pow2 (- k))) as [E2|(q2 & k2 & E2)];
      rewrite E2; [reflexivity|].
    unfold POST_MAX_AGE_HOURS. rewrite gtb_int_fin by lia. f_equal.
    pose proof (pow2_pos k2). pose proof (pow2_pos (- k2)).
    apply Z.ltb_ge. unfold signed. nia.
  - rewrite Z.abs_eq by lia. left.
    destruct (RN_upper false us 1000000 14400 0) as (q & k & E & Hq);
      [ lia | lia | split; reflexivity | unfold emin; lia
      | pow2_consts; reflexivity | pow2_consts; lia | ].
    rewrite E. rewrite div_3600. pow2_consts.
    pose proof (pow2_pos k). pose proof (pow2_pos (- k)).
    destruct (RN_upper false (Z.of_N q * pow2 k * 2 ^ 41)
                (7916483719987200 * pow2 (- k)) 4 0)
      as (q2 & k2 & E2 & Hq2);
      [ nia | lia | split; reflexivity | unfold emin; lia
      | pow2_consts; reflexivity | pow2_consts; lia | ].
    rewrite E2. unfold POST_MAX_AGE_HOURS. rewrite gtb_int_fin by lia.
    f_equal. pow2_consts. apply Z.ltb_ge. unfold signed. lia.
Qed.

(** For two datetimes the check never raises. *)
Lemma too_old_total (now created : Z) :
  - DATETIME_END <= now - created <= DATETIME_END ->
  exists b, too_old now created = Ok b.
Proof.
  unfold DATETIME_END, US_PER_DAY. intros Hus.
  rewrite too_old_unfold. set (us := now - created) in *.
  rewrite int_truediv_unfold.
  destruct (RN_upper (us <? 0) (Z.abs us) 1000000 1 60) as (q & k & E & _);
    [ lia | lia | split; reflexivity | unfold emin; lia
    | pow2_consts; reflexivity | pow2_consts; lia | ].
  rewrite E, div_3600. eauto.
Qed.

Lemma too_old_decides (now created : Z) :
  - DATETIME_END <= now - created <= DATETIME_END ->
  too_old now created = Ok (WINDOW_US <? now - created).
Proof.
  intros Hus. destruct (too_old_total now created Hus) as [b Hb].
  destruct (Z.ltb_spec WINDOW_US (now - created)) as [H|H].
  - destruct (too_old_stale now created H); congruence.
  - destruct (too_old_fresh now created H); congruence.
Qed.

(** ** The loop body *)

Lemma process_post_unfold (env : Env) (sub : str) (p : PostEl) (st : State)
    (title : str) (c : ascii) (t : str) :
  title_text p = Some title -> strip title = c :: t ->
  process_post env sub p st =
  match find_datetime env (timestamp_anchor p) st with
  | (Ok (Some created), st1) =>
      match too_old (clock env (tick st1)) created with
      | Ok true => (Ok (Skip TooOld), ticked st1)
      | Ok false => extract_fresh env sub p created (ticked st1)
      | Raise e => (Raise e, ticked st1)
      end
  | (Ok None, st1) => (Ok (Skip NoTimestamp), st1)
  | (Raise e, st1) => (Raise e, st1)
  end.
Proof.
  intros Ht Hs. unfold process_post. rewrite Ht, Hs. unfold mbind.
  destruct (find_datetime env (timestamp_anchor p) st) as [[[created|]|e] st1];
    try reflexivity.
  unfold read_clock, lift. fold (ticked st1).
  destruct (too_old (clock env (tick st1)) created) as [[|]|e]; reflexivity.
Qed.

Lemma process_post_saved_title (env : Env) (sub : str) (p : PostEl)
    (st st' : State) (a : Saved) :
  process_post env sub p st = (Ok (Save a), st') ->
  exists title c t, title_text p = Some title /\ strip title = c :: t.
Proof.
  unfold process_post. destruct (title_text p) as [title|]; [|discriminate].
  destruct (strip title) as [|c t] eqn:Hs; [discriminate|]. eauto.
Qed.

Lemma find_datetime_rows (env : Env) (a : option Anchor) (st : State) :
  rows (snd (find_datetime env a st)) = rows st.
Proof.
  unfold find_datetime.
  destruct (datetime_of_attribute env a); [reflexivity|].
  destruct a as [anchor|]; [|reflexivity].
  unfold mbind, read_clock, lift. reflexivity.
Qed.

(** Where [created_at] comes from: the timestamp attribute, or else the
    relative-age text. *)
Lemma find_datetime_source (env : Env) (a : option Anchor) (st st1 : State)
    (v : Z) :
  find_datetime env a st = (Ok (Some v), st1) ->
  datetime_of_attribute env a = Some v
  \/ (datetime_of_attribute env a = None
      /\ exists anchor,
           a = Some anchor
           /\ parse_age_text (clock env (tick st)) (strip (anchor_text anchor))
              = Ok (Some v)).
Proof.
  unfold find_datetime.
  destruct (datetime_of_attribute env a) as [w|].
  - unfold ret. intros H. left. congruence.
  - destruct a as [anchor|]; [|discriminate].
    unfold mbind, read_clock, lift. intros H. right. split; [reflexivity|].
    exists anchor. split; [reflexivity|]. congruence.
Qed.

Lemma extract_fresh_created (env : Env) (sub : str) (p : PostEl) (created : Z)
    (st st' : State) (a : Saved) :
  extract_fresh env sub p created st = (Ok (Save a), st') ->
  s_created_at a = created.
Proof.
  unfold extract_fresh.
  destruct (permalink_href p) as [[[|c h]|]|]; try discriminate.
  unfold mbind, lift, insert_reddit_post, read_clock, ret.
  destruct (derive_post_id (resolve_post_url (c :: h))); [|discriminate].
  destruct (match score_text p with
            | Some t => parse_score_text (strip t)
            | None => Ok 0
            end); [|discriminate].
  intros H. injection H as <- _. reflexivity.
Qed.

(** C10. A post whose age equals the window, [POST_MAX_AGE_HOURS] hours to
    the microsecond, passes the age check: the check skips a post only if
    its age is strictly greater than the window. *)
Theorem staleness_boundary_inclusive :
  (forall now created,
      now - created = WINDOW_US -> too_old now created = Ok false)
  /\ (forall now created,
        too_old now created = Ok true -> WINDOW_US < now - created)
  /\ (forall env sub p st title c t created st1,
        title_text p = Some title -> strip title = c :: t ->
        find_datetime env (timestamp_anchor p) st = (Ok (Some created), st1) ->
        clock env (tick st1) - created = WINDOW_US ->
        process_post env sub p st
        = extract_fresh env sub p created (ticked st1)).
Proof.
  assert (Hb : forall now created,
             now - created = WINDOW_US -> too_old now created = Ok false).
  { intros now created H. rewrite too_old_unfold, H. vm_compute. reflexivity. }
  split; [exact Hb|]. split.
  - intros now created H.
    destruct (Z.ltb_spec WINDOW_US (now - created)) as [Hlt|Hle]; [exact Hlt|].
    destruct (too_old_fresh now created Hle); congruence.
  - intros env sub p st title c t created st1 Ht Hs Hf Hage.
    rewrite (process_post_unfold env sub p st title c t Ht Hs), Hf.
    now rewrite (Hb _ _ Hage).
Qed.

Lemma staleness_boundary_inclusive_witness :
  too_old 63900014400000000 63900000000000000 = Ok false.
Proof.
  apply (proj1 staleness_boundary_inclusive). reflexivity.
Defined.

(** C6. A record reaches [insert_reddit_post] only if its [created_at] was
    found, in the timestamp attribute or else in the relative-age text, and
    its age at the check is within the window of [POST_MAX_AGE_HOURS]
    hours.  A post older than the window is not saved and the table is
    left as it was. *)
Theorem saved_only_if_fresh :
  (forall env sub p st a st',
      process_post env sub p st = (Ok (Save a), st') ->
      exists st1,
        find_datetime env (timestamp_anchor p) st
        = (Ok (Some (s_created_at a)), st1)
        /\ clock env (tick st1) - s_created_at a <= WINDOW_US)
  /\ (forall env anchor st st1 v,
        find_datetime env anchor st = (Ok (Some v), st1) ->
        datetime_of_attribute env anchor = Some v
        \/ (datetime_of_attribute env anchor = None
            /\ exists an,
                 anchor = Some an
                 /\ parse_age_text (clock env (tick st))
                      (strip (anchor_text an)) = Ok (Some v)))
  /\ (forall env sub p st created st1,
        find_datetime env (timestamp_anchor p) st = (Ok (Some created), st1) ->
        WINDOW_US < clock env (tick st1) - created ->
        (forall a, fst (process_post env sub p st) <> Ok (Save a))
        /\ rows (snd (process_post env sub p st)) = rows st).
Proof.
  split; [|split].
  - intros env sub p st a st' H.
    destruct (process_post_saved_title _ _ _ _ _ _ H) as (title & c & t & Ht & Hs).
    rewrite (process_post_unfold env sub p st title c t Ht Hs) in H.
    destruct (find_datetime env (timestamp_anchor p) st)
      as [[[created|]|e] st1]; try discriminate.
    destruct (too_old (clock env (tick st1)) created) as [[|]|e] eqn:Hold;
      try discriminate.
    apply extract_fresh_created in H. subst created.
    exists st1. split; [reflexivity|].
    destruct (Z.leb_spec (clock env (tick st1) - s_created_at a) WINDOW_US)
      as [Hle|Hgt]; [exact Hle|].
    destruct (too_old_stale _ _ Hgt); congruence.
  - intros env anchor st st1 v. apply find_datetime_source.
  - intros env sub p st created st1 Hf Hgt.
    pose proof (find_datetime_rows env (timestamp_anchor p) st) as Hrows.
    rewrite Hf in Hrows. cbn [snd] in Hrows.
    destruct (title_text p) as [title|] eqn:Ht.
    2:{ unfold process_post. rewrite Ht. split; [discriminate | reflexivity]. }
    destruct (strip title) as [|c t] eqn:Hs.
    { unfold process_post. rewrite Ht, Hs.
      split; [discriminate | reflexivity]. }
    rewrite (process_post_unfold env sub p st title c t Ht Hs), Hf.
    destruct (too_old_stale _ _ Hgt) as [E|E]; rewrite E; cbn;
      (split; [discriminate | exact Hrows]).
Qed.

Lemma saved_only_if_fresh_witness :
  exists st1,
    find_datetime Sample.env (timestamp_anchor Sample.ten_minutes_old)
      (ticked Sample.start)
    = (Ok (Some (s_created_at Sample.saved)), st1)
    /\ clock Sample.env (tick st1) - s_created_at Sample.saved <= WINDOW_US.
Proof.
  apply (proj1 saved_only_if_fresh Sample.env (lit "x") Sample.ten_minutes_old
           (ticked Sample.start) Sample.saved
           {| rows := [ {| subreddit := lit "x";
                           post_id := lit "abc123";
                           post_url := s_post_url Sample.saved;
                           score := 2300;
                           created_at := s_created_at Sample.saved;
                           seen_at := Sample.NOW0 + 3;
                           commented := false |} ];
              tick := 4 |}).
  vm_compute. reflexivity.
Defined.

(** The scenario of the specification, end to end: of the three posts only
    the fresh one is saved, with score 2300. *)
Example sample_page_scraped :
  scrape_subreddit Sample.env (lit "x") Sample.page Sample.start
  = ([Skip NoTitle; Skip TooOld; Save Sample.saved],
     {| rows := [ {| subreddit := lit "x";
                     post_id := lit "abc123";
                     post_url := s_post_url Sample.saved;
                     score := 2300;
                     created_at := s_created_at Sample.saved;
                     seen_at := Sample.NOW0 + 3;
                     commented := false |} ];
        tick := 4 |}).
Proof. vm_compute. reflexivity. Qed.

(** ** Characters kept by the string functions *)

Lemma in_lstrip_by (sp : ascii -> bool) (c : ascii) (s : str) :
  In c (lstrip_by sp s) -> In c s.
Proof.
  induction s as [|a t IH]; simpl; [trivial|].
  destruct (sp a); [right; now apply IH | trivial].
Qed.

Lemma in_strip_by (sp : ascii -> bool) (c : ascii) (s : str) :
  In c (strip_by sp s) -> In c s.
Proof.
  unfold strip_by. intros H. apply in_rev, in_lstrip_by in H.
  now apply in_rev, in_lstrip_by in H.
Qed.

Lemma in_replace_from_nil (old : str) (c : ascii) (s : str) (skip : nat) :
  In c (replace_from old [] skip s) -> In c s.
Proof.
  revert skip. induction s as [|a t IH]; intros skip; simpl; [trivial|].
  destruct skip as [|k].
  - destruct (startswith old (a :: t)); simpl.
    + intros H. right. eapply IH, H.
    + intros [H|H]; [now left | right; eapply IH, H].
  - intros H. right. eapply IH, H.
Qed.

(** Deleting a word adds no character. *)
Lemma in_replace_nil (old : str) (c : ascii) (s : str) :
  old <> [] -> In c (replace old [] s) -> In c s.
Proof.
  intros Hold. unfold replace. destruct old; [congruence|].
  apply in_replace_from_nil.
Qed.

Lemma in_drop_last (c : ascii) (s : str) : In c (drop_last s) -> In c s.
Proof.
  unfold drop_last. induction s as [|a t IH]; simpl; [trivial|].
  destruct t; [contradiction|]. intros [H|H]; [now left | right; now apply IH].
Qed.

Lemma lower_char_minus (a : ascii) : lower_char a = MINUS -> a = MINUS.
Proof.
  destruct a as [[] [] [] [] [] [] [] []]; vm_compute;
    first [ reflexivity | discriminate ].
Qed.

Lemma in_lower_minus (s : str) : In MINUS (lower s) -> In MINUS s.
Proof.
  unfold lower. rewrite in_map_iff. intros (a & Ha & Hin).
  now rewrite <- (lower_char_minus a Ha).
Qed.


(** ** Signs and exceptions of the float functions *)







(** [float()] raises nothing but [ValueError]. *)
Lemma float_of_str_raises (s : str) (e : exn) :
  float_of_str s = Raise e -> e = ValueError.
Proof.
  unfold float_of_str.
  destruct (strip_by c_isspace s) as [|c t]; [congruence|].
  destruct (underscores_ok zero (c :: t)); [|congruence].
  destruct (parse_decimal _) as [[[neg m] ex]|]; [discriminate|].
  destruct (parse_inf_nan _); [discriminate | congruence].
Qed.



Lemma to_int_raises (x : float) (e : exn) :
  to_int x = Raise e -> e = ValueError \/ e = OverflowError.
Proof. destruct x; simpl; intros H; inversion H; auto. Qed.

(** ** The score parser *)

(** The text handed to [float()] and the multiplier, whenever the parser
    gets past its early [return 0]. *)
Lemma parse_score_text_unfold (t : str) :
  parse_score_text t = Ok 0
  \/ exists mult numtxt,
       (mult = 1 \/ mult = 1000)
       /\ (In MINUS numtxt -> In MINUS t)
       /\ parse_score_text t
          = except_ValueError
              (value <- float_of_str numtxt ;;
               m <- of_int mult ;;
               to_int (mul value m))
              0.
Proof.
  unfold parse_score_text.
  set (c1 := replace (lit "point") []
               (replace (lit "points") [] (lower (strip t)))).
  set (c2 := strip (replace (lit "vote") [] (replace (lit "votes") [] c1))).
  assert (Hc2 : In MINUS c2 -> In MINUS t).
  { intros H. subst c2 c1. apply in_strip_by in H.
    repeat (apply in_replace_nil in H; [|discriminate]).
    apply in_lower_minus in H. now apply in_strip_by in H. }
  destruct (Str.eqb c2 [] || mem c2 [BULLET]); [now left | right].
  destruct (endswith (lit "k") c2).
  - exists 1000, (drop_last c2). split; [now right|]. split; [|reflexivity].
    intros H. now apply Hc2, in_drop_last.
  - exists 1, c2. split; [now left|]. split; [exact Hc2 | reflexivity].
Qed.

Lemma of_int_multiplier (mult : Z) :
  mult = 1 \/ mult = 1000 ->
  exists m e, of_int mult = Ok (Fin false m e).
Proof. intros [->| ->]; vm_compute; eauto. Qed.

(** The only exception [parse_score_text] lets through is the
    [OverflowError] of [int()] on an infinite value. *)
Lemma parse_score_text_raises (t : str) (e : exn) :
  parse_score_text t = Raise e -> e = OverflowError.
Proof.
  destruct (parse_score_text_unfold t) as [E|(mult & numtxt & Hm & _ & E)];
    rewrite E; [discriminate|].
  destruct (of_int_multiplier mult Hm) as (m & ex & Hof). rewrite Hof.
  destruct (float_of_str numtxt) as [x|e'] eqn:Hf; cbn [bind].
  - destruct (to_int (mul x (Fin false m ex))) as [z|e'] eqn:Hi;
      [discriminate|].
    destruct (to_int_raises _ _ Hi) as [->| ->]; cbn; congruence.
  - rewrite (float_of_str_raises _ _ Hf). discriminate.
Qed.





(** C3 fails on the code: [except ValueError] does not catch the
    [OverflowError] that [int()] raises on an infinite float, so "inf",
    "infk", "infinity", "1e999" and "1e308k" make the parser raise, while
    "nan" and "nank", for which [int()] raises [ValueError], give 0.
    [OverflowError] is the only exception that escapes. *)
Theorem score_parser_raises_on_infinity :
  parse_score_text (lit "inf") = Raise OverflowError
  /\ parse_score_text (lit "infk") = Raise OverflowError
  /\ parse_score_text (lit "infinity") = Raise OverflowError
  /\ parse_score_text (lit "1e999") = Raise OverflowError
  /\ parse_score_text (lit "1e308k") = Raise OverflowError
  /\ parse_score_text (lit "nan") = Ok 0
  /\ parse_score_text (lit "nank") = Ok 0
  /\ (forall t e, parse_score_text t = Raise e -> e = OverflowError).
Proof.
  do 7 (split; [vm_compute; reflexivity|]).
  exact parse_score_text_raises.
Qed.

Lemma score_parser_raises_on_infinity_witness :
  OverflowError = OverflowError
  /\ parse_score_text (lit "inf") = Raise OverflowError.
Proof.
  split.
  - apply (proj2 (proj2 (proj2 (proj2 (proj2 (proj2 (proj2
             score_parser_raises_on_infinity)))))) (lit "inf")).
    vm_compute. reflexivity.
  - exact (proj1 score_parser_raises_on_infinity).
Defined.

(** ** Durations are not negative *)

Lemma at_least_zero (ce ce' : Z) (x : float) :
  at_least 0 ce x -> at_least 0 ce' x.
Proof.
  destruct x as [|s|s q k]; simpl; trivial. intros [-> _]. split; [reflexivity|].
  pose proof (pow2_pos k). pose proof (pow2_pos (- ce')). nia.
Qed.

Lemma RN_at_least (n d cm ce : Z) :
  0 <= n -> 0 < d -> 0 <= cm < 2 ^ 53 -> emin <= ce ->
  cm * pow2 ce * d <= n * pow2 (- ce) ->
  at_least cm ce (RN false n d).
Proof.
  intros Hn Hd Hcm Hce Hle.
  pose proof (pow2_pos ce). pose proof (pow2_pos (- ce)).
  destruct (Z.eq_dec cm 0) as [->|Hc].
  - destruct (RN_sign false n d) as [E|(q & k & E)]; rewrite E; simpl;
      [reflexivity|]. split; [reflexivity|].
    pose proof (pow2_pos k). nia.
  - assert (0 < n) by nia.
    destruct (RN_lower false n d cm ce) as [E|(q & k & E & Hq)];
      try assumption; try lia; rewrite E; simpl; auto.
Qed.

Lemma to_int_at_least (c : Z) (x : float) (z : Z) :
  0 <= c -> at_least c 0 x -> to_int x = Ok z -> c <= z.
Proof.
  intros Hc. destruct x as [|s|s q k]; simpl; try discriminate.
  intros [-> Hq] E. injection E as <-. unfold trunc_fin.
  change (pow2 0) with 1 in Hq. change (pow2 (- 0)) with 1 in Hq.
  destruct (Z.leb_spec 0 k).
  - rewrite (pow2_nonneg k), (pow2_nonpos (- k)) in Hq by lia. lia.
  - rewrite (pow2_nonpos k), (pow2_nonneg (- k)) in Hq by lia.
    apply Z.div_le_lower_bound; [apply Z.pow_pos_nonneg; lia | lia].
Qed.

Lemma modf_at_least (c : Z) (x : float) :
  0 <= c -> at_least c 0 x ->
  at_least 0 0 (fst (modf x)) /\ at_least c 0 (snd (modf x)).
Proof.
  intros Hc. destruct x as [|s|s q k]; simpl; [tauto | |].
  - intros ->. repeat split. reflexivity.
  - intros [-> Hq]. destruct (Z.leb_spec 0 k); cbn [fst snd at_least].
    + repeat split; [reflexivity | exact Hq].
    + change (pow2 0) with 1 in *. change (pow2 (- 0)) with 1 in *.
      rewrite (pow2_nonpos k), (pow2_nonneg (- k)) in Hq by lia.
      assert (0 < 2 ^ (- k)) by (apply Z.pow_pos_nonneg; lia).
      pose proof (Z.mod_pos_bound (Z.of_N q) (2 ^ (- k)) ltac:(lia)).
      pose proof (Z.div_pos (Z.of_N q) (2 ^ (- k)) ltac:(lia) ltac:(lia)).
      rewrite !Z2N.id by lia.
      pose proof (pow2_pos k). pose proof (pow2_pos (- k)).
      repeat split; try nia.
      assert (c <= Z.of_N q / 2 ^ (- k))
        by (apply Z.div_le_lower_bound; lia).
      lia.
Qed.

Lemma add_fin_int (s t : bool) (q o : N) (k : Z) :
  add (Fin s q k) (Fin t o 0) =
  let a := signed s q * pow2 k + signed t o * pow2 (- k) in
  if a =? 0 then Fin (s && t) 0 0 else RN (a <? 0) (Z.abs a) (pow2 (- k)).
Proof.
  unfold add, RN2, shl, pow2. cbv zeta.
  replace (k - Z.min k 0) with (Z.max 0 k) by lia.
  replace (0 - Z.min k 0) with (Z.max 0 (- k)) by lia.
  replace (Z.max 0 (Z.min k 0)) with 0 by lia.
  replace (Z.max 0 (- Z.min k 0)) with (Z.max 0 (- k)) by lia.
  now rewrite Z.pow_0_r, Z.mul_1_r, Z.mul_1_l.
Qed.

Ltac small_range :=
  split; [lia | apply Z.le_lt_trans with 2; [lia | reflexivity]].

(** The float 0.0 or 1.0 that [x_is_odd] becomes. *)
Lemma add_bit_at_least (x : float) (b : bool) :
  at_least 0 0 x ->
  at_least (if b then 1 else 0) 0 (add x (Fin false (if b then 1 else 0) 0)).
Proof.
  intros Hx. destruct x as [|s|s q k]; cbn [at_least] in Hx; [tauto | now subst |].
  destruct Hx as [-> _]. rewrite add_fin_int. cbv zeta. unfold signed.
  pose proof (pow2_pos k). pose proof (pow2_pos (- k)).
  set (o := if b then 1%N else 0%N).
  assert (Ho : Z.of_N o = if b then 1 else 0) by now destruct b.
  rewrite Ho. clearbody o.
  set (c := if b then 1 else 0) in *.
  assert (Hc : 0 <= c <= 1) by (subst c; destruct b; lia).
  clearbody c.
  set (a := Z.of_N q * pow2 k + c * pow2 (- k)).
  assert (Ha : 0 <= a) by (subst a; nia).
  destruct (Z.eqb_spec a 0) as [E|E].
  - unfold at_least; cbn [andb]. split; [reflexivity|].
    change (pow2 0) with 1. change (pow2 (- 0)) with 1. subst a. nia.
  - destruct (Z.ltb_spec a 0); [lia|]. rewrite Z.abs_eq by lia.
    apply RN_at_least;
      [ lia | lia | small_range | unfold emin; lia | ].
    change (pow2 0) with 1. change (pow2 (- 0)) with 1. subst a. nia.
Qed.

(** [x - o >= 0] for [x >= 2·o]. *)
Lemma sub_bit_at_least (x : float) (b : bool) :
  at_least (2 * (if b then 1 else 0)) 0 x ->
  at_least 0 0 (sub x (Fin false (if b then 1 else 0) 0)).
Proof.
  intros Hx. unfold sub, opp. cbn [negb].
  destruct x as [|s|s q k]; cbn [at_least] in Hx; [tauto | now subst |].
  destruct Hx as [-> Hq]. rewrite add_fin_int. cbv zeta. unfold signed.
  change (pow2 0) with 1 in Hq. change (pow2 (- 0)) with 1 in Hq.
  pose proof (pow2_pos k). pose proof (pow2_pos (- k)).
  set (o := if b then 1%N else 0%N).
  assert (Ho : Z.of_N o = if b then 1 else 0) by now destruct b.
  rewrite Ho. clearbody o.
  set (c := if b then 1 else 0) in *.
  assert (Hc : 0 <= c <= 1) by (subst c; destruct b; lia).
  clearbody c.
  set (a := Z.of_N q * pow2 k + - c * pow2 (- k)).
  assert (Ha : 0 <= a) by (subst a; nia).
  destruct (Z.eqb_spec a 0) as [E|E].
  - unfold at_least; cbn [andb]. split; [reflexivity | lia].
  - destruct (Z.ltb_spec a 0); [lia|]. rewrite Z.abs_eq by lia.
    apply RN_at_least;
      [ lia | lia | small_range | unfold emin; lia
      | change (pow2 (- 0)) with 1; lia ].
Qed.

(** [x · 0.5 >= c/2] for [x >= c]. *)
Lemma mul_half_at_least (x : float) (c : Z) :
  0 <= c <= 1 -> at_least c 0 x -> at_least c (-1) (mul x half).
Proof.
  intros Hc Hx. destruct x as [|s|s q k]; cbn [at_least] in Hx; [tauto | now subst |].
  destruct Hx as [-> Hq]. unfold half, mul, RN2, shl. cbn [xorb].
  change (pow2 0) with 1 in Hq. change (pow2 (- 0)) with 1 in Hq.
  rewrite !Z.mul_1_r in *. rewrite Z.mul_1_l.
  pose proof (pow2_add (k + -1) 1) as E.
  replace (k + -1 + 1) with k in E by lia.
  change (pow2 (- (1))) with 1 in E. change (pow2 1) with 2 in E.
  pose proof (pow2_pos k). pose proof (pow2_pos (- k)).
  pose proof (pow2_pos (k + -1)). pose proof (pow2_pos (- (k + -1))).
  apply RN_at_least;
    [ nia | nia | small_range | unfold emin; lia | ].
  change (pow2 (-1)) with 1. change (pow2 (- -1)) with 2.
  apply (Z.mul_le_mono_pos_r _ _ (pow2 (- k))); [lia|].
  nia.
Qed.

(** [2.0 · x >= 2·c] for [x >= c]. *)
Lemma mul_two_at_least (x : float) (c : Z) :
  0 <= c <= 1 -> at_least c 0 x -> at_least (2 * c) 0 (mul two x).
Proof.
  intros Hc Hx. destruct x as [|s|s q k]; cbn [at_least] in Hx; [tauto | now subst |].
  destruct Hx as [-> Hq]. unfold two, mul, RN2, shl. cbn [xorb].
  change (pow2 0) with 1 in *. change (pow2 (- 0)) with 1 in *.
  rewrite !Z.mul_1_r in *. rewrite Z.mul_1_l. cbn [Z.add].
  pose proof (pow2_pos k). pose proof (pow2_pos (- k)).
  apply RN_at_least;
    [ nia | nia | small_range | unfold emin; lia | ].
  change (pow2 0) with 1. change (pow2 (- 0)) with 1.
  change (Z.of_N 2) with 2. nia.
Qed.

(** [round(x) >= c] for [x >= c/2], [c] being 0 or 1. *)
Lemma round_at_least (x : float) (c : Z) :
  0 <= c <= 1 -> at_least c (-1) x -> at_least c 0 (round x).
Proof.
  intros Hc Hx. destruct x as [|s|s q k]; cbn [at_least] in Hx; [tauto | now subst |].
  destruct Hx as [-> Hq]. unfold round.
  change (pow2 (-1)) with 1 in Hq. change (pow2 (- -1)) with 2 in Hq.
  pose proof (pow2_pos k). pose proof (pow2_pos (- k)).
  destruct (Z.leb_spec 0 k).
  - unfold at_least; cbn [andb]. split; [reflexivity|].
    change (pow2 0) with 1. change (pow2 (- 0)) with 1.
    rewrite (pow2_nonpos (- k)) in * by lia. nia.
  - unfold at_least; cbn [andb]. split; [reflexivity|].
    change (pow2 0) with 1. change (pow2 (- 0)) with 1.
    rewrite (pow2_nonpos k), (pow2_nonneg (- k)) in * by lia.
    assert (Hp : 0 < 2 ^ (- k)) by lia.
    pose proof (Z.div_mod (Z.of_N q) (2 ^ (- k)) ltac:(lia)) as Hdm.
    pose proof (Z.mod_pos_bound (Z.of_N q) (2 ^ (- k)) Hp) as Hr.
    pose proof (Z.div_pos (Z.of_N q) (2 ^ (- k)) ltac:(lia) Hp) as Hd.
    set (qq := Z.of_N q / 2 ^ (- k)) in *.
    set (r := Z.of_N q mod 2 ^ (- k)) in *.
    destruct (Z.leb_spec (2 ^ (- k)) (2 * r)); rewrite Z2N.id by lia; nia.
Qed.

Lemma add_zero_at_least (y : float) :
  at_least 0 0 y -> at_least 0 0 (add (Fin false 0 0) y).
Proof.
  intros Hy. destruct y as [|s|s q k]; cbn [at_least] in Hy;
    [tauto | now subst |].
  destruct Hy as [-> _]. unfold add, signed. cbn [andb].
  set (a := Z.of_N 0 * 2 ^ (0 - Z.min 0 k)
            + Z.of_N q * 2 ^ (k - Z.min 0 k)).
  assert (Ha : 0 <= a).
  { subst a. pose proof (Z.pow_nonneg 2 (k - Z.min 0 k) ltac:(lia)).
    change (Z.of_N 0) with 0. nia. }
  destruct (Z.eqb_spec a 0).
  - unfold at_least. split; [reflexivity | lia].
  - destruct (Z.ltb_spec a 0); [lia|]. unfold RN2.
    destruct (RN_sign false (shl (Z.abs a) (Z.min 0 k))
                (shl 1 (- Z.min 0 k))) as [E|(q' & k' & E)];
      rewrite E; unfold at_least; [reflexivity|].
    split; [reflexivity|]. pose proof (pow2_pos k').
    change (pow2 (- 0)) with 1. nia.
Qed.

Lemma new_delta_ok (us d : Z) : new_delta us = Ok d -> d = us.
Proof.
  unfold new_delta.
  destruct ((us / US_PER_DAY <? - MAX_DELTA_DAYS)
            || (MAX_DELTA_DAYS <? us / US_PER_DAY)); congruence.
Qed.

(** The rounded left-over fraction of a non-negative duration is not
    negative. *)
Lemma round_leftover_ge (sum : Z) (leftover : float) (d : Z) :
  at_least 0 0 leftover -> round_leftover sum leftover = Ok d -> sum <= d.
Proof.
  intros HL. unfold round_leftover.
  destruct (is_zero leftover).
  { intros H. apply new_delta_ok in H. lia. }
  set (b := Z.odd sum).
  set (whole := if eqb (abs (sub (round leftover) leftover)) half
                then sub (mul two (round (mul (add leftover
                       (Fin false (if b then 1 else 0) 0)) half)))
                       (Fin false (if b then 1 else 0) 0)
                else round leftover).
  assert (Hw : at_least 0 0 whole).
  { subst whole. destruct (eqb _ half).
    - apply sub_bit_at_least.
      assert (Hc : 0 <= (if b then 1 else 0) <= 1) by (destruct b; lia).
      apply mul_two_at_least; [exact Hc|].
      apply round_at_least; [exact Hc|].
      apply mul_half_at_least; [exact Hc|].
      now apply add_bit_at_least.
    - apply round_at_least; [lia|]. now apply (at_least_zero 0). }
  clearbody whole.
  destruct (to_int whole) as [t|e] eqn:Ht; cbn [bind]; [|discriminate].
  intros H. apply new_delta_ok in H.
  pose proof (to_int_at_least 0 whole t ltac:(lia) Hw Ht). lia.
Qed.

Lemma of_int_us_per (u : time_unit) :
  exists fm fe,
    of_int (us_per u) = Ok (Fin false fm fe)
    /\ fe < 0 /\ Z.of_N fm = us_per u * 2 ^ (- fe).
Proof.
  destruct u; vm_compute; eexists _, _; repeat split.
Qed.

(** A finite magnitude that amounts to one microsecond or more gives a
    positive duration. *)
Lemma timedelta_positive (u : time_unit) (m : N) (e d : Z) :
  pow2 (- e) <= Z.of_N m * pow2 e * us_per u ->
  timedelta (us_per u) (PyFloat (Fin false m e)) = Ok d ->
  0 < d.
Proof.
  intros Hx. pose proof (pow2_pos e) as Hpe. pose proof (pow2_pos (- e)) as Hpn.
  assert (Hf : 0 < us_per u) by (destruct u; reflexivity).
  unfold timedelta. unfold modf at 1. destruct (Z.leb_spec 0 e) as [He|He].
  - cbn [to_int bind is_zero N.eqb]. unfold round_leftover. cbn [is_zero N.eqb].
    unfold trunc_fin. destruct (Z.leb_spec 0 e); [|lia].
    intros Hd. apply new_delta_ok in Hd. subst d.
    rewrite (pow2_nonneg e), (pow2_nonpos (- e)) in Hx by lia. nia.
  - rewrite (pow2_nonpos e), (pow2_nonneg (- e)) in Hx by lia.
    assert (Hp : 0 < 2 ^ (- e)) by (apply Z.pow_pos_nonneg; lia).
    pose proof (Z.div_mod (Z.of_N m) (2 ^ (- e)) ltac:(lia)) as Hdm.
    pose proof (Z.mod_pos_bound (Z.of_N m) (2 ^ (- e)) Hp) as Hr.
    pose proof (Z.div_pos (Z.of_N m) (2 ^ (- e)) ltac:(lia) Hp) as Hi.
    set (I := Z.of_N m / 2 ^ (- e)) in *.
    set (r := Z.of_N m mod 2 ^ (- e)) in *.
    cbn [to_int bind]. unfold trunc_fin. cbn [Z.leb Z.compare].
    rewrite Z2N.id, Z.pow_0_r, Z.mul_1_r by lia.
    unfold is_zero at 1.
    destruct (N.eqb_spec (Z.to_N r) 0) as [Hz|Hz].
    + unfold round_leftover. cbn [is_zero N.eqb].
      intros Hd. apply new_delta_ok in Hd. subst d.
      assert (r = 0) by lia. nia.
    + destruct (of_int_us_per u) as (fm & fe & EF & Hfe & Hfm).
      rewrite EF. cbn [bind].
      set (c := if I =? 0 then 1 else 0).
      assert (Hc : 0 <= c <= 1) by (subst c; destruct (I =? 0); lia).
      assert (Hp2 : at_least c 0 (mul (Fin false fm fe) (Fin false (Z.to_N r) e))).
      { unfold mul, RN2, shl. cbn [xorb].
        rewrite (pow2_nonpos (fe + e)), (pow2_nonneg (- (fe + e))) by lia.
        rewrite Z2N.id, Z.mul_1_r, Z.mul_1_l by lia.
        assert (Hs : 2 ^ (- (fe + e)) = 2 ^ (- fe) * 2 ^ (- e))
          by (rewrite <- Z.pow_add_r by lia; f_equal; lia).
        assert (0 < 2 ^ (- fe)) by (apply Z.pow_pos_nonneg; lia).
        apply RN_at_least;
          [ nia | lia | small_range | unfold emin; lia | ].
        change (pow2 0) with 1. change (pow2 (- 0)) with 1.
        rewrite Hs, Hfm. subst c.
        destruct (Z.eqb_spec I 0) as [HI|HI]; [|nia].
        assert (r = Z.of_N m) by lia. nia. }
      destruct (modf_at_least c _ ltac:(lia) Hp2) as [Hfrac Hint].
      destruct (modf (mul (Fin false fm fe) (Fin false (Z.to_N r) e)))
        as [fracpart2 intpart2]. cbn [fst snd] in *. cbv beta iota.
      destruct (to_int intpart2) as [x2|ex] eqn:Hx2; cbn [bind];
        [|intros Hd; discriminate Hd].
      pose proof (to_int_at_least c intpart2 x2 ltac:(lia) Hint Hx2) as Hx2c.
      intros Hd. apply round_leftover_ge in Hd;
        [|now apply add_zero_at_least].
      subst c. destruct (Z.eqb_spec I 0); nia.
Qed.

(** ** The relative-age parser *)

(** The [if]/[elif] chain and the rules of the specification pick the
    same unit. *)
Lemma unit_factor_rules (u : str) :
  unit_factor u = option_map us_per (unit_of_token u).
Proof.
  unfold unit_factor, unit_of_token.
  destruct (contains (lit "min") u); [reflexivity|].
  destruct (contains (lit "hour") u); [reflexivity|].
  destruct (Str.eqb u (lit "h")); [reflexivity|].
  destruct (contains (lit "sec") u); [reflexivity|].
  destruct (Str.eqb u (lit "s")); reflexivity.
Qed.

Lemma parse_amount_rules (tok : str) :
  parse_amount tok = Ok (magnitude_of_token tok).
Proof.
  unfold parse_amount, magnitude_of_token, mem. cbn [existsb].
  rewrite orb_false_r.
  destruct (Str.eqb tok (lit "a") || Str.eqb tok (lit "an")); [reflexivity|].
  destruct (float_of_str tok) as [x|e] eqn:E; [reflexivity|].
  apply float_of_str_raises in E. now subst e.
Qed.

Lemma parse_age_text_tokens (now : Z) (text tok : str) (rest : list str) :
  lower (strip text) <> [] ->
  mem (lower (strip text)) [lit "just now"; lit "moments ago"] = false ->
  split_ws (lower (strip text)) = tok :: rest ->
  parse_age_text now text = age_of_tokens now tok (hd_error rest).
Proof.
  intros Hne Hmem Hsplit. unfold parse_age_text.
  destruct (Str.eqb (lower (strip text)) []) eqn:E;
    [apply eqb_spec in E; contradiction|].
  rewrite Hmem, Hsplit, parse_amount_rules. cbn [bind].
  unfold age_of_tokens.
  destruct (magnitude_of_token tok) as [amount|]; [|reflexivity].
  destruct rest as [|u rest]; cbn [hd_error]; [reflexivity|].
  rewrite unit_factor_rules.
  destruct (unit_of_token u); reflexivity.
Qed.

(** C5. Past the empty text and the two phrases for "now", the text is
    split at whitespace and the parser returns what the rules say for the
    first token as magnitude and the second as unit, the rules being tried
    in the order they are listed: "a"/"an" is 1, any other magnitude is
    read by [float()]; a unit containing "min" is minutes, one containing
    "hour" or equal to "h" is hours, one containing "sec" or equal to "s"
    is seconds; a magnitude that is not a number, a missing unit and any
    other unit give [None]. *)
Theorem relative_age_rules :
  (forall now text tok rest,
      lower (strip text) <> [] ->
      mem (lower (strip text)) [lit "just now"; lit "moments ago"] = false ->
      split_ws (lower (strip text)) = tok :: rest ->
      parse_age_text now text = age_of_tokens now tok (hd_error rest))
  /\ parse_age_text Sample.NOW0 (lit "an hour")
     = Ok (Some (Sample.NOW0 - US_PER_HOUR))
  /\ parse_age_text Sample.NOW0 (lit "1.5 hours")
     = Ok (Some (Sample.NOW0 - 5400000000))
  /\ parse_age_text Sample.NOW0 (lit "3 h")
     = Ok (Some (Sample.NOW0 - 3 * US_PER_HOUR))
  /\ parse_age_text Sample.NOW0 (lit "45 s")
     = Ok (Some (Sample.NOW0 - 45 * US_PER_SECOND))
  /\ parse_age_text Sample.NOW0 (lit "2 days") = Ok None
  /\ parse_age_text Sample.NOW0 (lit "7") = Ok None
  /\ parse_age_text Sample.NOW0 (lit "few minutes") = Ok None.
Proof.
  split; [exact parse_age_text_tokens|].
  repeat split; vm_compute; reflexivity.
Qed.

Lemma relative_age_rules_witness :
  parse_age_text Sample.NOW0 (lit " 1.5 Hours ago ")
  = age_of_tokens Sample.NOW0 (lit "1.5") (Some (lit "hours")).
Proof.
  apply (proj1 relative_age_rules Sample.NOW0 (lit " 1.5 Hours ago ")
           (lit "1.5") [lit "hours"; lit "ago"]).
  - discriminate.
  - reflexivity.
  - reflexivity.
Defined.

Lemma datetime_sub_in_range (now d : Z) :
  0 < d <= now -> now < DATETIME_END -> datetime_sub now d = Ok (now - d).
Proof.
  intros Hd Hnow. unfold datetime_sub.
  destruct (Z.ltb_spec (now - d) 0); [lia|].
  destruct (Z.leb_spec DATETIME_END (now - d)); [lia | reflexivity].
Qed.

Lemma age_of_tokens_in_range (now : Z) (tok u : str) (amount : number)
    (k : time_unit) (d : Z) :
  magnitude_of_token tok = Some amount ->
  unit_of_token u = Some k ->
  timedelta (us_per k) amount = Ok d ->
  0 < d <= now -> now < DATETIME_END ->
  age_of_tokens now tok (Some u) = Ok (Some (now - d)) /\ now - d < now.
Proof.
  intros Ha Hu Hd Hr Hn. split; [|lia].
  unfold age_of_tokens. rewrite Ha, Hu, Hd. cbn [bind].
  now rewrite datetime_sub_in_range.
Qed.

Lemma timedelta_one (k : time_unit) :
  timedelta (us_per k) (PyInt 1) = Ok (us_per k) /\ 0 < us_per k.
Proof. destruct k; split; reflexivity. Qed.

(** C4, as the code has it.  Take a text made of a magnitude ("a", "an" or
    a number) and a recognised unit.  If its elapsed duration, rounded to
    whole microseconds, is positive and does not reach back before the
    first datetime, the parser returns the reference time minus that
    duration, which is strictly less than the reference time.  The
    duration is positive for "a" and "an", and for every finite positive
    number that amounts to one microsecond or more.  "just now" gives the
    reference time, "5 minutes" the reference time minus five minutes,
    "gibberish" gives [None]. *)
Theorem relative_age_before_reference :
  (forall now text tok u rest amount k d,
      lower (strip text) <> [] ->
      mem (lower (strip text)) [lit "just now"; lit "moments ago"] = false ->
      split_ws (lower (strip text)) = tok :: u :: rest ->
      magnitude_of_token tok = Some amount ->
      unit_of_token u = Some k ->
      timedelta (us_per k) amount = Ok d ->
      0 < d <= now -> now < DATETIME_END ->
      parse_age_text now text = Ok (Some (now - d)) /\ now - d < now)
  /\ (forall k, timedelta (us_per k) (PyInt 1) = Ok (us_per k)
                /\ 0 < us_per k)
  /\ (forall k m e d,
        pow2 (- e) <= Z.of_N m * pow2 e * us_per k ->
        timedelta (us_per k) (PyFloat (Fin false m e)) = Ok d ->
        0 < d)
  /\ (forall now, parse_age_text now (lit "just now") = Ok (Some now))
  /\ (forall now,
        5 * US_PER_MINUTE <= now < DATETIME_END ->
        parse_age_text now (lit "5 minutes")
        = Ok (Some (now - 5 * US_PER_MINUTE)))
  /\ (forall now, parse_age_text now (lit "gibberish") = Ok None).
Proof.
  split; [|split; [|split; [|split; [|split]]]].
  - intros now text tok u rest amount k d Hne Hmem Hsplit Ha Hu Hd Hr Hn.
    rewrite (parse_age_text_tokens now text tok (u :: rest) Hne Hmem Hsplit).
    cbn [hd_error]. now apply (age_of_tokens_in_range now tok u amount k d).
  - exact timedelta_one.
  - exact timedelta_positive.
  - intros now. reflexivity.
  - intros now Hn.
    change (parse_age_text now (lit "5 minutes"))
      with (t <- datetime_sub now (5 * US_PER_MINUTE) ;; Ok (Some t)).
    rewrite datetime_sub_in_range;
      [reflexivity | unfold US_PER_MINUTE in *; lia | lia].
  - intros now. reflexivity.
Qed.

Lemma relative_age_before_reference_witness :
  (parse_age_text Sample.NOW0 (lit "5 minutes ago")
   = Ok (Some (Sample.NOW0 - 300000000))
   /\ Sample.NOW0 - 300000000 < Sample.NOW0)
  /\ 0 < 300000000.
Proof.
  split.
  - apply (proj1 relative_age_before_reference Sample.NOW0
             (lit "5 minutes ago") (lit "5") (lit "minutes") [lit "ago"]
             (PyFloat (Fin false 5629499534213120 (-50))) Minutes 300000000).
    + discriminate.
    + reflexivity.
    + reflexivity.
    + vm_compute. reflexivity.
    + reflexivity.
    + vm_compute. reflexivity.
    + vm_compute. split; [reflexivity | discriminate].
    + reflexivity.
  - apply (proj1 (proj2 (proj2 relative_age_before_reference)) Minutes
             5629499534213120%N (-50)).
    + vm_compute. discriminate.
    + vm_compute. reflexivity.
Defined.

(** C4 as stated fails: "0.0000001 seconds" has a positive magnitude, and
    the parser returns the reference time itself. *)
Lemma tiny_age_counterexample :
  magnitude_of_token (lit "0.0000001")
  = Some (PyFloat (Fin false 7555786372591432 (-76)))
  /\ unit_of_token (lit "seconds") = Some Seconds
  /\ parse_age_text Sample.NOW0 (lit "0.0000001 seconds") = Ok (Some Sample.NOW0)
  /\ ~ Sample.NOW0 < Sample.NOW0.
Proof.
  repeat split; try (vm_compute; reflexivity). lia.
Qed.

(** * Further properties *)

Import Parts Config Run.

(** ** The table across a run *)

Lemma has_post_id_In (id : str) (t : Table) :
  has_post_id id t = true <-> In id (map post_id t).
Proof.
  unfold has_post_id. rewrite existsb_exists, in_map_iff.
  split; intros [r [H1 H2]]; exists r.
  - apply eqb_spec in H2. split; assumption.
  - split; [assumption | apply eqb_spec; assumption].
Qed.

Lemma has_post_id_app (id : str) (t u : Table) :
  has_post_id id (t ++ u) = has_post_id id t || has_post_id id u.
Proof. unfold has_post_id. apply existsb_app. Qed.

Lemma insert_do_nothing_app (r : Row) (t : Table) :
  insert_do_nothing r t = t ++ (if has_post_id (post_id r) t then [] else [r]).
Proof.
  unfold insert_do_nothing.
  destruct (has_post_id (post_id r) t); [rewrite app_nil_r|]; reflexivity.
Qed.

Lemma insert_do_nothing_nodup (r : Row) (t : Table) :
  NoDup (map post_id t) -> NoDup (map post_id (insert_do_nothing r t)).
Proof.
  intros H. unfold insert_do_nothing.
  destruct (has_post_id (post_id r) t) eqn:E; [exact H|].
  rewrite map_app. cbn [map].
  apply NoDup_app; [exact H | repeat constructor; intros [] | ].
  intros a Ha [Hb | []]. subst a.
  apply has_post_id_In in Ha. congruence.
Qed.

Lemma extract_fresh_step (env : Env) (sub : str) (p : PostEl) (created : Z)
    (st : State) :
  match extract_fresh env sub p created st with
  | (Ok (Save a), st') =>
      s_subreddit a = sub
      /\ rows st' = insert_do_nothing (row_of a (clock env (tick st))) (rows st)
  | (_, st') => rows st' = rows st
  end.
Proof.
  unfold extract_fresh.
  destruct (permalink_href p) as [[[|c h]|]|]; try reflexivity.
  unfold mbind, lift, insert_reddit_post, read_clock, ret.
  destruct (derive_post_id (resolve_post_url (c :: h))); [|reflexivity].
  destruct (match score_text p with
            | Some t => parse_score_text (strip t)
            | None => Ok 0
            end); [|reflexivity].
  split; reflexivity.
Qed.

Lemma process_post_step (env : Env) (sub : str) (p : PostEl) (st : State) :
  match process_post env sub p st with
  | (Ok (Save a), st') =>
      s_subreddit a = sub
      /\ exists seen, rows st' = insert_do_nothing (row_of a seen) (rows st)
  | (_, st') => rows st' = rows st
  end.
Proof.
  destruct (title_text p) as [title|] eqn:Ht;
    [|unfold process_post; rewrite Ht; reflexivity].
  destruct (strip title) as [|c t] eqn:Hs;
    [unfold process_post; rewrite Ht, Hs; reflexivity|].
  rewrite (process_post_unfold env sub p st title c t Ht Hs).
  pose proof (find_datetime_rows env (timestamp_anchor p) st) as Hr.
  destruct (find_datetime env (timestamp_anchor p) st) as [[[created|]|e] st1];
    cbn [snd] in Hr; try exact Hr.
  destruct (too_old (clock env (tick st1)) created) as [[|]|e]; try exact Hr.
  pose proof (extract_fresh_step env sub p created (ticked st1)) as Hx.
  destruct (extract_fresh env sub p created (ticked st1)) as [[[why|a]|e] st'];
    cbn [ticked rows] in Hx; try congruence.
  destruct Hx as [Hsub Hrows]. split; [exact Hsub|].
  eexists. rewrite Hrows, Hr. reflexivity.
Qed.

(** What one page does to the table. *)
Lemma scrape_subreddit_rows (env : Env) (sub : str) (posts : list PostEl) :
  forall st,
  exists added,
    rows (snd (scrape_subreddit env sub posts st)) = rows st ++ added
    /\ Forall (fun r => exists a,
                  In (Save a) (fst (scrape_subreddit env sub posts st))
                  /\ s_subreddit a = sub /\ asks_for a r) added
    /\ (List.length added
         <= valid_count (fst (scrape_subreddit env sub posts st)))%nat
    /\ (NoDup (map post_id (rows st)) ->
        NoDup (map post_id (rows st ++ added))).
Proof.
  induction posts as [|p rest IH]; intros st.
  - exists []. cbn. rewrite app_nil_r. repeat split; auto.
  - cbn [scrape_subreddit].
    pose proof (process_post_step env sub p st) as Hstep.
    destruct (process_post env sub p st) as [[o|e] st1].
    + destruct (IH st1) as [added [Hrows [Hall [Hlen Hnd]]]].
      destruct (scrape_subreddit env sub rest st1) as [os st2].
      cbn [fst snd] in *.
      destruct o as [why|a].
      * exists added. rewrite Hrows, Hstep. repeat split.
        -- eapply Forall_impl; [|exact Hall].
           intros r [a [Ha Hr]]. exists a. split; [right; exact Ha | exact Hr].
        -- exact Hlen.
        -- rewrite <- Hstep. exact Hnd.
      * destruct Hstep as [Hsub [seen Hins]].
        rewrite insert_do_nothing_app in Hins.
        set (new := if has_post_id (post_id (row_of a seen)) (rows st)
                    then [] else [row_of a seen]) in Hins.
        exists (new ++ added). rewrite Hrows, Hins, app_assoc. repeat split.
        -- apply Forall_app. split.
           ++ subst new.
              destruct (has_post_id (post_id (row_of a seen)) (rows st));
                constructor; [|constructor].
              exists a. split; [left; reflexivity|].
              split; [exact Hsub | exists seen; reflexivity].
           ++ eapply Forall_impl; [|exact Hall].
              intros r [a' [Ha Hr]]. exists a'.
              split; [right; exact Ha | exact Hr].
        -- rewrite length_app. unfold valid_count in *. cbn [filter is_save].
           subst new.
           destruct (has_post_id (post_id (row_of a seen)) (rows st));
             cbn [List.length]; lia.
        -- intros H. rewrite <- Hins. apply Hnd. rewrite Hins.
           subst new. rewrite <- insert_do_nothing_app.
           apply insert_do_nothing_nodup. exact H.
    + exists []. cbn [fst snd]. rewrite app_nil_r, Hstep.
      repeat split; auto.
Qed.

Lemma row_of_fields (a : Saved) (r : Row) :
  asks_for a r ->
  subreddit r = s_subreddit a /\ post_id r = s_post_id a
  /\ post_url r = s_post_url a /\ score r = s_score a
  /\ created_at r = s_created_at a /\ commented r = false.
Proof. intros [seen ->]. repeat split. Qed.

(** What one pass over the selected forums does to the table. *)
(** What one visit does to the table. *)
Lemma visit_rows (env : Env) (p : Page) (bits : nat -> N) (sub : str)
    (st : State) :
  exists added,
    rows (snd (visit env p bits sub st)) = rows st ++ added
    /\ Forall (fun r => subreddit r = sub /\ commented r = false) added
    /\ (NoDup (map post_id (rows st)) ->
        NoDup (map post_id (rows st ++ added))).
Proof.
  assert (Hnone : exists added,
             rows st = rows st ++ added
             /\ Forall (fun r => subreddit r = sub /\ commented r = false)
                       added
             /\ (NoDup (map post_id (rows st)) ->
                 NoDup (map post_id (rows st ++ added)))).
  { exists []. rewrite app_nil_r. repeat split; auto. }
  unfold visit. destruct (goto_ok p); [|exact Hnone].
  destruct (load_additional_posts p bits 3) as [pauses returned].
  destruct returned; [|exact Hnone].
  destruct (found p) as [posts|]; [|exact Hnone].
  destruct (scrape_subreddit_rows env sub posts st)
    as [added [Hr [Hall [_ Hnd]]]].
  destruct (scrape_subreddit env sub posts st) as [os st1].
  cbn [fst snd] in *.
  exists added. split; [exact Hr|]. split; [|exact Hnd].
  eapply Forall_impl; [|exact Hall].
  intros r [a [_ [Hsub Ha]]]. apply row_of_fields in Ha.
  destruct Ha as [H1 [_ [_ [_ [_ H6]]]]].
  split; [congruence | exact H6].
Qed.

(** What one pass over the selected forums does to the table. *)
Lemma visit_all_rows (env : Env) (browse : Browser) (d : Draws)
    (subs : list str) :
  forall i st,
  exists added,
    rows (snd (visit_all env browse d i subs st)) = rows st ++ added
    /\ Forall (fun r => In (subreddit r) subs /\ commented r = false) added
    /\ (NoDup (map post_id (rows st)) ->
        NoDup (map post_id (rows st ++ added))).
Proof.
  induction subs as [|s rest IH]; intros i st.
  - exists []. cbn. rewrite app_nil_r. repeat split; auto.
  - cbn [visit_all].
    destruct (visit_rows env (browse i s) (scroll_bits d i) s st)
      as [add1 [Hr1 [Hall1 Hnd1]]].
    destruct (visit env (browse i s) (scroll_bits d i) s st) as [evs1 st1].
    cbn [fst snd] in *.
    destruct (IH (S i) st1) as [add2 [Hr2 [Hall2 Hnd2]]].
    destruct (visit_all env browse d (S i) rest st1) as [evs st2].
    cbn [fst snd] in *.
    exists (add1 ++ add2). rewrite Hr2, Hr1, app_assoc. repeat split.
    + apply Forall_app. split.
      * eapply Forall_impl; [|exact Hall1].
        intros r [H1 H2]. split; [left; congruence | exact H2].
      * eapply Forall_impl; [|exact Hall2].
        intros r [H1 H2]. split; [right; exact H1 | exact H2].
    + intros H. rewrite <- Hr1. apply Hnd2. rewrite Hr1. apply Hnd1, H.
Qed.

Lemma scrape_subreddit_length (env : Env) (sub : str) (posts : list PostEl) :
  forall st,
    (List.length (fst (scrape_subreddit env sub posts st))
     <= List.length posts)%nat.
Proof.
  induction posts as [|p rest IH]; intros st; cbn [scrape_subreddit];
    [cbn; lia|].
  destruct (process_post env sub p st) as [[o|e] st1]; [|cbn; lia].
  specialize (IH st1).
  destruct (scrape_subreddit env sub rest st1). cbn in *. lia.
Qed.

(** X1. The table is append-only.  [scrape_subreddit] leaves every row it
    found in place and unchanged, and each row it adds at the end belongs
    to the forum being scraped, is marked as not commented and carries the
    arguments of one of the inserts the loop made.  A pass over several
    forums likewise only adds rows, each for one of the forums visited. *)
Theorem rows_are_only_appended :
  (forall env sub posts st,
      exists added,
        rows (snd (scrape_subreddit env sub posts st)) = rows st ++ added
        /\ Forall (fun r =>
             subreddit r = sub /\ commented r = false
             /\ exists a,
                  In (Save a) (fst (scrape_subreddit env sub posts st))
                  /\ asks_for a r) added)
  /\ (forall env browse d i subs st,
        exists added,
          rows (snd (visit_all env browse d i subs st)) = rows st ++ added
          /\ Forall (fun r => In (subreddit r) subs /\ commented r = false)
                    added).
Proof.
  split.
  - intros env sub posts st.
    destruct (scrape_subreddit_rows env sub posts st)
      as [added [Hrows [Hall _]]].
    exists added. split; [exact Hrows|].
    eapply Forall_impl; [|exact Hall].
    intros r [a [Hin [Hsub Hr]]].
    destruct (row_of_fields a r Hr) as [H1 [_ [_ [_ [_ H6]]]]].
    split; [congruence|]. split; [exact H6|]. exists a. split; assumption.
  - intros env browse d i subs st.
    destruct (visit_all_rows env browse d subs i st) as [added [Hrows [Hall _]]].
    exists added. split; assumption.
Qed.

(** X2. [valid_count] bounds the rows a page adds from above: the loop
    counts every call of the insert, also one the database ignores.  It
    never exceeds the number of posts handled, which never exceeds the
    number of posts found. *)
Theorem valid_count_bounds_new_rows (env : Env) (sub : str)
    (posts : list PostEl) (st : State) :
  let os := fst (scrape_subreddit env sub posts st) in
  let st' := snd (scrape_subreddit env sub posts st) in
  (List.length (rows st') <= List.length (rows st) + valid_count os)%nat
  /\ (valid_count os <= List.length os)%nat
  /\ (List.length os <= List.length posts)%nat.
Proof.
  intros os st'. subst os st'.
  destruct (scrape_subreddit_rows env sub posts st)
    as [added [Hrows [_ [Hlen _]]]].
  rewrite Hrows, length_app. split; [lia|]. split.
  - unfold valid_count. apply filter_length_le.
  - apply scrape_subreddit_length.
Qed.

(** The bound of X2 can be strict: a page that shows one post twice counts
    two valid posts and stores one row. *)
Example duplicate_post_counted_twice :
  let r := scrape_subreddit Sample.env (lit "x")
             [Sample.ten_minutes_old; Sample.ten_minutes_old] Sample.start in
  valid_count (fst r) = 2%nat /\ List.length (rows (snd r)) = 1%nat.
Proof. vm_compute. split; reflexivity. Qed.

(** X3. The post ids of the table stay pairwise distinct: an insert, the
    scraping of a page and a pass over any number of forums each leave a
    table without duplicate post ids without duplicates. *)
Theorem post_ids_stay_unique :
  (forall env sub id url sc created st,
      NoDup (map post_id (rows st)) ->
      NoDup (map post_id
               (rows (snd (insert_reddit_post env sub id url sc created st)))))
  /\ (forall env sub posts st,
        NoDup (map post_id (rows st)) ->
        NoDup (map post_id (rows (snd (scrape_subreddit env sub posts st)))))
  /\ (forall env browse d i subs st,
        NoDup (map post_id (rows st)) ->
        NoDup (map post_id (rows (snd (visit_all env browse d i subs st))))).
Proof.
  split; [|split].
  - intros env sub id url sc created st H. cbn.
    apply insert_do_nothing_nodup. exact H.
  - intros env sub posts st H.
    destruct (scrape_subreddit_rows env sub posts st)
      as [added [Hrows [_ [_ Hnd]]]].
    rewrite Hrows. apply Hnd, H.
  - intros env browse d i subs st H.
    destruct (visit_all_rows env browse d subs i st) as [added [Hrows [_ Hnd]]].
    rewrite Hrows. apply Hnd, H.
Qed.

Lemma post_ids_stay_unique_witness :
  NoDup (map post_id (rows Sample.start))
  /\ NoDup (map post_id
       (rows (snd (visit_all Sample.env SamplePass.browse SamplePass.draws 0
                     SUBREDDITS Sample.start)))).
Proof.
  assert (H : NoDup (map post_id (rows Sample.start))) by constructor.
  split; [exact H|].
  apply (proj2 (proj2 post_ids_stay_unique)). exact H.
Defined.

(** X4. Looking a post id up after an insert: the id inserted is in the
    table, and every other id is in the table exactly if it was before. *)
Theorem lookup_after_insert (env : Env) (sub id url : str) (sc created : Z)
    (st : State) (id' : str) :
  has_post_id id'
    (rows (snd (insert_reddit_post env sub id url sc created st)))
  = has_post_id id' (rows st) || Str.eqb id id'.
Proof.
  cbn -[insert_do_nothing has_post_id].
  rewrite insert_do_nothing_app, has_post_id_app. cbn [post_id].
  destruct (has_post_id id (rows st)) eqn:E.
  - cbn. destruct (Str.eqb id id') eqn:E'.
    + apply eqb_spec in E'. subst id'. rewrite E. reflexivity.
    + reflexivity.
  - cbn. rewrite orb_false_r. reflexivity.
Qed.

(** X5. An exception ends the page: when handling a post raises, the
    [except Exception] around the loop is entered, so the posts after it
    are not handled, whatever they are, and the table is as the posts
    before it left it. *)
Theorem exception_ends_the_page (env : Env) (sub : str)
    (before : list PostEl) (p : PostEl) (after : list PostEl) (e : exn) :
  forall st,
    fst (process_post env sub p (snd (scrape_subreddit env sub before st)))
    = Raise e ->
    fst (scrape_subreddit env sub (before ++ p :: after) st)
    = fst (scrape_subreddit env sub before st)
    /\ rows (snd (scrape_subreddit env sub (before ++ p :: after) st))
       = rows (snd (scrape_subreddit env sub before st)).
Proof.
  induction before as [|b bs IH]; intros st H.
  - cbn [app scrape_subreddit fst snd] in *.
    pose proof (process_post_step env sub p st) as Hstep.
    destruct (process_post env sub p st) as [[o|e'] st1];
      [discriminate H|].
    split; [reflexivity | exact Hstep].
  - cbn [app scrape_subreddit] in *.
    destruct (process_post env sub b st) as [[o|e'] st1].
    + specialize (IH st1).
      destruct (scrape_subreddit env sub bs st1) as [os1 st2].
      destruct (scrape_subreddit env sub (bs ++ p :: after) st1) as [os2 st3].
      cbn [fst snd] in *. destruct (IH H) as [H1 H2].
      split; [congruence | exact H2].
    + split; reflexivity.
Qed.

Lemma exception_ends_the_page_witness :
  fst (scrape_subreddit Sample.env (lit "x")
         (Sample.page ++ SamplePass.infinite_score :: Sample.page) Sample.start)
  = fst (scrape_subreddit Sample.env (lit "x") Sample.page Sample.start).
Proof.
  apply (exception_ends_the_page Sample.env (lit "x") Sample.page
           SamplePass.infinite_score Sample.page OverflowError Sample.start).
  vm_compute. reflexivity.
Defined.

(** ** Shuffling *)

Lemma set_item_length {A : Type} (x : list A) (i : nat) (v : A) :
  (i < List.length x)%nat -> List.length (set_item x i v) = List.length x.
Proof.
  intros Hi. unfold set_item.
  rewrite length_app, length_firstn. cbn [List.length].
  rewrite length_skipn. lia.
Qed.

Lemma nth_error_set_item {A : Type} (x : list A) (i : nat) (v : A) (n : nat) :
  (i < List.length x)%nat ->
  nth_error (set_item x i v) n
  = if Nat.eqb n i then Some v else nth_error x n.
Proof.
  intros Hi. unfold set_item.
  assert (Hf : List.length (firstn i x) = i)
    by (rewrite length_firstn; lia).
  destruct (Nat.eqb_spec n i) as [->|Hne].
  - rewrite nth_error_app2 by lia. rewrite Hf, Nat.sub_diag. reflexivity.
  - destruct (Nat.lt_ge_cases n i) as [Hlt|Hge].
    + rewrite nth_error_app1 by lia. rewrite nth_error_firstn.
      destruct (Nat.ltb_spec n i); [reflexivity | lia].
    + rewrite nth_error_app2 by lia. rewrite Hf.
      destruct (n - i)%nat as [|m] eqn:E; [lia|]. cbn [nth_error].
      rewrite nth_error_skipn. f_equal. lia.
Qed.

Lemma swap_permutation {A : Type} (x : list A) (i j : nat) :
  (i < List.length x)%nat -> (j < List.length x)%nat ->
  exists y,
    swap x i j = Ok y /\ Permutation x y /\ List.length y = List.length x.
Proof.
  intros Hi Hj. unfold swap.
  destruct (nth_error x j) as [xj|] eqn:Ej;
    [|apply nth_error_None in Ej; lia].
  destruct (nth_error x i) as [xi|] eqn:Ei;
    [|apply nth_error_None in Ei; lia].
  eexists. split; [reflexivity|].
  assert (Hlen : List.length (set_item (set_item x i xj) j xi)
                 = List.length x).
  { rewrite set_item_length; rewrite set_item_length; lia. }
  split; [|exact Hlen].
  apply Permutation_nth_error. split; [now rewrite Hlen|].
  exists (fun n => if Nat.eqb n j then i else if Nat.eqb n i then j else n).
  split.
  - intros a b.
    destruct (Nat.eqb_spec a j), (Nat.eqb_spec a i),
             (Nat.eqb_spec b j), (Nat.eqb_spec b i); lia.
  - intros n.
    rewrite nth_error_set_item by (rewrite set_item_length; lia).
    rewrite nth_error_set_item by lia.
    destruct (Nat.eqb_spec n j) as [->|_]; [now rewrite Ei|].
    destruct (Nat.eqb_spec n i) as [->|_]; [now rewrite Ej|].
    reflexivity.
Qed.

Lemma shuffle_from_permutation {A : Type} (rb : nat -> nat) :
  (forall m, (0 < m)%nat -> (rb m < m)%nat) ->
  forall (i : nat) (x : list A),
    (i < List.length x)%nat \/ i = O ->
    exists y, shuffle_from rb i x = Ok y /\ Permutation x y.
Proof.
  intros Hrb. induction i as [|i IH]; intros x Hi.
  - exists x. split; [reflexivity | apply Permutation_refl].
  - destruct Hi as [Hi|Hi]; [|discriminate Hi].
    pose proof (Hrb (S (S i)) ltac:(lia)) as Hj.
    cbn [shuffle_from].
    destruct (swap_permutation x (S i) (rb (S (S i))))
      as (x' & Hs & Hp & Hl); [lia | lia |].
    rewrite Hs. cbn [bind].
    destruct (IH x') as (y & Hy & Hpy); [left; lia|].
    exists y. split; [exact Hy|].
    exact (Permutation_trans Hp Hpy).
Qed.

(** [random.shuffle] rearranges: it returns, and what it leaves is a
    permutation of what it was given. *)
Lemma shuffle_permutation {A : Type} (x : list A) (rb : nat -> nat) :
  (forall m, (0 < m)%nat -> (rb m < m)%nat) ->
  exists y, shuffle x rb = Ok y /\ Permutation x y.
Proof.
  intros Hrb. unfold shuffle.
  apply (shuffle_from_permutation rb Hrb).
  destruct x; cbn; [right; reflexivity | left; lia].
Qed.

(** ** The pause between two scrolls *)

(** A product of two floats without sign is the rounded product. *)
Lemma mul_form (q1 q2 : N) (k1 k2 : Z) :
  exists n d,
    mul (Fin false q1 k1) (Fin false q2 k2) = RN false n d
    /\ 0 <= n /\ 0 < d
    /\ n * pow2 (- k1) * pow2 (- k2)
       = Z.of_N q1 * pow2 k1 * (Z.of_N q2 * pow2 k2) * d.
Proof.
  exists (shl (Z.of_N q1 * Z.of_N q2) (k1 + k2)), (shl 1 (- (k1 + k2))).
  pose proof (pow2_pos (k1 + k2)). pose proof (pow2_pos (- (k1 + k2))).
  pose proof (N2Z.is_nonneg q1). pose proof (N2Z.is_nonneg q2).
  split; [reflexivity|]. unfold shl. split; [nia|]. split; [lia|].
  pose proof (pow2_add k1 k2) as E.
  transitivity (Z.of_N q1 * Z.of_N q2
                * (pow2 (k1 + k2) * pow2 (- k1) * pow2 (- k2))); [ring|].
  rewrite E. ring.
Qed.

(** A sum of two floats without sign, the first not zero, is the rounded
    sum. *)
Lemma add_form (q1 q2 : N) (k1 k2 : Z) :
  (0 < q1)%N ->
  exists n d,
    add (Fin false q1 k1) (Fin false q2 k2) = RN false n d
    /\ 0 < n /\ 0 < d
    /\ n * pow2 (- k1) * pow2 (- k2)
       = (Z.of_N q1 * pow2 k1 * pow2 (- k2)
          + Z.of_N q2 * pow2 k2 * pow2 (- k1)) * d.
Proof.
  intros Hq1. unfold add, signed.
  set (e := Z.min k1 k2).
  set (a := Z.of_N q1 * 2 ^ (k1 - e) + Z.of_N q2 * 2 ^ (k2 - e)).
  assert (H1 : 0 < 2 ^ (k1 - e)) by (apply Z.pow_pos_nonneg; lia).
  assert (H2 : 0 < 2 ^ (k2 - e)) by (apply Z.pow_pos_nonneg; lia).
  pose proof (N2Z.is_nonneg q2).
  assert (Ha : 0 < a) by (subst a; nia).
  destruct (Z.eqb_spec a 0); [lia|].
  destruct (Z.ltb_spec a 0); [lia|].
  rewrite Z.abs_eq by lia. unfold RN2.
  exists (shl a e), (shl 1 (- e)).
  pose proof (pow2_pos e). pose proof (pow2_pos (- e)).
  split; [reflexivity|]. unfold shl. split; [nia|]. split; [lia|].
  pose proof (pow2_split e k1 ltac:(lia)) as E1.
  pose proof (pow2_split e k2 ltac:(lia)) as E2.
  subst a. rewrite Z.mul_1_l.
  transitivity (Z.of_N q1 * pow2 (- k2)
                  * (pow2 (- k1) * pow2 e * 2 ^ (k1 - e))
                + Z.of_N q2 * pow2 (- k1)
                  * (pow2 (- k2) * pow2 e * 2 ^ (k2 - e))); [ring|].
  rewrite <- E1, <- E2. ring.
Qed.

(** [random.uniform(0.8, 1.4)] lies between the floats 0.8 and 1.4. *)
Lemma uniform_range (k : N) :
  (k < 2 ^ 53)%N ->
  exists q e,
    uniform F_0_8 F_1_4 (random k) = Fin false q e
    /\ 7205759403792794 * pow2 (- e) <= Z.of_N q * pow2 e * 2 ^ 53
    /\ Z.of_N q * pow2 e * 2 ^ 52 <= 6305039478318694 * pow2 (- e).
Proof.
  intros Hk.
  assert (Hk' : Z.of_N k < 2 ^ 53).
  { change (2 ^ 53) with (Z.of_N (2 ^ 53)). lia. }
  pose proof (N2Z.is_nonneg k) as Hk0.
  unfold uniform, random.
  change (sub F_1_4 F_0_8) with (Fin false 5404319552844594 (-53)).
  change F_0_8 with (Fin false 7205759403792794 (-53)).
  destruct (mul_form 5404319552844594 k (-53) (-53))
    as (n1 & d1 & E1 & Hn1 & Hd1 & Hv1).
  rewrite E1.
  change (pow2 (- -53)) with (2 ^ 53) in Hv1.
  change (pow2 (-53)) with 1 in Hv1.
  destruct (RN_upper false n1 d1 5404319552844594 (-53))
    as (q1 & e1 & Eq1 & Hu1);
    [ exact Hn1 | exact Hd1 | split; [reflexivity | reflexivity]
    | unfold emin; lia
    | change (pow2 (-53)) with 1; change (pow2 (- -53)) with (2 ^ 53);
      apply Z.lt_trans with (2 ^ 53); [reflexivity|];
      apply Z.lt_le_trans with (2 ^ 1024 * 1);
      [ rewrite Z.mul_1_r; apply Z.pow_lt_mono_r; lia
      | apply Z.mul_le_mono_nonneg_l; [apply Z.pow_nonneg; lia | lia] ]
    | change (pow2 (-53)) with 1; change (pow2 (- -53)) with (2 ^ 53); nia |].
  rewrite Eq1.
  change (pow2 (-53)) with 1 in Hu1.
  change (pow2 (- -53)) with (2 ^ 53) in Hu1.
  destruct (add_form 7205759403792794 q1 (-53) e1 eq_refl)
    as (n & d & E & Hn & Hd & Hv).
  rewrite E.
  change (pow2 (- -53)) with (2 ^ 53) in Hv.
  change (pow2 (-53)) with 1 in Hv.
  pose proof (pow2_pos e1) as Hp1. pose proof (pow2_pos (- e1)) as Hp2.
  pose proof (N2Z.is_nonneg q1) as Hq1.
  destruct (RN_upper false n d 6305039478318694 (-52))
    as (q & e & Eq & Hu);
    [ lia | exact Hd | split; [reflexivity | reflexivity]
    | unfold emin; lia
    | change (pow2 (-52)) with 1; change (pow2 (- -52)) with (2 ^ 52);
      apply Z.lt_trans with (2 ^ 53); [reflexivity|];
      apply Z.lt_le_trans with (2 ^ 1024 * 1);
      [ rewrite Z.mul_1_r; apply Z.pow_lt_mono_r; lia
      | apply Z.mul_le_mono_nonneg_l; [apply Z.pow_nonneg; lia | lia] ]
    | change (pow2 (-52)) with 1; change (pow2 (- -52)) with (2 ^ 52) |].
  { apply (Z.mul_le_mono_pos_r _ _ (2 * pow2 (- e1))); [lia|].
    replace (n * 2 ^ 52 * (2 * pow2 (- e1)))
      with (n * 2 ^ 53 * pow2 (- e1))
      by (change (2 ^ 53) with (2 ^ 52 * 2); ring).
    rewrite Hv. nia. }
  destruct (RN_lower false n d 7205759403792794 (-53))
    as [Einf | (q' & e' & Eq' & Hl)];
    [ exact Hn | exact Hd | split; [reflexivity | reflexivity]
    | unfold emin; lia
    | change (pow2 (-53)) with 1; change (pow2 (- -53)) with (2 ^ 53)
    | congruence | ].
  { apply (Z.mul_le_mono_pos_r _ _ (pow2 (- e1))); [lia|].
    rewrite Hv. nia. }
  rewrite Eq in Eq'. injection Eq' as <- <-.
  exists q, e. split; [exact Eq|].
  change (pow2 (-53)) with 1 in Hl.
  change (pow2 (- -53)) with (2 ^ 53) in Hl.
  change (pow2 (-52)) with 1 in Hu.
  change (pow2 (- -52)) with (2 ^ 52) in Hu.
  split; lia.
Qed.

Lemma float_Q_le (q : N) (e a b : Z) :
  0 < b ->
  (Qmake a (Z.to_pos b) <= float_Q (Fin false q e))%Q
  <-> a * pow2 (- e) <= Z.of_N q * pow2 e * b.
Proof.
  intros Hb. pose proof (pow2_pos (- e)).
  unfold float_Q, signed, Qle. cbn [Qnum Qden].
  rewrite !Z2Pos.id by lia. reflexivity.
Qed.

Lemma float_Q_ge (q : N) (e a b : Z) :
  0 < b ->
  (float_Q (Fin false q e) <= Qmake a (Z.to_pos b))%Q
  <-> Z.of_N q * pow2 e * b <= a * pow2 (- e).
Proof.
  intros Hb. pose proof (pow2_pos (- e)).
  unfold float_Q, signed, Qle. cbn [Qnum Qden].
  rewrite !Z2Pos.id by lia. reflexivity.
Qed.

(** Each pause of [load_additional_posts] takes 0.8 to 1.4 seconds. *)
Lemma scroll_pause_seconds (k : N) :
  (k < 2 ^ 53)%N ->
  (4 # 5 <= seconds_Q (PyFloat (uniform F_0_8 F_1_4 (random k))) <= 7 # 5)%Q.
Proof.
  intros Hk. destruct (uniform_range k Hk) as (q & e & E & Hlo & Hhi).
  rewrite E. cbn [seconds_Q].
  pose proof (pow2_pos e). pose proof (pow2_pos (- e)).
  pose proof (N2Z.is_nonneg q).
  split.
  - apply (float_Q_le q e 4 5); [lia|].
    assert (4 * 2 ^ 53 <= 5 * 7205759403792794) by (vm_compute; discriminate).
    nia.
  - apply (float_Q_ge q e 7 5); [lia|].
    assert (5 * 6305039478318694 <= 7 * 2 ^ 52) by (vm_compute; discriminate).
    nia.
Qed.

(** ** Selection and order of one pass *)

Lemma pick_all {A : Type} (l : list A) :
  forall pre,
    flat_map (pick (pre ++ l)) (seq (List.length pre) (List.length l)) = l.
Proof.
  induction l as [|a l IH]; intros pre; [reflexivity|].
  cbn [List.length seq flat_map]. unfold pick at 1.
  rewrite nth_error_app2, Nat.sub_diag by lia. cbn [nth_error app].
  f_equal. specialize (IH (pre ++ [a])).
  rewrite <- app_assoc, length_app in IH. cbn [List.length app] in IH.
  rewrite Nat.add_1_r in IH. exact IH.
Qed.

Lemma picked_permutation {A : Type} (l : list A) (picks : list nat) :
  valid_picks (List.length l) (List.length l) picks ->
  Permutation l (flat_map (pick l) picks).
Proof.
  intros [Hlen [Hnd Hall]].
  assert (Hp : Permutation picks (seq 0 (List.length l))).
  { apply NoDup_Permutation_bis.
    - exact Hnd.
    - rewrite length_seq. lia.
    - intros i Hi. rewrite Forall_forall in Hall. apply in_seq.
      specialize (Hall i Hi). lia. }
  rewrite (Permutation_flat_map (pick l) Hp).
  pose proof (pick_all l []) as H. cbn [app List.length] in H.
  rewrite H. apply Permutation_refl.
Qed.

(** ** One pass of the main loop *)

Lemma total_sleep_app (a b : list event) :
  (total_sleep (a ++ b) == total_sleep a + total_sleep b)%Q.
Proof.
  unfold total_sleep. induction a as [|e a IH]; cbn [app map fold_right].
  - lra.
  - rewrite IH. lra.
Qed.

Lemma forums_visited_app (a b : list event) :
  forums_visited (a ++ b) = forums_visited a ++ forums_visited b.
Proof. unfold forums_visited. apply flat_map_app. Qed.

Lemma inject_Z_succ (n : nat) :
  (inject_Z (Z.of_nat (S n)) == inject_Z (Z.of_nat n) + 1)%Q.
Proof.
  rewrite Nat2Z.inj_succ. unfold Z.succ. rewrite inject_Z_plus. reflexivity.
Qed.

(** The pauses of [load_additional_posts]: one per round made, each of
    0.8 to 1.4 seconds. *)
Lemma load_additional_posts_events (p : Page) (bits : nat -> N) :
  (forall j, (bits j < 2 ^ 53)%N) ->
  forall remaining j,
    let evs := fst (load_additional_posts_from p bits j remaining) in
    forums_visited evs = []
    /\ (0 <= total_sleep evs
        <= (7 # 5) * inject_Z (Z.of_nat remaining))%Q.
Proof.
  intros Hb. induction remaining as [|n IH]; intros j; cbv zeta.
  - split; [reflexivity|].
    change (total_sleep (fst (load_additional_posts_from p bits j 0)))
      with 0%Q.
    change (inject_Z (Z.of_nat 0)) with 0%Q. lra.
  - cbn [load_additional_posts_from].
    pose proof (inject_Z_succ n) as Hs.
    assert (0 <= inject_Z (Z.of_nat n))%Q
      by (change 0%Q with (inject_Z 0); rewrite <- Zle_Qle; lia).
    destruct (wheel_ok p j).
    + specialize (IH (S j)). cbv zeta in IH.
      destruct (load_additional_posts_from p bits (S j) n) as [evs r].
      cbn [fst] in *. destruct IH as [Hv Ht]. split.
      * unfold forums_visited in *. cbn. exact Hv.
      * pose proof (scroll_pause_seconds (bits j) (Hb j)) as Hp.
        unfold total_sleep in *. cbn [map fold_right slept].
        lra.
    + split; [reflexivity|].
      change (total_sleep (fst (@nil event, false))) with 0%Q. lra.
Qed.

(** One visit: the forum counts as visited, whatever happens to its
    page, and at most three pauses are slept. *)
Lemma visit_events (env : Env) (p : Page) (bits : nat -> N) (sub : str)
    (st : State) :
  (forall j, (bits j < 2 ^ 53)%N) ->
  forums_visited (fst (visit env p bits sub st)) = [sub]
  /\ (0 <= total_sleep (fst (visit env p bits sub st)) <= 21 # 5)%Q.
Proof.
  intros Hb. unfold visit.
  destruct (goto_ok p).
  2:{ split; [reflexivity|].
      change (total_sleep (fst ([Visit sub []], st))) with (0 + 0)%Q. lra. }
  pose proof (load_additional_posts_events p bits Hb 3 0%nat) as H.
  cbv zeta in H. unfold load_additional_posts.
  destruct (load_additional_posts_from p bits 0 3) as [pauses returned].
  cbn [fst] in H. destruct H as [Hv Ht].
  assert (Hend : forall os,
             forums_visited (pauses ++ [Visit sub os]) = [sub]
             /\ (0 <= total_sleep (pauses ++ [Visit sub os]) <= 21 # 5)%Q).
  { intros os. rewrite forums_visited_app, Hv. split; [reflexivity|].
    rewrite total_sleep_app.
    change (total_sleep [Visit sub os]) with (0 + 0)%Q.
    change (inject_Z (Z.of_nat 3)) with (3 # 1)%Q in Ht. lra. }
  destruct returned; [|apply Hend].
  destruct (found p) as [posts|]; [|apply Hend].
  destruct (scrape_subreddit env sub posts st) as [os st1].
  cbn [fst]. apply Hend.
Qed.

Lemma visit_all_events (env : Env) (browse : Browser) (d : Draws)
    (subs : list str) :
  (forall i j, (scroll_bits d i j < 2 ^ 53)%N) ->
  (forall i, SUBREDDIT_COOLDOWN_MIN_SEC <= cooldown d i
             <= SUBREDDIT_COOLDOWN_MAX_SEC) ->
  forall i st,
    forums_visited (fst (visit_all env browse d i subs st)) = subs
    /\ (inject_Z SUBREDDIT_COOLDOWN_MIN_SEC
          * inject_Z (Z.of_nat (List.length subs))
        <= total_sleep (fst (visit_all env browse d i subs st))
        <= (inject_Z SUBREDDIT_COOLDOWN_MAX_SEC + (21 # 5))
           * inject_Z (Z.of_nat (List.length subs)))%Q.
Proof.
  intros Hb Hc. induction subs as [|s rest IH]; intros i st.
  - split; [reflexivity|].
    change (total_sleep (fst (visit_all env browse d i [] st))) with 0%Q.
    change (inject_Z (Z.of_nat (List.length (@nil str)))) with 0%Q. lra.
  - cbn [visit_all].
    destruct (visit_events env (browse i s) (scroll_bits d i) s st (Hb i))
      as [Hv1 Ht1].
    destruct (visit env (browse i s) (scroll_bits d i) s st) as [evs1 st1].
    destruct (IH (S i) st1) as [Hv Ht].
    destruct (visit_all env browse d (S i) rest st1) as [evs st2].
    cbn [fst snd] in *. split.
    + rewrite forums_visited_app, Hv1.
      unfold forums_visited in *. cbn. rewrite Hv. reflexivity.
    + rewrite total_sleep_app.
      assert (E : (total_sleep (Sleep (PyInt (cooldown d i)) :: evs)
                   == inject_Z (cooldown d i) + total_sleep evs)%Q)
        by reflexivity.
      rewrite E. cbn [List.length].
      pose proof (inject_Z_succ (List.length rest)) as Hs.
      destruct (Hc i) as [Hlo Hhi].
      rewrite Zle_Qle in Hlo, Hhi.
      unfold SUBREDDIT_COOLDOWN_MIN_SEC, SUBREDDIT_COOLDOWN_MAX_SEC in *.
      change (inject_Z 13) with (13 # 1)%Q in *.
      change (inject_Z 31) with (31 # 1)%Q in *.
      set (n := inject_Z (Z.of_nat (List.length rest))) in *.
      set (c := inject_Z (cooldown d i)) in *.
      clearbody n c. rewrite Hs. lra.
Qed.

Lemma loop_pass_unfold (env : Env) (browse : Browser) (session : Session)
    (subs : list str) (d : Draws) (st : State) :
  subs <> [] -> drawn_for (List.length subs) d ->
  let k := Z.to_nat (Z.min (Z.of_nat (List.length subs)) (batch d)) in
  let selected := flat_map (pick subs) (firstn k (sampled d)) in
  exists order,
    Permutation selected order
    /\ List.length selected = k /\ (0 < k)%nat
    /\ NoDup (firstn k (sampled d))
    /\ loop_pass env browse session subs d st
       = if opens session then
           if closes session
           then (Returns,
                 fst (visit_all env browse d 0 order st)
                   ++ [Sleep (PyInt (loop_wait d))],
                 snd (visit_all env browse d 0 order st))
           else (BrowserRaises,
                 fst (visit_all env browse d 0 order st),
                 snd (visit_all env browse d 0 order st))
         else (BrowserRaises, [], st).
Proof.
  intros Hne (Hb & Hpicks & Hrb & _) k selected.
  unfold BATCH_MIN, BATCH_MAX in Hb.
  destruct (firstn_valid (List.length subs) k (sampled d) Hpicks)
    as (Hlen & Hnd & Hlt); [subst k; lia|].
  assert (Hsel : List.length selected = k).
  { unfold selected. rewrite picked_length by exact Hlt. exact Hlen. }
  assert (Hk : (0 < k)%nat).
  { destruct subs; [congruence|]. subst k. cbn [List.length]. lia. }
  destruct (shuffle_permutation selected (randbelow d) Hrb)
    as (order & Hsh & Hperm).
  exists order. split; [exact Hperm|]. split; [exact Hsel|].
  split; [exact Hk|]. split; [exact Hnd|].
  unfold loop_pass, get_subreddits_for_this_loop, sample.
  destruct subs as [|s0 subs']; [congruence|].
  set (subs := s0 :: subs') in *.
  assert (Hr : (Z.min (Z.of_nat (List.length subs)) (batch d) <? 0)
               || (Z.of_nat (List.length subs)
                   <? Z.min (Z.of_nat (List.length subs)) (batch d)) = false).
  { apply orb_false_intro; apply Z.ltb_ge; lia. }
  rewrite Hr. fold k. fold selected.
  destruct selected as [|x xs] eqn:E; [cbn in Hsel; lia|].
  rewrite Hsh.
  destruct (opens session); [|reflexivity].
  destruct (visit_all env browse d 0 order st) as [evs st'].
  destruct (closes session); reflexivity.
Qed.

Lemma sample_pass_drawn :
  drawn_for (List.length SUBREDDITS) SamplePass.draws.
Proof.
  unfold drawn_for. cbn [SamplePass.draws batch sampled randbelow scroll_bits
                         cooldown loop_wait backoff].
  split; [unfold BATCH_MIN, BATCH_MAX; lia|].
  split; [|split; [|split; [|split; [|split]]]].
  - repeat split.
    + repeat (constructor;
              [ simpl; intros H;
                repeat (destruct H as [H|H]; [discriminate H|]); exact H | ]).
      constructor.
    + repeat constructor.
  - intros m Hm. apply Nat.div_lt; lia.
  - intros i j. pose proof (Nat.mod_upper_bound (i + j) 8 ltac:(lia)) as H.
    apply N.lt_le_trans with (8 * 2 ^ 50)%N; [|vm_compute; discriminate].
    apply N.mul_lt_mono_pos_r; [reflexivity | lia].
  - intros i. unfold SUBREDDIT_COOLDOWN_MIN_SEC, SUBREDDIT_COOLDOWN_MAX_SEC.
    pose proof (Nat.mod_upper_bound i 19). lia.
  - unfold LOOP_DELAY_MIN_SEC, LOOP_DELAY_MAX_SEC. lia.
  - unfold BACKOFF_MIN_SEC, BACKOFF_MAX_SEC. lia.
Defined.

(** X6. One pass of the main loop, for draws within the contract of
    [random].  If the browser cannot be opened the pass raises before any
    forum is visited.  Otherwise it visits each selected forum exactly
    once, whatever happens on the pages: the forums visited are pairwise
    distinct names of the list, [min(len, r)] of them, the size the code
    computes; the pass then returns, unless closing the browser raises.
    When the list is no longer than [BATCH_MIN], as the configured one
    is, every such pass visits every forum of the list, in some order. *)
Theorem pass_visits_each_selected_forum_once (env : Env) (browse : Browser)
    (session : Session) (subs : list str) (d : Draws) (st : State) :
  subs <> [] -> NoDup subs -> drawn_for (List.length subs) d ->
  exists ending evs st',
    loop_pass env browse session subs d st = (ending, evs, st')
    /\ (opens session = false ->
        ending = BrowserRaises /\ evs = [] /\ st' = st)
    /\ (opens session = true ->
        ending = (if closes session then Returns else BrowserRaises)
        /\ NoDup (forums_visited evs)
        /\ incl (forums_visited evs) subs
        /\ Z.of_nat (List.length (forums_visited evs))
           = Z.min (Z.of_nat (List.length subs)) (batch d)
        /\ (Z.of_nat (List.length subs) <= BATCH_MIN ->
            Permutation subs (forums_visited evs))).
Proof.
  intros Hne Hnd Hd.
  destruct (loop_pass_unfold env browse session subs d st Hne Hd)
    as (order & Hperm & Hlen & Hk & Hpd & Hpass).
  destruct Hd as (Hb & Hs & _ & Hbits & Hc & _).
  set (k := Z.to_nat (Z.min (Z.of_nat (List.length subs)) (batch d))) in *.
  set (selected := flat_map (pick subs) (firstn k (sampled d))) in *.
  destruct (visit_all_events env browse d order Hbits Hc 0%nat st) as [Hv _].
  assert (Hvis : forall w,
             forums_visited (fst (visit_all env browse d 0 order st)
                               ++ [Sleep w]) = order).
  { intros w. rewrite forums_visited_app, Hv. apply app_nil_r. }
  assert (Hfacts : NoDup order /\ incl order subs
                   /\ Z.of_nat (List.length order)
                      = Z.min (Z.of_nat (List.length subs)) (batch d)
                   /\ (Z.of_nat (List.length subs) <= BATCH_MIN ->
                       Permutation subs order)).
  { split; [|split; [|split]].
    - apply (Permutation_NoDup Hperm). apply picked_nodup; assumption.
    - intros x Hx. apply (Permutation_in _ (Permutation_sym Hperm)) in Hx.
      exact (picked_incl subs _ x Hx).
    - rewrite <- (Permutation_length Hperm), Hlen.
      unfold BATCH_MIN in Hb. subst k. lia.
    - intros Hshort. apply (Permutation_trans (l' := selected)); [|exact Hperm].
      apply picked_permutation.
      assert (Ek : k = List.length subs)
        by (unfold BATCH_MIN in *; subst k; lia).
      unfold selected. rewrite Ek.
      rewrite firstn_all2 by (destruct Hs as (Hl & _); lia).
      exact Hs. }
  rewrite Hpass. destruct (opens session).
  - destruct (closes session); eexists; eexists; eexists;
      (split; [reflexivity|]); (split; [discriminate|]); intros _;
      (split; [reflexivity|]).
    + rewrite Hvis. exact Hfacts.
    + rewrite Hv. exact Hfacts.
  - eexists. eexists. eexists. split; [reflexivity|].
    split; [|discriminate]. intros _. repeat split.
Qed.

Lemma pass_visits_each_selected_forum_once_witness :
  exists ending evs st',
    loop_pass Sample.env SamplePass.browse SamplePass.session SUBREDDITS
      SamplePass.draws Sample.start = (ending, evs, st')
    /\ ending = Returns
    /\ Permutation SUBREDDITS (forums_visited evs).
Proof.
  destruct (pass_visits_each_selected_forum_once Sample.env SamplePass.browse
              SamplePass.session SUBREDDITS SamplePass.draws Sample.start)
    as (ending & evs & st' & H1 & _ & H3).
  - discriminate.
  - exact subreddits_nodup.
  - exact sample_pass_drawn.
  - destruct (H3 eq_refl) as (He & _ & _ & _ & Hp).
    exists ending, evs, st'. split; [exact H1|]. split; [exact He|].
    apply Hp. unfold BATCH_MIN. cbn. lia.
Defined.

(** X7. The time slept in one pass, in seconds, over all calls of
    [asyncio.sleep].  With no forum configured the pass is one back-off
    of 120 to 240 seconds and the table is untouched.  A pass that
    returns after visiting [n] forums has slept one cooldown of 13 to 31
    seconds per forum, at most three pauses of 0.8 to 1.4 seconds per
    page while scrolling, and last the loop delay of 360 to 1080 seconds:
    between [13 n + 360] and [35.2 n + 1080] seconds in all.  A pass the
    browser ends early has slept between [13 n] and [35.2 n] seconds. *)
Theorem pass_sleep_bounds (env : Env) (browse : Browser) (session : Session)
    (subs : list str) (d : Draws) (st : State) :
  drawn_for (List.length subs) d ->
  exists ending evs st',
    loop_pass env browse session subs d st = (ending, evs, st')
    /\ (subs = [] ->
        ending = Returns /\ evs = [Sleep (PyInt (backoff d))] /\ st' = st
        /\ (inject_Z BACKOFF_MIN_SEC <= total_sleep evs
            <= inject_Z BACKOFF_MAX_SEC)%Q)
    /\ (subs <> [] ->
        let n := inject_Z (Z.of_nat (List.length (forums_visited evs))) in
        (ending = Returns ->
         (13 * n + 360 <= total_sleep evs <= (176 # 5) * n + 1080)%Q
         /\ exists visits, evs = visits ++ [Sleep (PyInt (loop_wait d))])
        /\ (ending <> Returns ->
            (13 * n <= total_sleep evs <= (176 # 5) * n)%Q)).
Proof.
  intros Hd. destruct subs as [|s0 subs'].
  - exists Returns, [Sleep (PyInt (backoff d))], st. split; [reflexivity|].
    split; [|congruence]. intros _.
    split; [reflexivity|]. split; [reflexivity|]. split; [reflexivity|].
    destruct Hd as (_ & _ & _ & _ & _ & _ & Hb).
    destruct Hb as [Hlo Hhi]. rewrite Zle_Qle in Hlo, Hhi.
    change (total_sleep [Sleep (PyInt (backoff d))])
      with (inject_Z (backoff d) + 0)%Q.
    lra.
  - assert (Hne : s0 :: subs' <> []) by discriminate.
    destruct (loop_pass_unfold env browse session _ d st Hne Hd)
      as (order & Hperm & Hlen & Hk & Hpd & Hpass).
    destruct Hd as (_ & _ & _ & Hbits & Hc & Hw & _).
    destruct (visit_all_events env browse d order Hbits Hc 0%nat st)
      as [Hv Ht].
    unfold SUBREDDIT_COOLDOWN_MIN_SEC, SUBREDDIT_COOLDOWN_MAX_SEC in Ht.
    change (inject_Z 13) with (13 # 1)%Q in Ht.
    change (inject_Z 31) with (31 # 1)%Q in Ht.
    destruct Hw as [Hlo Hhi]. rewrite Zle_Qle in Hlo, Hhi.
    unfold LOOP_DELAY_MIN_SEC, LOOP_DELAY_MAX_SEC in Hlo, Hhi.
    change (inject_Z (6 * 60)) with (360 # 1)%Q in Hlo.
    change (inject_Z (18 * 60)) with (1080 # 1)%Q in Hhi.
    rewrite Hpass. destruct (opens session).
    + destruct (closes session); eexists; eexists; eexists;
        (split; [reflexivity|]); (split; [congruence|]); intros _; cbv zeta.
      * split; [|congruence]. intros _. split; [|eexists; reflexivity].
        rewrite forums_visited_app, Hv, app_nil_r.
        rewrite total_sleep_app.
        change (total_sleep [Sleep (PyInt (loop_wait d))])
          with (inject_Z (loop_wait d) + 0)%Q.
        set (n := inject_Z (Z.of_nat (List.length order))) in *.
        set (w := inject_Z (loop_wait d)) in *. clearbody n w. lra.
      * split; [discriminate|]. intros _. rewrite Hv.
        set (n := inject_Z (Z.of_nat (List.length order))) in *.
        clearbody n. lra.
    + eexists. eexists. eexists. split; [reflexivity|].
      split; [congruence|]. intros _. cbv zeta.
      split; [discriminate|]. intros _.
      change (total_sleep []) with 0%Q.
      change (inject_Z (Z.of_nat (List.length (forums_visited [])))) with 0%Q.
      lra.
Qed.

Lemma pass_sleep_bounds_witness :
  exists ending evs st',
    loop_pass Sample.env SamplePass.browse SamplePass.session SUBREDDITS
      SamplePass.draws Sample.start = (ending, evs, st')
    /\ exists visits, evs = visits ++ [Sleep (PyInt 400)].
Proof.
  destruct (pass_sleep_bounds Sample.env SamplePass.browse SamplePass.session
              SUBREDDITS SamplePass.draws Sample.start sample_pass_drawn)
    as (ending & evs & st' & H1 & _ & H3).
  exists ending, evs, st'. split; [exact H1|].
  destruct H3 as [H3 _]; [discriminate|].
  apply H3.
  assert (E : fst (fst (loop_pass Sample.env SamplePass.browse
                          SamplePass.session SUBREDDITS SamplePass.draws
                          Sample.start)) = Returns)
    by (vm_compute; reflexivity).
  rewrite H1 in E. exact E.
Defined.

(** ** Post ids of permalinks *)

Lemma before_not_in (c : ascii) (s : str) : ~ In c (before c s).
Proof.
  induction s as [|a t IH]; [intros []|].
  rewrite before_cons. destruct (ascii_dec c a) as [|Hn]; [intros []|].
  intros [H|H]; [congruence | exact (IH H)].
Qed.

Lemma before_app (c : ascii) (s rest : str) :
  ~ In c s -> before c (s ++ c :: rest) = s.
Proof.
  induction s as [|a t IH]; intros Hn.
  - cbn [app]. rewrite before_cons.
    destruct (ascii_dec c c); [reflexivity | congruence].
  - cbn [app]. rewrite before_cons.
    destruct (ascii_dec c a) as [->|_]; [exfalso; apply Hn; now left|].
    rewrite IH; [reflexivity|]. intros H. apply Hn. now right.
Qed.

Lemma contains_cons (p : str) (c : ascii) (t : str) :
  contains p (c :: t) = startswith p (c :: t) || contains p t.
Proof. reflexivity. Qed.

Lemma contains_app (p a b : str) : contains p (a ++ p ++ b) = true.
Proof.
  induction a as [|c a IH].
  - cbn [app]. destruct (p ++ b) eqn:E.
    + destruct p; [reflexivity | discriminate].
    + rewrite contains_cons, <- E.
      rewrite (proj2 (startswith_app p (p ++ b))) by (now exists b).
      reflexivity.
  - cbn [app]. rewrite contains_cons, IH. apply orb_true_r.
Qed.

(** The id once the first cut of the URL at the marker is known. *)
Lemma derive_post_id_split (url pre post : str) :
  contains COMMENTS url = true ->
  split_from COMMENTS O url = pre :: split_from COMMENTS O post ->
  derive_post_id url = Ok (before SLASH post).
Proof.
  intros Hc Hs. unfold derive_post_id. rewrite Hc.
  change (split COMMENTS url) with (Ok (split_from COMMENTS O url)).
  rewrite Hs. cbn [bind].
  pose proof (before_slash_split_comments post) as Hb.
  pose proof (split_from_not_nil COMMENTS O post) as Hne.
  destruct (split_from COMMENTS O post) as [|tail l]; [congruence|].
  change (index (pre :: tail :: l) 1) with (Ok tail). cbn [bind].
  change (split (lit "/") tail) with (Ok (split_from (lit "/") O tail)).
  destruct (split_slash_head tail) as [r Hr]. rewrite Hr. cbn [bind].
  rewrite index_zero. simpl hd in Hb. now rewrite Hb.
Qed.

Lemma split_from_marker (post : str) :
  split_from COMMENTS O (COMMENTS ++ post) = [] :: split_from COMMENTS O post.
Proof.
  change (COMMENTS ++ post)
    with (SLASH :: (lit "comments/" ++ post)).
  rewrite split_from_cons.
  change (SLASH :: (lit "comments/" ++ post)) with (COMMENTS ++ post).
  rewrite (proj2 (startswith_app COMMENTS (COMMENTS ++ post)))
    by (now exists post).
  reflexivity.
Qed.

Lemma split_from_step (c : ascii) (t pre : str) (l : list str) :
  startswith COMMENTS (c :: t) = false ->
  split_from COMMENTS O t = pre :: l ->
  split_from COMMENTS O (c :: t) = (c :: pre) :: l.
Proof. intros H1 H2. rewrite split_from_cons, H1, H2. reflexivity. Qed.

(** A stretch without a slash before the marker holds no earlier marker. *)
Lemma split_from_no_slash (s post : str) :
  ~ In SLASH s ->
  split_from COMMENTS O (s ++ COMMENTS ++ post)
  = s :: split_from COMMENTS O post.
Proof.
  induction s as [|c s IH]; intros Hn.
  - apply split_from_marker.
  - cbn [app]. apply split_from_step.
    + destruct (startswith COMMENTS (c :: s ++ COMMENTS ++ post)) eqn:E;
        [|reflexivity].
      apply startswith_head in E. exfalso. apply Hn. left. symmetry. exact E.
    + apply IH. intros H. apply Hn. now right.
Qed.

Lemma startswith_comments_name (sub rest : str) :
  ~ In SLASH sub -> sub <> lit "comments" ->
  startswith COMMENTS (SLASH :: sub ++ SLASH :: rest) = false.
Proof.
  intros Hn Hne.
  destruct (startswith COMMENTS (SLASH :: sub ++ SLASH :: rest)) eqn:E;
    [|reflexivity].
  apply startswith_app in E. destruct E as [r Hr].
  exfalso. apply Hne.
  apply (f_equal (fun s => before SLASH (tl s))) in Hr.
  cbn [tl] in Hr. rewrite before_app in Hr by exact Hn. exact Hr.
Qed.

(** The origin put before a root-relative href holds no marker, and none
    begins in it. *)
Lemma contains_origin (href : str) :
  contains COMMENTS (ORIGIN ++ href) = contains COMMENTS href.
Proof. reflexivity. Qed.

Lemma split_from_origin (href pre : str) (l : list str) :
  split_from COMMENTS O href = pre :: l ->
  split_from COMMENTS O (ORIGIN ++ href) = (ORIGIN ++ pre) :: l.
Proof.
  intros H. unfold ORIGIN.
  repeat (apply split_from_step; [reflexivity|]). exact H.
Qed.

Lemma derive_post_id_origin (href : str) :
  derive_post_id (ORIGIN ++ href) = derive_post_id href.
Proof.
  destruct (contains COMMENTS href) eqn:Hc.
  - destruct (split_from_first COMMENTS href) as (pre & post & _ & Hs & _);
      [discriminate | exact Hc |].
    rewrite (derive_post_id_split href pre post Hc Hs).
    apply (derive_post_id_split _ (ORIGIN ++ pre) post).
    + rewrite contains_origin. exact Hc.
    + apply split_from_origin. exact Hs.
  - rewrite !derive_post_id_absent; [reflexivity | exact Hc |].
    rewrite contains_origin. exact Hc.
Qed.

Lemma resolve_post_url_cases (href : str) :
  resolve_post_url href = href
  \/ (startswith (lit "/") href = true
      /\ resolve_post_url href = ORIGIN ++ href).
Proof.
  unfold resolve_post_url.
  destruct (startswith (lit "/") href); [right; now split | now left].
Qed.

(** X8. A post id never contains a slash, whatever the URL: it is the
    text up to the first slash after the marker, or "unknown". *)
Theorem post_id_has_no_slash (url id : str) :
  derive_post_id url = Ok id -> ~ In SLASH id.
Proof.
  intros H. destruct (contains COMMENTS url) eqn:Hc.
  - destruct (derive_post_id_present url Hc) as (pre & post & _ & _ & Hid).
    rewrite Hid in H. injection H as <-. apply before_not_in.
  - rewrite (derive_post_id_absent url Hc) in H. injection H as <-.
    cbn. intros H.
    repeat (destruct H as [H|H]; [discriminate H|]). exact H.
Qed.

Lemma post_id_has_no_slash_witness :
  ~ In SLASH (lit "abc123").
Proof.
  apply (post_id_has_no_slash
           (lit "https://www.reddit.com/r/x/comments/abc123/title/")).
  vm_compute. reflexivity.
Defined.

(** X9. Making a root-relative permalink absolute does not change the
    post id: the id derived from the resolved URL is the id derived from
    the href as found.  Resolving a resolved URL changes nothing. *)
Theorem post_id_ignores_origin (href : str) :
  derive_post_id (resolve_post_url href) = derive_post_id href
  /\ resolve_post_url (resolve_post_url href) = resolve_post_url href.
Proof.
  destruct (resolve_post_url_cases href) as [E | [Hs E]].
  - rewrite !E. split; reflexivity.
  - rewrite E. split; [apply derive_post_id_origin | reflexivity].
Qed.

(** X10. The permalink of a Reddit post, [/r/<forum>/comments/<id>/...]:
    when neither the forum name nor the id holds a slash, the post id
    derived is [<id>], for every forum but one.  For the forum named
    "comments" the first marker is the forum's own path segment, and the
    id derived is "comments" for every post. *)
Theorem reddit_permalink_post_id :
  (forall sub id rest,
      ~ In SLASH sub -> ~ In SLASH id -> sub <> lit "comments" ->
      derive_post_id
        (resolve_post_url (lit "/r/" ++ sub ++ COMMENTS ++ id ++ SLASH :: rest))
      = Ok id)
  /\ (forall id rest,
        derive_post_id
          (resolve_post_url
             (lit "/r/comments" ++ COMMENTS ++ id ++ SLASH :: rest))
        = Ok (lit "comments")).
Proof.
  split.
  - intros sub id rest Hsub Hid Hne.
    change (resolve_post_url (lit "/r/" ++ sub ++ COMMENTS ++ id ++ SLASH :: rest))
      with (ORIGIN ++ lit "/r/" ++ sub ++ COMMENTS ++ id ++ SLASH :: rest).
    rewrite derive_post_id_origin.
    rewrite <- (before_app SLASH id rest Hid) at 2.
    apply (derive_post_id_split _ (lit "/r/" ++ sub)).
    + rewrite app_assoc. apply contains_app.
    + cbn [lit app]. change (list_ascii_of_string "/r/"%string)
        with [SLASH; ascii_of_nat 114; SLASH].
      cbn [app].
      apply split_from_step; [reflexivity|].
      apply split_from_step; [reflexivity|].
      apply split_from_step.
      * change (COMMENTS ++ id ++ SLASH :: rest)
          with (SLASH :: lit "comments/" ++ id ++ SLASH :: rest).
        apply startswith_comments_name; assumption.
      * apply split_from_no_slash. exact Hsub.
  - intros id rest.
    change (resolve_post_url
              (lit "/r/comments" ++ COMMENTS ++ id ++ SLASH :: rest))
      with (ORIGIN ++ lit "/r" ++ COMMENTS
              ++ lit "comments/" ++ id ++ SLASH :: rest).
    rewrite derive_post_id_origin.
    assert (E : before SLASH (lit "comments/" ++ id ++ SLASH :: rest)
                = lit "comments") by reflexivity.
    rewrite <- E.
    apply (derive_post_id_split _ (lit "/r")).
    + apply contains_app.
    + change (lit "/r" ++ COMMENTS ++ lit "comments/" ++ id ++ SLASH :: rest)
        with (SLASH :: ascii_of_nat 114 :: COMMENTS ++ lit "comments/"
                ++ id ++ SLASH :: rest).
      apply split_from_step; [reflexivity|].
      apply split_from_step; [reflexivity|].
      apply split_from_marker.
Qed.

Lemma reddit_permalink_post_id_witness :
  derive_post_id
    (resolve_post_url
       (lit "/r/" ++ lit "Outdoors" ++ COMMENTS ++ lit "1abcde"
          ++ SLASH :: lit "a_walk/"))
  = Ok (lit "1abcde").
Proof.
  apply (proj1 reddit_permalink_post_id).
  - cbn. intros H. repeat (destruct H as [H|H]; [discriminate H|]). exact H.
  - cbn. intros H. repeat (destruct H as [H|H]; [discriminate H|]). exact H.
  - discriminate.
Defined.

(** ** Whole numbers *)

Lemma pow2_zero : pow2 0 = 1.
Proof. reflexivity. Qed.

(** Rounding is exact on the whole numbers below [2^53]. *)
Lemma RN_exact (neg : bool) (n d z : Z) :
  0 < d -> 0 < z < 2 ^ 53 -> n = z * d ->
  exists q k,
    RN neg n d = Fin neg q k /\ Z.of_N q * pow2 k = z * pow2 (- k).
Proof.
  intros Hd Hz Hn.
  assert (Hn0 : 0 < n) by nia.
  assert (Hbig : z * pow2 0 < 2 ^ 1024 * pow2 (- 0)).
  { change (pow2 (- 0)) with 1. rewrite pow2_zero.
    apply Z.lt_trans with (2 ^ 53); [lia|].
    rewrite !Z.mul_1_r. apply Z.pow_lt_mono_r; lia. }
  destruct (RN_upper neg n d z 0) as (q & k & Hq & Hu);
    [lia | exact Hd | exact Hz | unfold emin; lia | exact Hbig
     | change (pow2 (- 0)) with 1; rewrite pow2_zero; lia |].
  destruct (RN_lower neg n d z 0) as [Hinf | (q' & k' & Hq' & Hl)];
    [exact Hn0 | exact Hd | exact Hz | unfold emin; lia
     | change (pow2 (- 0)) with 1; rewrite pow2_zero; lia
     | congruence |].
  rewrite Hq in Hq'. injection Hq' as <- <-.
  exists q, k. split; [exact Hq|].
  change (pow2 (- 0)) with 1 in *. rewrite pow2_zero in *. lia.
Qed.

(** [x] is the whole number [z >= 0]. *)
Lemma whole_cases (q : N) (k z : Z) :
  Z.of_N q * pow2 k = z * pow2 (- k) ->
  (0 <= k /\ Z.of_N q * 2 ^ k = z)
  \/ (k < 0 /\ Z.of_N q = z * 2 ^ (- k)).
Proof.
  intros H. destruct (Z_le_gt_dec 0 k) as [Hk|Hk].
  - left. split; [exact Hk|].
    rewrite (pow2_nonneg k Hk), (pow2_nonpos (- k)) in H by lia. lia.
  - right. split; [lia|].
    rewrite (pow2_nonpos k), (pow2_nonneg (- k)) in H by lia. lia.
Qed.

Lemma whole_to_int (s : bool) (q : N) (k z : Z) :
  Z.of_N q * pow2 k = z * pow2 (- k) ->
  to_int (Fin s q k) = Ok (if s then - z else z).
Proof.
  intros H. cbn [to_int]. unfold trunc_fin.
  destruct (whole_cases q k z H) as [[Hk E] | [Hk E]].
  - destruct (Z.leb_spec 0 k); [|lia]. rewrite E. reflexivity.
  - destruct (Z.leb_spec 0 k); [lia|]. rewrite E.
    rewrite Z.div_mul by (apply Z.pow_nonzero; lia). reflexivity.
Qed.

Lemma whole_modf (q : N) (k z : Z) :
  Z.of_N q * pow2 k = z * pow2 (- k) ->
  exists f i,
    modf (Fin false q k) = (f, i) /\ is_zero f = true /\ to_int i = Ok z.
Proof.
  intros H. cbn [modf].
  destruct (whole_cases q k z H) as [[Hk E] | [Hk E]].
  - destruct (Z.leb_spec 0 k); [|lia].
    eexists. eexists. split; [reflexivity|]. split; [reflexivity|].
    apply (whole_to_int false). exact H.
  - destruct (Z.leb_spec 0 k); [lia|].
    eexists. eexists. split; [reflexivity|].
    rewrite E, Z.mod_mul, Z.div_mul by (apply Z.pow_nonzero; lia).
    split; [reflexivity|].
    cbn [to_int]. unfold trunc_fin. cbn [Z.leb Z.compare].
    assert (0 <= z).
    { pose proof (N2Z.is_nonneg q).
      assert (0 < 2 ^ (- k)) by (apply Z.pow_pos_nonneg; lia). nia. }
    rewrite Z2N.id by assumption. f_equal. lia.
Qed.

(** The product of two whole numbers, when below [2^53], is exact. *)
Lemma whole_mul (s : bool) (q1 q2 : N) (k1 k2 z1 z2 : Z) :
  Z.of_N q1 * pow2 k1 = z1 * pow2 (- k1) ->
  Z.of_N q2 * pow2 k2 = z2 * pow2 (- k2) ->
  0 < z1 * z2 < 2 ^ 53 ->
  exists q k,
    mul (Fin s q1 k1) (Fin false q2 k2) = Fin s q k
    /\ Z.of_N q * pow2 k = (z1 * z2) * pow2 (- k).
Proof.
  intros H1 H2 Hz. cbn [mul]. unfold RN2. rewrite xorb_false_r.
  apply RN_exact.
  - apply shl_pos. lia.
  - exact Hz.
  - unfold shl. rewrite Z.mul_1_l.
    pose proof (pow2_add k1 k2) as Ha.
    pose proof (pow2_pos k1). pose proof (pow2_pos k2).
    pose proof (pow2_pos (- k1)). pose proof (pow2_pos (- k2)).
    pose proof (pow2_pos (k1 + k2)). pose proof (pow2_pos (- (k1 + k2))).
    apply (Z.mul_reg_r _ _ (pow2 (- k1) * pow2 (- k2))); [nia|].
    transitivity (Z.of_N q1 * Z.of_N q2
                  * (pow2 (k1 + k2) * pow2 (- k1) * pow2 (- k2))); [ring|].
    rewrite Ha.
    transitivity ((Z.of_N q1 * pow2 k1) * (Z.of_N q2 * pow2 k2)
                  * pow2 (- (k1 + k2))); [ring|].
    rewrite H1, H2. ring.
Qed.

(** ** Texts that begin with digits *)


Lemma digit_facts (c : ascii) :
  isdigit c = true ->
  isspace c = false /\ c_isspace c = false /\ lower_char c = c
  /\ is_underscore c = false
  /\ (code c =? 45) = false /\ (code c =? 43) = false
  /\ c <> ascii_of_nat 112 /\ c <> ascii_of_nat 118
  /\ c <> ascii_of_nat 107 /\ c <> ascii_of_nat 226
  /\ c <> ascii_of_nat 97
  /\ 0 <= code c - 48 <= 9.
Proof.
  destruct c as [b0 b1 b2 b3 b4 b5 b6 b7].
  destruct b0, b1, b2, b3, b4, b5, b6, b7; intros H;
    try discriminate H;
    vm_compute; repeat split; discriminate.
Qed.

Lemma digits_spec (ds : str) :
  digits ds = true -> ds <> [] /\ forall c, In c ds -> isdigit c = true.
Proof.
  destruct ds as [|c t]; [discriminate|]. unfold digits.
  rewrite forallb_forall. intros H. split; [discriminate | exact H].
Qed.

Lemma lstrip_by_keep (sp : ascii -> bool) (a b : str) :
  (forall c t, b = c :: t -> sp c = false) ->
  lstrip_by sp (a ++ b) = lstrip_by sp a ++ b.
Proof.
  intros Hb. induction a as [|c a IH]; cbn [app lstrip_by].
  - destruct b as [|c t]; [reflexivity|].
    cbn [lstrip_by]. now rewrite (Hb c t eq_refl).
  - destruct (sp c); [exact IH | reflexivity].
Qed.

Lemma strip_by_prefix (sp : ascii -> bool) (ds t : str) :
  ds <> [] -> (forall c, In c ds -> sp c = false) ->
  strip_by sp (ds ++ t) = ds ++ rev (lstrip_by sp (rev t)).
Proof.
  intros Hne Hall. unfold strip_by.
  destruct ds as [|d ds']; [congruence|].
  assert (E : lstrip_by sp ((d :: ds') ++ t) = (d :: ds') ++ t).
  { cbn [app lstrip_by]. now rewrite (Hall d (or_introl eq_refl)). }
  rewrite E, rev_app_distr, lstrip_by_keep.
  - now rewrite rev_app_distr, rev_involutive.
  - intros c r Hr. apply Hall. apply in_rev. rewrite Hr. now left.
Qed.

Lemma lower_prefix (ds t : str) :
  (forall c, In c ds -> lower_char c = c) -> lower (ds ++ t) = ds ++ lower t.
Proof.
  intros H. unfold lower. rewrite map_app. f_equal.
  induction ds as [|c ds IH]; [reflexivity|]. cbn [map].
  rewrite (H c (or_introl eq_refl)), IH; [reflexivity|].
  intros x Hx. apply H. now right.
Qed.

Lemma replace_prefix (a : ascii) (old new ds t : str) :
  (forall c, In c ds -> c <> a) ->
  replace (a :: old) new (ds ++ t) = ds ++ replace (a :: old) new t.
Proof.
  intros H. unfold replace.
  induction ds as [|c ds IH]; [reflexivity|].
  cbn [app replace_from].
  destruct (startswith (a :: old) (c :: ds ++ t)) eqn:E.
  - apply startswith_head in E. exfalso.
    apply (H c (or_introl eq_refl)). now symmetry.
  - rewrite IH; [reflexivity|]. intros x Hx. apply H. now right.
Qed.

(** Lines 73-74 keep the digits a score text begins with. *)
Lemma cleaned_score_digits (ds t : str) :
  digits ds = true ->
  cleaned_score (ds ++ t)
  = ds ++ rstrip (replace (lit "vote") []
                    (replace (lit "votes") []
                       (replace (lit "point") []
                          (replace (lit "points") [] (lower (rstrip t)))))).
Proof.
  intros Hd. apply digits_spec in Hd. destruct Hd as [Hne Hall].
  assert (Hsp : forall c, In c ds -> isspace c = false)
    by (intros c Hc; apply (digit_facts c (Hall c Hc))).
  assert (Hlo : forall c, In c ds -> lower_char c = c)
    by (intros c Hc; apply (digit_facts c (Hall c Hc))).
  assert (Hp : forall c, In c ds -> c <> ascii_of_nat 112)
    by (intros c Hc; apply (digit_facts c (Hall c Hc))).
  assert (Hv : forall c, In c ds -> c <> ascii_of_nat 118)
    by (intros c Hc; apply (digit_facts c (Hall c Hc))).
  unfold cleaned_score, strip, rstrip.
  rewrite (strip_by_prefix isspace ds t Hne Hsp).
  rewrite (lower_prefix ds _ Hlo).
  change (lit "points") with (ascii_of_nat 112 :: lit "oints").
  change (lit "point") with (ascii_of_nat 112 :: lit "oint").
  change (lit "votes") with (ascii_of_nat 118 :: lit "otes").
  change (lit "vote") with (ascii_of_nat 118 :: lit "ote").
  rewrite !(replace_prefix (ascii_of_nat 112)) by exact Hp.
  rewrite !(replace_prefix (ascii_of_nat 118)) by exact Hv.
  rewrite (strip_by_prefix isspace ds _ Hne Hsp). reflexivity.
Qed.

Lemma span_digits_all (ds : str) :
  (forall c, In c ds -> isdigit c = true) -> span_digits ds = (ds, []).
Proof.
  induction ds as [|c ds IH]; intros H; [reflexivity|].
  cbn [span_digits]. rewrite (H c (or_introl eq_refl)).
  rewrite IH; [reflexivity|]. intros x Hx. apply H. now right.
Qed.

Lemma underscores_ok_digits (ds : str) (prev : ascii) :
  is_underscore prev = false ->
  (forall c, In c ds -> isdigit c = true) -> underscores_ok prev ds = true.
Proof.
  revert prev. induction ds as [|c ds IH]; intros prev Hp H.
  - cbn. now rewrite Hp.
  - cbn [underscores_ok].
    pose proof (digit_facts c (H c (or_introl eq_refl))) as F.
    destruct F as (_ & _ & _ & Hu & _). rewrite Hu, Hp. cbn [negb orb andb].
    apply IH; [exact Hu|]. intros x Hx. apply H. now right.
Qed.

Lemma digits_value_acc (ds : str) (acc : Z) :
  (forall c, In c ds -> isdigit c = true) -> 0 <= acc ->
  0 <= fold_left (fun a c => 10 * a + (code c - 48)) ds acc.
Proof.
  revert acc. induction ds as [|c ds IH]; intros acc H Ha; [exact Ha|].
  cbn [fold_left]. apply IH.
  - intros x Hx. apply H. now right.
  - pose proof (digit_facts c (H c (or_introl eq_refl))) as F. lia.
Qed.

(** [float()] of a run of digits is the float nearest to its decimal
    value. *)
Lemma float_of_str_digits (ds : str) :
  digits ds = true ->
  float_of_str ds = Ok (RN false (digits_value ds) 1)
  /\ 0 <= digits_value ds.
Proof.
  intros Hd. apply digits_spec in Hd. destruct Hd as [Hne Hall]. split.
  - unfold float_of_str.
    assert (Hs : strip_by c_isspace ds = ds).
    { rewrite <- (app_nil_r ds) at 1.
      rewrite strip_by_prefix; [now rewrite app_nil_r | exact Hne |].
      intros c Hc. apply (digit_facts c (Hall c Hc)). }
    rewrite Hs. destruct ds as [|d ds'] eqn:E; [congruence|]. rewrite <- E.
    assert (Hall' : forall c, In c ds -> isdigit c = true)
      by (rewrite E; exact Hall).
    rewrite (underscores_ok_digits ds zero eq_refl Hall').
    assert (Hu : drop_underscores ds = ds).
    { unfold drop_underscores. apply forallb_filter_id.
      apply forallb_forall. intros c Hc.
      destruct (digit_facts c (Hall' c Hc)) as (_ & _ & _ & Hu & _).
      now rewrite Hu. }
    rewrite Hu. unfold parse_decimal.
    assert (Ht : take_sign ds = (false, ds)).
    { rewrite E. unfold take_sign.
      destruct (digit_facts d (Hall d (or_introl eq_refl)))
        as (_ & _ & _ & _ & H45 & H43 & _).
      now rewrite H45, H43. }
    rewrite Ht, (span_digits_all ds Hall'), app_nil_r.
    rewrite E at 1. unfold RN10. cbn [List.length Z.of_nat Z.opp Z.max].
    rewrite Z.mul_1_r. reflexivity.
  - apply digits_value_acc; [exact Hall | lia].
Qed.

(** ** Scores written in digits *)

Lemma parse_score_text_cleaned (t : str) :
  parse_score_text t =
  let cleaned := cleaned_score t in
  if Str.eqb cleaned [] || mem cleaned [BULLET] then Ok 0
  else
    let '(multiplier, cleaned) :=
      if endswith (lit "k") cleaned then (1000, drop_last cleaned)
      else (1, cleaned) in
    except_ValueError
      (value <- float_of_str cleaned ;;
       m <- of_int multiplier ;;
       to_int (mul value m))
      0.
Proof. reflexivity. Qed.

Lemma score_value (ds : str) (mult : Z) :
  digits ds = true -> mult = 1 \/ mult = 1000 ->
  mult * digits_value ds < 2 ^ 53 ->
  except_ValueError
    (value <- float_of_str ds ;;
     m <- of_int mult ;;
     to_int (mul value m))
    0
  = Ok (mult * digits_value ds).
Proof.
  intros Hd Hm Hlt.
  destruct (float_of_str_digits ds Hd) as [Hf Hv]. rewrite Hf. cbn [bind].
  assert (Hq2 : exists q2 k2,
             of_int mult = Ok (Fin false q2 k2)
             /\ Z.of_N q2 * pow2 k2 = mult * pow2 (- k2)).
  { destruct Hm as [-> | ->]; eexists; eexists;
      (split; [vm_compute; reflexivity | vm_compute; reflexivity]). }
  destruct Hq2 as (q2 & k2 & Ho & H2). rewrite Ho. cbn [bind].
  destruct (Z.eq_dec (digits_value ds) 0) as [E|E].
  - rewrite E, RN_zero. cbn [mul]. unfold RN2.
    replace (shl (Z.of_N 0 * Z.of_N q2) (0 + k2)) with 0
      by (unfold shl; cbn; lia).
    rewrite RN_zero. cbn. f_equal. lia.
  - destruct (RN_exact false (digits_value ds) 1 (digits_value ds))
      as (q1 & k1 & H1 & Hw); [lia | lia | lia |].
    rewrite H1.
    destruct (whole_mul false q1 q2 k1 k2 (digits_value ds) mult Hw H2)
      as (q & k & Hmul & Hwm); [lia|].
    rewrite Hmul, (whole_to_int false q k _ Hwm).
    cbn [except_ValueError]. f_equal. lia.
Qed.

Lemma digits_not_special (ds t : str) :
  digits ds = true ->
  Str.eqb (ds ++ t) [] || mem (ds ++ t) [BULLET] = false.
Proof.
  intros Hd. apply digits_spec in Hd. destruct Hd as [Hne Hall].
  destruct ds as [|d ds']; [congruence|].
  apply orb_false_intro.
  - destruct (Str.eqb ((d :: ds') ++ t) []) eqn:E; [|reflexivity].
    apply eqb_spec in E. discriminate E.
  - unfold mem. cbn [existsb]. rewrite orb_false_r.
    destruct (Str.eqb ((d :: ds') ++ t) BULLET) eqn:E; [|reflexivity].
    apply eqb_spec in E. injection E as E _.
    destruct (digit_facts d (Hall d (or_introl eq_refl)))
      as (_ & _ & _ & _ & _ & _ & _ & _ & _ & Hb & _).
    contradiction.
Qed.

Lemma endswith_k_digits (ds : str) :
  digits ds = true ->
  endswith (lit "k") ds = false
  /\ endswith (lit "k") (ds ++ lit "k") = true
  /\ drop_last (ds ++ lit "k") = ds.
Proof.
  intros Hd. apply digits_spec in Hd. destruct Hd as [Hne Hall].
  unfold endswith, drop_last. repeat split.
  - destruct (rev ds) as [|c r] eqn:E.
    + apply (f_equal (@rev ascii)) in E. rewrite rev_involutive in E.
      contradiction.
    + assert (Hc : isdigit c = true).
      { apply Hall, in_rev. rewrite E. now left. }
      destruct (digit_facts c Hc) as (_ & _ & _ & _ & _ & _ & _ & _ & Hk & _).
      change (rev (lit "k")) with [ascii_of_nat 107].
      rewrite startswith_single.
      destruct (ascii_dec (ascii_of_nat 107) c) as [<-|]; [|reflexivity].
      exfalso. now apply Hk.
  - rewrite rev_app_distr. reflexivity.
  - apply removelast_last.
Qed.

(** X11. A score written in digits is read as its decimal value, up to
    [2^53]: alone or followed by one of the unit words " point",
    " points", " vote", " votes".  With a "k" after the digits it is read
    as a thousand times the value. *)
Theorem score_of_digits (ds w : str) :
  digits ds = true -> In w SCORE_WORDS ->
  (digits_value ds < 2 ^ 53 ->
   parse_score_text (ds ++ w) = Ok (digits_value ds))
  /\ (1000 * digits_value ds < 2 ^ 53 ->
      parse_score_text (ds ++ lit "k" ++ w) = Ok (1000 * digits_value ds)).
Proof.
  intros Hd Hw.
  destruct (endswith_k_digits ds Hd) as (Hk1 & Hk2 & Hk3).
  split; intros Hlt.
  - rewrite parse_score_text_cleaned, (cleaned_score_digits ds w Hd).
    assert (E : rstrip (replace (lit "vote") []
                  (replace (lit "votes") []
                     (replace (lit "point") []
                        (replace (lit "points") [] (lower (rstrip w))))))
                = []).
    { unfold SCORE_WORDS in Hw. cbn [In] in Hw.
      repeat (destruct Hw as [<-|Hw]; [reflexivity|]). contradiction. }
    rewrite E, app_nil_r. cbv zeta.
    rewrite <- (app_nil_r ds) at 1 2.
    rewrite (digits_not_special ds [] Hd), Hk1.
    rewrite (score_value ds 1 Hd) by (auto; lia). f_equal. lia.
  - rewrite parse_score_text_cleaned, (cleaned_score_digits ds _ Hd).
    assert (E : rstrip (replace (lit "vote") []
                  (replace (lit "votes") []
                     (replace (lit "point") []
                        (replace (lit "points") []
                           (lower (rstrip (lit "k" ++ w)))))))
                = lit "k").
    { unfold SCORE_WORDS in Hw. cbn [In] in Hw.
      repeat (destruct Hw as [<-|Hw]; [reflexivity|]). contradiction. }
    rewrite E. cbv zeta.
    rewrite (digits_not_special ds (lit "k") Hd), Hk2, Hk3.
    rewrite (score_value ds 1000 Hd) by (auto; lia). reflexivity.
Qed.

Lemma score_of_digits_witness :
  parse_score_text (lit "1500 points") = Ok 1500
  /\ parse_score_text (lit "12k votes") = Ok 12000.
Proof.
  split.
  - apply (proj1 (score_of_digits (lit "1500") (lit " points")
                    eq_refl (or_intror (or_intror (or_introl eq_refl))))).
    vm_compute. reflexivity.
  - apply (proj2 (score_of_digits (lit "12") (lit " votes") eq_refl
                    (or_intror (or_intror (or_intror
                       (or_intror (or_introl eq_refl))))))).
    vm_compute. reflexivity.
Defined.

(** ** Ages written in digits *)

Lemma digits_not_phrase (text tok : str) (rest : list str) :
  split_ws (lower (strip text)) = tok :: rest ->
  digits tok = true ->
  lower (strip text) <> []
  /\ mem (lower (strip text)) [lit "just now"; lit "moments ago"] = false.
Proof.
  intros Hs Hd. split.
  - intros E. rewrite E in Hs. discriminate Hs.
  - destruct (mem (lower (strip text)) [lit "just now"; lit "moments ago"])
      eqn:E; [|reflexivity].
    unfold mem in E. cbn [existsb] in E. rewrite orb_false_r in E.
    apply orb_true_iff in E.
    destruct E as [E|E]; apply eqb_spec in E; rewrite E in Hs;
      vm_compute in Hs; injection Hs as <- _; discriminate Hd.
Qed.

Lemma magnitude_of_digits (tok : str) :
  digits tok = true ->
  magnitude_of_token tok = Some (PyFloat (RN false (digits_value tok) 1))
  /\ 0 <= digits_value tok.
Proof.
  intros Hd. destruct (float_of_str_digits tok Hd) as [Hf Hv].
  split; [|exact Hv]. unfold magnitude_of_token. rewrite Hf.
  apply digits_spec in Hd. destruct Hd as [Hne Hall].
  destruct tok as [|d t]; [congruence|].
  destruct (digit_facts d (Hall d (or_introl eq_refl)))
    as (_ & _ & _ & _ & _ & _ & _ & _ & _ & _ & Ha & _).
  assert (E1 : Str.eqb (d :: t) (lit "a") = false).
  { destruct (Str.eqb (d :: t) (lit "a")) eqn:E; [|reflexivity].
    apply eqb_spec in E. injection E as E _. contradiction. }
  assert (E2 : Str.eqb (d :: t) (lit "an") = false).
  { destruct (Str.eqb (d :: t) (lit "an")) eqn:E; [|reflexivity].
    apply eqb_spec in E. injection E as E _. contradiction. }
  rewrite E1, E2. reflexivity.
Qed.

(** A float that is a whole number gives the duration the int gives. *)
Lemma timedelta_whole (factor : Z) (q : N) (k z : Z) :
  Z.of_N q * pow2 k = z * pow2 (- k) ->
  timedelta factor (PyFloat (Fin false q k)) = new_delta (z * factor).
Proof.
  intros H. unfold timedelta.
  destruct (whole_modf q k z H) as (f & i & Hm & Hz & Hi).
  rewrite Hm, Hi. cbn [bind]. rewrite Hz. reflexivity.
Qed.

Lemma new_delta_small (us : Z) :
  0 <= us < DATETIME_END -> new_delta us = Ok us.
Proof.
  intros H. unfold new_delta.
  assert (0 <= us / US_PER_DAY <= 3652059).
  { unfold DATETIME_END, US_PER_DAY in *. split.
    - apply Z.div_pos; lia.
    - apply Z.lt_succ_r. apply Z.div_lt_upper_bound; lia. }
  assert (E1 : (us / US_PER_DAY <? - MAX_DELTA_DAYS) = false)
    by (apply Z.ltb_ge; unfold MAX_DELTA_DAYS; lia).
  assert (E2 : (MAX_DELTA_DAYS <? us / US_PER_DAY) = false)
    by (apply Z.ltb_ge; unfold MAX_DELTA_DAYS; lia).
  rewrite E1, E2. reflexivity.
Qed.

Lemma us_per_pos (k : time_unit) : 0 < us_per k.
Proof. destruct k; reflexivity. Qed.

(** X12. An age written as a whole number of minutes, hours or seconds:
    for a magnitude in digits, below [2^53], and a recognised unit the
    parser returns the reference time minus exactly that many units, as
    long as the result is a datetime. *)
Theorem age_of_whole_number (now : Z) (text tok u : str) (rest : list str)
    (k : time_unit) :
  split_ws (lower (strip text)) = tok :: u :: rest ->
  digits tok = true -> digits_value tok < 2 ^ 53 ->
  unit_of_token u = Some k ->
  0 <= now - digits_value tok * us_per k -> now < DATETIME_END ->
  parse_age_text now text = Ok (Some (now - digits_value tok * us_per k)).
Proof.
  intros Hs Hd Hlt Hu Hlo Hhi.
  destruct (digits_not_phrase text tok (u :: rest) Hs Hd) as [Hne Hmem].
  rewrite (parse_age_text_tokens now text tok (u :: rest) Hne Hmem Hs).
  cbn [hd_error]. unfold age_of_tokens.
  destruct (magnitude_of_digits tok Hd) as [Hm Hv]. rewrite Hm, Hu.
  pose proof (us_per_pos k) as Hk.
  set (v := digits_value tok) in *.
  assert (Hd' : timedelta (us_per k) (PyFloat (RN false v 1))
                = Ok (v * us_per k)).
  { destruct (Z.eq_dec v 0) as [E|E].
    - rewrite E, RN_zero.
      rewrite (timedelta_whole (us_per k) 0 0 0 eq_refl).
      apply new_delta_small. unfold DATETIME_END, US_PER_DAY. lia.
    - destruct (RN_exact false v 1 v) as (q & e & Hq & Hw); [lia | lia | lia |].
      rewrite Hq, (timedelta_whole (us_per k) q e v Hw).
      apply new_delta_small. nia. }
  rewrite Hd'. cbn [bind]. unfold datetime_sub.
  destruct (Z.ltb_spec (now - v * us_per k) 0); [lia|].
  destruct (Z.leb_spec DATETIME_END (now - v * us_per k)); [nia|].
  reflexivity.
Qed.

Lemma age_of_whole_number_witness :
  parse_age_text Sample.NOW0 (lit " 10 Minutes ago")
  = Ok (Some (Sample.NOW0 - 10 * us_per Minutes)).
Proof.
  apply (age_of_whole_number Sample.NOW0 (lit " 10 Minutes ago")
           (lit "10") (lit "minutes") [lit "ago"] Minutes).
  - reflexivity.
  - reflexivity.
  - vm_compute. reflexivity.
  - reflexivity.
  - vm_compute. discriminate.
  - vm_compute. reflexivity.
Defined.

(** ** What the age parser raises *)

Lemma new_delta_raises (us : Z) (e : exn) :
  new_delta us = Raise e -> e = OverflowError.
Proof.
  unfold new_delta.
  destruct ((us / US_PER_DAY <? - MAX_DELTA_DAYS)
            || (MAX_DELTA_DAYS <? us / US_PER_DAY)); intros H; inversion H.
  reflexivity.
Qed.

Lemma of_int_raises (z : Z) (e : exn) :
  of_int z = Raise e -> e = OverflowError.
Proof.
  unfold of_int. destruct (RN (z <? 0) (Z.abs z) 1); intros H; inversion H.
  reflexivity.
Qed.

Lemma round_leftover_raises (sum : Z) (leftover : float) (e : exn) :
  round_leftover sum leftover = Raise e ->
  e = ValueError \/ e = OverflowError.
Proof.
  unfold round_leftover. destruct (is_zero leftover).
  - intros H. right. exact (new_delta_raises _ _ H).
  - match goal with |- (t <- to_int ?w ;; _) = _ -> _ =>
      destruct (to_int w) as [t|e'] eqn:E end; cbn [bind].
    + intros H. right. exact (new_delta_raises _ _ H).
    + intros H. injection H as <-. exact (to_int_raises _ _ E).
Qed.

Lemma timedelta_raises (factor : Z) (amount : number) (e : exn) :
  timedelta factor amount = Raise e -> e = ValueError \/ e = OverflowError.
Proof.
  unfold timedelta. destruct amount as [z|x].
  - intros H. right. exact (new_delta_raises _ _ H).
  - destruct (modf x) as [fracpart intpart].
    destruct (to_int intpart) as [xi|e1] eqn:E1; cbn [bind].
    2:{ intros H. injection H as <-. exact (to_int_raises _ _ E1). }
    destruct (is_zero fracpart); [apply round_leftover_raises|].
    destruct (of_int factor) as [f|e2] eqn:E2; cbn [bind].
    2:{ intros H. injection H as <-. right. exact (of_int_raises _ _ E2). }
    destruct (modf (mul f fracpart)) as [fracpart2 intpart2].
    destruct (to_int intpart2) as [x2|e3] eqn:E3; cbn [bind].
    2:{ intros H. injection H as <-. exact (to_int_raises _ _ E3). }
    apply round_leftover_raises.
Qed.

Lemma datetime_sub_raises (dt delta : Z) (e : exn) :
  datetime_sub dt delta = Raise e -> e = OverflowError.
Proof.
  unfold datetime_sub.
  destruct ((dt - delta <? 0) || (DATETIME_END <=? dt - delta));
    intros H; inversion H. reflexivity.
Qed.

Lemma parse_age_text_raises (now : Z) (text : str) (e : exn) :
  parse_age_text now text = Raise e -> e = ValueError \/ e = OverflowError.
Proof.
  unfold parse_age_text.
  destruct (Str.eqb (lower (strip text)) []); [discriminate|].
  destruct (mem (lower (strip text)) [lit "just now"; lit "moments ago"]);
    [discriminate|].
  destruct (split_ws (lower (strip text))) as [|tok rest]; [discriminate|].
  rewrite parse_amount_rules. cbn [bind].
  destruct (magnitude_of_token tok) as [amount|]; [|discriminate].
  cbv zeta. destruct (unit_factor _) as [factor|]; [|discriminate].
  destruct (timedelta factor amount) as [d|e1] eqn:E1; cbn [bind].
  2:{ intros H. injection H as <-. exact (timedelta_raises _ _ _ E1). }
  destruct (datetime_sub now d) as [t|e2] eqn:E2; cbn [bind]; [discriminate|].
  intros H. injection H as <-. right. exact (datetime_sub_raises _ _ _ E2).
Qed.

Lemma not_a_number_phrase (text tok : str) (rest : list str) (x : float) :
  split_ws (lower (strip text)) = tok :: rest ->
  float_of_str tok = Ok x ->
  lower (strip text) <> []
  /\ mem (lower (strip text)) [lit "just now"; lit "moments ago"] = false
  /\ mem tok [lit "a"; lit "an"] = false.
Proof.
  intros Hs Hx. split; [|split].
  - intros E. rewrite E in Hs. discriminate Hs.
  - destruct (mem (lower (strip text)) [lit "just now"; lit "moments ago"])
      eqn:E; [|reflexivity].
    unfold mem in E. cbn [existsb] in E. rewrite orb_false_r in E.
    apply orb_true_iff in E.
    destruct E as [E|E]; apply eqb_spec in E; rewrite E in Hs;
      vm_compute in Hs; injection Hs as <- _; discriminate Hx.
  - destruct (mem tok [lit "a"; lit "an"]) eqn:E; [|reflexivity].
    unfold mem in E. cbn [existsb] in E. rewrite orb_false_r in E.
    apply orb_true_iff in E.
    destruct E as [E|E]; apply eqb_spec in E; subst tok; discriminate Hx.
Qed.

(** X13. What the age parser raises.  Only the call of [float()] is inside
    its [try]: with a recognised unit, a magnitude that [float()] reads as
    a NaN makes the parser raise [ValueError], and one it reads as an
    infinity makes it raise [OverflowError]; nothing else is ever raised. *)
Theorem age_parser_raises :
  (forall now text e,
      parse_age_text now text = Raise e ->
      e = ValueError \/ e = OverflowError)
  /\ (forall now text tok u rest factor,
        split_ws (lower (strip text)) = tok :: u :: rest ->
        unit_factor u = Some factor ->
        (float_of_str tok = Ok NaN ->
         parse_age_text now text = Raise ValueError)
        /\ (forall s, float_of_str tok = Ok (Inf s) ->
                      parse_age_text now text = Raise OverflowError)).
Proof.
  split; [exact parse_age_text_raises|].
  intros now text tok u rest factor Hs Hu.
  assert (H : forall x, float_of_str tok = Ok x ->
            parse_age_text now text
            = (delta <- timedelta factor (PyFloat x) ;;
               t <- datetime_sub now delta ;; Ok (Some t))).
  { intros x Hx.
    destruct (not_a_number_phrase text tok (u :: rest) x Hs Hx)
      as (Hne & Hmem & Ha).
    unfold parse_age_text.
    destruct (Str.eqb (lower (strip text)) []) eqn:E;
      [apply eqb_spec in E; contradiction|].
    rewrite Hmem, Hs. unfold parse_amount. rewrite Ha, Hx. cbn [bind].
    rewrite Hu. reflexivity. }
  split.
  - intros Hx. rewrite (H NaN Hx). reflexivity.
  - intros s Hx. rewrite (H (Inf s) Hx). reflexivity.
Qed.

Lemma age_parser_raises_witness :
  parse_age_text Sample.NOW0 (lit "nan minutes ago") = Raise ValueError
  /\ parse_age_text Sample.NOW0 (lit "inf hours ago") = Raise OverflowError.
Proof.
  split.
  - apply (proj1 (proj2 age_parser_raises Sample.NOW0 (lit "nan minutes ago")
                    (lit "nan") (lit "minutes") [lit "ago"] US_PER_MINUTE
                    eq_refl eq_refl)).
    reflexivity.
  - apply (proj2 (proj2 age_parser_raises Sample.NOW0 (lit "inf hours ago")
                    (lit "inf") (lit "hours") [lit "ago"] US_PER_HOUR
                    eq_refl eq_refl) false).
    reflexivity.
Defined.

(** ** Padding and letter case *)

Lemma lstrip_by_blank (sp : ascii -> bool) (s : str) :
  forallb sp s = true -> lstrip_by sp s = [].
Proof.
  induction s as [|c s IH]; [reflexivity|]. cbn [forallb lstrip_by].
  intros H. apply andb_true_iff in H. destruct H as [Hc Hs].
  rewrite Hc. exact (IH Hs).
Qed.

Lemma strip_blank (s : str) : forallb isspace s = true -> strip s = [].
Proof.
  intros H. unfold strip, strip_by. now rewrite (lstrip_by_blank _ _ H).
Qed.

Lemma lstrip_by_head (sp : ascii -> bool) (s : str) (c : ascii) (t : str) :
  lstrip_by sp s = c :: t -> sp c = false.
Proof.
  induction s as [|a s IH]; [discriminate|]. cbn [lstrip_by].
  destruct (sp a) eqn:E; [exact IH|]. intros H. injection H as <- _. exact E.
Qed.

Lemma lstrip_by_fixed (sp : ascii -> bool) (s : str) :
  (forall c t, s = c :: t -> sp c = false) -> lstrip_by sp s = s.
Proof.
  destruct s as [|c t]; [reflexivity|]. intros H. cbn [lstrip_by].
  now rewrite (H c t eq_refl).
Qed.

Lemma lstrip_by_suffix (sp : ascii -> bool) (s : str) :
  exists pre, s = pre ++ lstrip_by sp s.
Proof.
  induction s as [|a s [pre IH]]; [now exists []|]. cbn [lstrip_by].
  destruct (sp a); [|now exists []].
  exists (a :: pre). cbn [app]. now rewrite <- IH.
Qed.

Lemma strip_by_idempotent (sp : ascii -> bool) (s : str) :
  strip_by sp (strip_by sp s) = strip_by sp s.
Proof.
  unfold strip_by.
  set (a := lstrip_by sp s). set (b := lstrip_by sp (rev a)).
  assert (Hb : lstrip_by sp b = b).
  { apply lstrip_by_fixed. intros c t E.
    exact (lstrip_by_head sp (rev a) c t E). }
  assert (Hr : lstrip_by sp (rev b) = rev b).
  { apply lstrip_by_fixed. intros c t E.
    destruct (lstrip_by_suffix sp (rev a)) as [pre Hpre]. fold b in Hpre.
    apply (f_equal (@rev ascii)) in Hpre.
    rewrite rev_involutive, rev_app_distr, E in Hpre.
    exact (lstrip_by_head sp s c (t ++ rev pre) Hpre). }
  rewrite Hr, rev_involutive, Hb. reflexivity.
Qed.

Lemma lower_char_facts (c : ascii) :
  isspace (lower_char c) = isspace c
  /\ lower_char (lower_char c) = lower_char c.
Proof.
  destruct c as [b0 b1 b2 b3 b4 b5 b6 b7].
  destruct b0, b1, b2, b3, b4, b5, b6, b7; vm_compute; split; reflexivity.
Qed.

Lemma lstrip_lower (s : str) :
  lstrip_by isspace (lower s) = lower (lstrip_by isspace s).
Proof.
  unfold lower. induction s as [|c s IH]; [reflexivity|].
  cbn [map lstrip_by]. rewrite (proj1 (lower_char_facts c)).
  destruct (isspace c); [exact IH | reflexivity].
Qed.

Lemma strip_lower (s : str) : strip (lower s) = lower (strip s).
Proof.
  unfold strip, strip_by. rewrite lstrip_lower.
  unfold lower at 1. rewrite <- map_rev. fold (lower (rev (lstrip_by isspace s))).
  rewrite lstrip_lower. unfold lower. now rewrite map_rev.
Qed.

Lemma lower_idempotent (s : str) : lower (lower s) = lower s.
Proof.
  unfold lower. rewrite map_map. apply map_ext.
  intros c. apply lower_char_facts.
Qed.

Lemma normal_form (t : str) :
  lower (strip (strip t)) = lower (strip t)
  /\ lower (strip (lower t)) = lower (strip t).
Proof.
  split.
  - unfold strip. now rewrite strip_by_idempotent.
  - now rewrite strip_lower, lower_idempotent.
Qed.

Lemma parse_score_text_normal (t t' : str) :
  lower (strip t) = lower (strip t') ->
  parse_score_text t = parse_score_text t'.
Proof. intros H. unfold parse_score_text. now rewrite H. Qed.

Lemma parse_age_text_normal (now : Z) (t t' : str) :
  lower (strip t) = lower (strip t') ->
  parse_age_text now t = parse_age_text now t'.
Proof. intros H. unfold parse_age_text. now rewrite H. Qed.

(** X14. Neither parser is sensitive to padding or to letter case:
    stripping the text first, as the caller does, or lowering it first
    changes no result. *)
Theorem parsers_ignore_padding_and_case (t : str) :
  parse_score_text (strip t) = parse_score_text t
  /\ parse_score_text (lower t) = parse_score_text t
  /\ (forall now, parse_age_text now (strip t) = parse_age_text now t)
  /\ (forall now, parse_age_text now (lower t) = parse_age_text now t).
Proof.
  destruct (normal_form t) as [H1 H2].
  split; [|split; [|split]].
  - exact (parse_score_text_normal _ _ H1).
  - exact (parse_score_text_normal _ _ H2).
  - intros now. exact (parse_age_text_normal now _ _ H1).
  - intros now. exact (parse_age_text_normal now _ _ H2).
Qed.

(** X15. A text of whitespace only, the empty text included, is no age
    and a score of zero. *)
Theorem blank_text_defaults (t : str) :
  forallb isspace t = true ->
  (forall now, parse_age_text now t = Ok None)
  /\ parse_score_text t = Ok 0.
Proof.
  intros H. split.
  - intros now. unfold parse_age_text. rewrite (strip_blank t H). reflexivity.
  - unfold parse_score_text. rewrite (strip_blank t H). reflexivity.
Qed.

Lemma blank_text_defaults_witness :
  parse_score_text [ascii_of_nat 32; ascii_of_nat 9; ascii_of_nat 10] = Ok 0.
Proof.
  apply (blank_text_defaults [ascii_of_nat 32; ascii_of_nat 9; ascii_of_nat 10]).
  reflexivity.
Defined.

(** ** The age check *)

(** X16. The age check is exact.  For two datetimes the float quotient
    [total_seconds() / 3600] exceeds [POST_MAX_AGE_HOURS] exactly when the
    age in microseconds exceeds the window: no rounding error moves the
    boundary, and the check never raises.  A post dated at or after the
    clock reading, in the future, is therefore never too old. *)
Theorem age_check_is_exact (now created : Z) :
  0 <= now < DATETIME_END -> 0 <= created < DATETIME_END ->
  too_old now created = Ok (WINDOW_US <? now - created)
  /\ (now <= created -> too_old now created = Ok false).
Proof.
  intros Hn Hc.
  assert (H : too_old now created = Ok (WINDOW_US <? now - created))
    by (apply too_old_decides; lia).
  split; [exact H|]. intros Hle. rewrite H. f_equal.
  apply Z.ltb_ge. unfold WINDOW_US, POST_MAX_AGE_HOURS, US_PER_HOUR. lia.
Qed.

Lemma age_check_is_exact_witness :
  too_old Sample.NOW0 (Sample.NOW0 + 1) = Ok false.
Proof.
  apply (age_check_is_exact Sample.NOW0 (Sample.NOW0 + 1)).
  - vm_compute. split; [discriminate | reflexivity].
  - vm_compute. split; [discriminate | reflexivity].
  - vm_compute. discriminate.
Defined.

(** ** Posts that are saved *)

Lemma has_post_id_inserted (r : Row) (t : Table) :
  has_post_id (post_id r) (insert_do_nothing r t) = true.
Proof.
  unfold insert_do_nothing.
  destruct (has_post_id (post_id r) t) eqn:E; [exact E|].
  rewrite has_post_id_app, E. cbn.
  rewrite (proj2 (eqb_spec (post_id r) (post_id r)) eq_refl). reflexivity.
Qed.

(** X17. The converse of the freshness filter: a post with a non-blank
    title, a creation time within the window at the check, a non-empty
    permalink and a score text the parser does not raise on is handed to
    the insert, with that creation time and the resolved permalink; after
    it, its post id is in the table. *)
Theorem fresh_post_is_saved (env : Env) (sub : str) (p : PostEl) (st st1 : State)
    (title : str) (created : Z) (c : ascii) (href : str) :
  title_text p = Some title -> strip title <> [] ->
  find_datetime env (timestamp_anchor p) st = (Ok (Some created), st1) ->
  - DATETIME_END <= clock env (tick st1) - created <= WINDOW_US ->
  permalink_href p = Some (Some (c :: href)) ->
  (forall t, score_text p = Some t ->
             exists sc, parse_score_text (strip t) = Ok sc) ->
  exists a st',
    process_post env sub p st = (Ok (Save a), st')
    /\ s_subreddit a = sub
    /\ s_created_at a = created
    /\ s_post_url a = resolve_post_url (c :: href)
    /\ derive_post_id (s_post_url a) = Ok (s_post_id a)
    /\ has_post_id (s_post_id a) (rows st') = true.
Proof.
  intros Ht Hs Hf Hage Hp Hsc.
  destruct (strip title) as [|c0 t0] eqn:Est; [congruence|].
  rewrite (process_post_unfold env sub p st title c0 t0 Ht Est), Hf.
  rewrite too_old_decides
    by (unfold WINDOW_US, POST_MAX_AGE_HOURS, US_PER_HOUR, DATETIME_END,
               US_PER_DAY in *; lia).
  replace (WINDOW_US <? clock env (tick st1) - created) with false
    by (symmetry; apply Z.ltb_ge; lia).
  unfold extract_fresh. rewrite Hp.
  destruct (derive_post_id_total (resolve_post_url (c :: href))) as [id Hid].
  unfold mbind, lift, insert_reddit_post, read_clock, ret. rewrite Hid.
  assert (Hscore : exists sc,
             match score_text p with
             | Some t => parse_score_text (strip t)
             | None => Ok 0
             end = Ok sc).
  { destruct (score_text p) as [t|]; [apply Hsc; reflexivity | now exists 0]. }
  destruct Hscore as [sc Hscore]. rewrite Hscore.
  eexists. eexists. split; [reflexivity|].
  cbn [s_subreddit s_created_at s_post_url s_post_id rows].
  repeat split; try assumption.
  match goal with
  | |- has_post_id _ (insert_do_nothing ?r ?t) = true =>
      exact (has_post_id_inserted r t)
  end.
Qed.

Lemma fresh_post_is_saved_witness :
  exists a st',
    process_post Sample.env (lit "x") Sample.ten_minutes_old Sample.start
    = (Ok (Save a), st')
    /\ s_created_at a = Sample.NOW0 - 10 * US_PER_MINUTE.
Proof.
  destruct (fresh_post_is_saved Sample.env (lit "x") Sample.ten_minutes_old
              Sample.start (ticked Sample.start) (lit "Fresh  ")
              (Sample.NOW0 - 10 * US_PER_MINUTE)
              (ascii_of_nat 47) (lit "r/x/comments/abc123/title/"))
    as (a & st' & H1 & _ & H3 & _).
  - reflexivity.
  - discriminate.
  - vm_compute. reflexivity.
  - vm_compute. split; discriminate.
  - reflexivity.
  - intros t Ht. injection Ht as <-. exists 2300. vm_compute. reflexivity.
  - exists a, st'. split; [exact H1 | exact H3].
Defined.

(** ** The database configuration *)

Lemma join_holds (sep k : str) (l : list str) :
  In k l -> exists a b, join sep l = a ++ k ++ b.
Proof.
  induction l as [|x l IH]; [intros []|].
  intros [->|Hin].
  - destruct l as [|y l].
    + exists [], []. cbn. now rewrite app_nil_r.
    + exists [], (sep ++ join sep (y :: l)). reflexivity.
  - destruct (IH Hin) as (a & b & E).
    destruct l as [|y l]; [destruct Hin|].
    exists (x ++ sep ++ a), b.
    change (join sep (x :: y :: l)) with (x ++ sep ++ join sep (y :: l)).
    rewrite E, <- !app_assoc. reflexivity.
Qed.

(** X18. The check of the database configuration: it returns the
    configuration unchanged when no value is [None] or the empty string,
    and otherwise raises [RuntimeError] with a message that names every
    key whose value is missing.  A number is never missing, zero
    included. *)
Theorem validated_db_config_checks (DB_CONFIG : config) :
  (forallb (fun kv => negb (is_missing (snd kv))) DB_CONFIG = true ->
   _validated_db_config DB_CONFIG = Valid DB_CONFIG)
  /\ (forallb (fun kv => negb (is_missing (snd kv))) DB_CONFIG = false ->
      exists message,
        _validated_db_config DB_CONFIG = RuntimeError message
        /\ forall k v, In (k, v) DB_CONFIG -> is_missing v = true ->
                       contains k message = true)
  /\ (forall z, is_missing (PyNum z) = false).
Proof.
  unfold _validated_db_config.
  set (missing := map fst (filter (fun kv => is_missing (snd kv)) DB_CONFIG)).
  assert (Hin : forall k v, In (k, v) DB_CONFIG -> is_missing v = true ->
                            In k missing).
  { intros k v Hkv Hv. unfold missing. apply in_map_iff.
    exists (k, v). split; [reflexivity|]. apply filter_In. now split. }
  split; [|split].
  - intros H. rewrite forallb_forall in H.
    destruct missing as [|k0 m] eqn:E; [reflexivity|].
    assert (Hk : In k0 missing) by (rewrite E; now left).
    unfold missing in Hk. apply in_map_iff in Hk.
    destruct Hk as ([k v] & _ & Hf). apply filter_In in Hf.
    destruct Hf as [Hf Hm]. specialize (H _ Hf). cbn [snd] in *.
    rewrite Hm in H. discriminate H.
  - intros H.
    destruct missing as [|k0 m] eqn:E.
    + exfalso. apply not_true_iff_false in H. apply H.
      apply forallb_forall. intros [k v] Hkv. cbn [snd].
      destruct (is_missing v) eqn:Hv; [|reflexivity].
      destruct (Hin k v Hkv Hv).
    + eexists. split; [reflexivity|]. intros k v Hkv Hv.
      destruct (join_holds (lit ", ") k (k0 :: m) (Hin k v Hkv Hv))
        as (a & b & Hj).
      rewrite Hj, app_assoc. apply contains_app.
  - reflexivity.
Qed.

Lemma validated_db_config_checks_witness :
  exists message,
    _validated_db_config
      [(lit "user", PyStr (lit "postgres")); (lit "password", PyStr []);
       (lit "host", PyNone); (lit "port", PyNum 5432)]
    = RuntimeError message
    /\ contains (lit "host") message = true.
Proof.
  destruct (proj1 (proj2 (validated_db_config_checks
              [(lit "user", PyStr (lit "postgres")); (lit "password", PyStr []);
               (lit "host", PyNone); (lit "port", PyNum 5432)])) eq_refl)
    as (message & H1 & H2).
  exists message. split; [exact H1|].
  apply (H2 (lit "host") PyNone); [|reflexivity].
  right. right. left. reflexivity.
Defined.
